(** * obsidian-mcp-tools: the installer subsystem

    A shallow embedding of the installer/updater code of the Obsidian
    plugin (TypeScript), the properties its specification states, and
    further properties of the same code.

    Definitions:
    - [PosixPath]: the part of Node's [path] module the code calls, as
      it is on a POSIX host;
    - [NormalizePath]: [normalizeDuplicateSegments] (utils/normalizePath.ts)
      and the older [removeDuplicatePathSegments] (services/status.ts),
      on a POSIX host; [NormalizePathWin32]: the first of the two on a
      Windows host;
    - [Settings], [Platform]: the plugin settings, [getPlatform] and
      [getArch] (services/install.ts);
    - [Text], [Semver]: JS strings and numbers, and the functions of
      the [semver] package the status service calls;
    - [Status]: [getInstallationStatus] (services/status.ts);
    - [Config]: [updateClaudeConfig] (services/config.ts);
    - [Download]: [downloadFile] (services/install.ts);
    - [Install]: [getDownloadUrl] and the binary names;
    - [ConfigPath], [ConfigRemoval]: [getConfigPath] and
      [removeFromClaudeConfig] (services/config.ts);
    - [Win32Path], [InstallPath]: [resolveSymlinks] and [getInstallPath]
      (services/status.ts), in the current and in the earlier version;
    - [Installer]: [ensureDirectory] and [installMcpServer]
      (services/install.ts);
    - [ServerPaths]: [normalizeDirectory] of the server package;
    - [Segments], [DownloadOutcome]: vocabulary of the properties.

    A JS string is the Stdlib string of its UTF-8 bytes, a JS number is
    a double; JS objects used as dictionaries are stdpp [gmap]s, arrays
    are lists.  What the operating system, the
    network and the file system answer is an argument of the functions
    ([World], [FileSystem]); a promise that never settles is [Pending].
    The loops of the source that move an index are functions with a
    round counter, shown to be large enough. *)

From Stdlib Require Import ZArith Lia Ascii String List.
From Stdlib Require Floats.SpecFloat.
From stdpp Require Import base gmap strings list.

#[local] Set Warnings "-register-all".
#[local] Open Scope string_scope.
#[local] Open Scope nat_scope.
#[local] Open Scope list_scope.

(* ===================================================================== *)
(** ** Node's [path] module, POSIX flavour *)
(* ===================================================================== *)

Module PosixPath.

(** [path.sep] *)
Definition sep : ascii := "/"%char.

(** [path.isAbsolute(p)]: a non-empty path that starts with the separator. *)
Definition isAbsolute (p : string) : bool :=
  match p with
  | String c _ => Ascii.eqb c sep
  | EmptyString => false
  end.

(** [s.split(path.sep)]: JS [String.prototype.split] on a one-character
    separator.  The empty string splits into one empty part. *)
Fixpoint split (s : string) : list string :=
  match s with
  | EmptyString => [""]
  | String c rest =>
      if Ascii.eqb c sep then "" :: split rest
      else match split rest with
           | [] => [String c ""]
           | part :: parts => String c part :: parts
           end
  end.

(** [arr.join(path.sep)]: JS [Array.prototype.join]. *)
Fixpoint array_join (arr : list string) : string :=
  match arr with
  | [] => ""
  | [x] => x
  | x :: rest => x +:+ String sep (array_join rest)
  end.

Definition startsWith_sep (p : string) : bool := isAbsolute p.

Fixpoint endsWith_sep (p : string) : bool :=
  match p with
  | EmptyString => false
  | String c EmptyString => Ascii.eqb c sep
  | String _ rest => endsWith_sep rest
  end.

(** One segment of [normalizeString]: empty segments and "." are
    dropped; ".." removes the last kept segment unless there is none or
    it is ".." itself, in which case ".." is kept when climbing above
    the root is allowed. *)
Definition normalize_segment (allowAboveRoot : bool)
    (res : list string) (seg : string) : list string :=
  if String.eqb seg "" || String.eqb seg "." then res
  else if String.eqb seg ".." then
    match last res with
    | Some l =>
        if String.eqb l ".." then
          (if allowAboveRoot then res ++ [".."] else res)
        else removelast res
    | None => if allowAboveRoot then res ++ [".."] else res
    end
  else res ++ [seg].

Definition normalizeString (p : string) (allowAboveRoot : bool) : string :=
  array_join (fold_left (normalize_segment allowAboveRoot) (split p) []).

(** [path.normalize(p)] *)
Definition normalize (p : string) : string :=
  if String.eqb p "" then "."
  else
    let isAbs := isAbsolute p in
    let trailingSeparator := endsWith_sep p in
    let res := normalizeString p (negb isAbs) in
    if String.eqb res "" then
      (if isAbs then "/" else if trailingSeparator then "./" else ".")
    else
      let res := if trailingSeparator then res +:+ "/" else res in
      if isAbs then String sep res else res.

(** [path.join(...args)]: the non-empty arguments joined by the
    separator, then normalized; "." when nothing is left. *)
Definition join (args : list string) : string :=
  match filter (λ a, a ≠ "") args with
  | [] => "."
  | nonempty => normalize (array_join nonempty)
  end.

End PosixPath.

(* ===================================================================== *)
(** ** Duplicate path segment removal *)
(* ===================================================================== *)

Module NormalizePath.
Import PosixPath.

(** [arr.slice(a, b)] for [0 <= a <= b]: the end is clamped to the
    array. *)
Definition slice {A} (arr : list A) (a b : nat) : list A :=
  take (b - a) (drop a arr).

(** [arr.slice(-n)] for [n <= arr.length]. *)
Definition slice_last {A} (arr : list A) (n : nat) : list A :=
  drop (length arr - n) arr.

(** [pattern.length === next.length &&
     pattern.every((p, idx) => p === next[idx])] *)
Definition same_segments (pattern next : list string) : bool :=
  (length pattern =? length next)%nat
  && forallb (λ pq, String.eqb pq.1 pq.2) (combine pattern next).

(** *** normalizeDuplicateSegments (utils/normalizePath.ts) *)

(** The inner [while (patternLength <= (parts.length - i) / 2)].  The
    division is real-valued, so the test is
    [2 * patternLength <= parts.length - i]. *)
Fixpoint find_pattern (fuel : nat) (parts : list string)
    (i patternLength : nat) : option nat :=
  match fuel with
  | 0 => None
  | S fuel' =>
      if (2 * patternLength <=? length parts - i)%nat then
        let pattern := slice parts i (i + patternLength) in
        let next := slice parts (i + patternLength) (i + patternLength * 2) in
        if same_segments pattern next then Some patternLength
        else find_pattern fuel' parts i (S patternLength)
      else None
  end.

(** The outer [while (i < parts.length)]: a repeated pattern at [i] is
    skipped once ([i += patternLength]); otherwise [parts[i]] is kept. *)
Fixpoint normalize_loop (fuel : nat) (parts : list string) (i : nat)
    (normalized : list string) : list string :=
  match fuel with
  | 0 => normalized
  | S fuel' =>
      if (i <? length parts)%nat then
        let currentPart := default "" (parts !! i) in
        match find_pattern (length parts) parts i 1 with
        | Some patternLength =>
            normalize_loop fuel' parts (i + patternLength) normalized
        | None =>
            normalize_loop fuel' parts (i + 1) (normalized ++ [currentPart])
        end
      else normalized
  end.

(** The scan of the segments: every iteration advances [i], so
    [length parts] rounds are enough. *)
Definition normalize_segments (parts : list string) : list string :=
  normalize_loop (length parts) parts 0 [].

(** The function on a POSIX host, where [path.sep] is the slash; on a
    Windows host it is [NormalizePathWin32.normalizeDuplicateSegments]. *)
Definition normalizeDuplicateSegments (filepath : string) : string :=
  let isAbs := isAbsolute filepath in
  let parts := filter (λ p, p ≠ "") (split filepath) in
  let normalized := normalize_segments parts in
  let result := array_join normalized in
  if isAbs then String sep result else result.

(** *** removeDuplicatePathSegments (services/status.ts, older revision) *)

(** The inner [for (len = 1; len <= lookAhead; len++)].  The two slices
    are arrays of strings; their JSON texts are equal exactly when the
    arrays are. *)
Fixpoint find_duplicate (fuel : nat) (normalized parts : list string)
    (i len lookAhead : nat) : option nat :=
  match fuel with
  | 0 => None
  | S fuel' =>
      if (len <=? lookAhead)%nat then
        let normalizedSlice := slice_last normalized len in
        let partsSlice := slice parts i (i + len) in
        if bool_decide (normalizedSlice = partsSlice) then Some len
        else find_duplicate fuel' normalized parts i (S len) lookAhead
      else None
  end.

(** The [for (i = 0; i < parts.length; i++)] loop. *)
Fixpoint remove_loop (fuel : nat) (parts : list string) (i : nat)
    (normalized : list string) : list string :=
  match fuel with
  | 0 => normalized
  | S fuel' =>
      if (i <? length parts)%nat then
        let part := default "" (parts !! i) in
        if String.eqb part "" && negb (i =? 0)%nat then
          remove_loop fuel' parts (i + 1) normalized
        else
          let found :=
            if (0 <? i)%nat && negb (String.eqb part "") then
              let lookAhead := min (length normalized) (length parts - i) in
              find_duplicate (length parts) normalized parts i 1 lookAhead
            else None in
          match found with
          | Some len => remove_loop fuel' parts (i + (len - 1) + 1) normalized
          | None => remove_loop fuel' parts (i + 1) (normalized ++ [part])
          end
      else normalized
  end.

Definition remove_segments (parts : list string) : list string :=
  remove_loop (length parts) parts 0 [].

Definition removeDuplicatePathSegments (filepath : string) : string :=
  let parts := split filepath in
  let normalized := remove_segments parts in
  if length normalized =? 0 then String sep ""
  else if (length normalized =? 1) && bool_decide (normalized !! 0 = Some "")
  then String sep ""
  else
    let result := join normalized in
    if bool_decide (normalized !! 0 = Some "") && negb (startsWith_sep result)
    then String sep result
    else result.

(** *** Vocabulary of the properties *)

(** The block of [len] segments at [i] is immediately repeated. *)
Definition repeats_at (parts : list string) (i len : nat) : bool :=
  (2 * len <=? length parts - i)%nat
  && bool_decide (slice parts i (i + len) = slice parts (i + len) (i + len * 2)).

(** No non-empty block of segments is immediately repeated anywhere. *)
Definition no_repeated_block (parts : list string) : bool :=
  forallb (λ i, forallb (λ len, negb (repeats_at parts i (S len)))
                        (seq 0 (length parts)))
          (seq 0 (length parts)).

(** [removeDuplicatePathSegments]: the last [len] kept segments equal the next [len] parts. *)
Definition dup_at (normalized parts : list string) (i len : nat) : bool :=
  bool_decide (slice_last normalized len = slice parts i (i + len)).

(** A path segment: non-empty and free of the separator. *)
Fixpoint has_sep (s : string) : bool :=
  match s with
  | EmptyString => false
  | String c rest => Ascii.eqb c sep || has_sep rest
  end.

Definition is_segment (s : string) : bool :=
  negb (String.eqb s "") && negb (has_sep s).

(** A segment that [path.join] leaves alone: neither "." nor "..". *)
Definition is_plain_segment (s : string) : bool :=
  is_segment s && negb (String.eqb s ".") && negb (String.eqb s "..").

(** The path with the given segments, in canonical form: one separator
    between segments, a leading one when absolute, none trailing. *)
Definition render (absolute : bool) (segs : list string) : string :=
  if absolute then String sep (array_join segs) else array_join segs.

End NormalizePath.

(* ===================================================================== *)
(** ** Plugin settings, platform and architecture *)
(* ===================================================================== *)

Module Settings.

(** [McpToolsPluginSettings] (types.ts).  All fields are optional; the
    values are what [loadData] returned, strings at run time. *)
Record McpToolsPluginSettings := {
  version : option string;
  customPlatform : option string;
  customArch : option string;
  customBinaryPath : option string;
  customCommand : option string;
  customEnvVars : option (gmap string string);
  customHost : option string;
}.

(** A plugin object; [(plugin as any).settings] may be undefined. *)
Record Plugin := { settings : option McpToolsPluginSettings }.

(** [plugin.settings?.field] for a [plugin] that is there *)
Definition field {A} (f : McpToolsPluginSettings → option A) (plugin : Plugin) : option A :=
  settings plugin ≫= f.

(** JS truthiness of an optional string: defined and not empty. *)
Definition truthy (v : option string) : bool :=
  match v with
  | Some s => negb (String.eqb s "")
  | None => false
  end.

(** [a || b] on an optional string and a string *)
Definition or_else (v : option string) (b : string) : string :=
  match v with
  | Some s => if String.eqb s "" then b else s
  | None => b
  end.

End Settings.

Module Platform.
Import Settings.

(** constants/index.ts *)
Definition PLATFORM_TYPES : list string := ["windows"; "macos"; "linux"].
Definition ARCH_TYPES : list string := ["x64"; "arm64"].

(** [getPlatform(plugin?)]; [os_platform] is what [os.platform()]
    answers. *)
Definition getPlatform (os_platform : string) (plugin : option Plugin) : string :=
  let custom := plugin ≫= field customPlatform in
  if truthy custom then default "" custom
  else if String.eqb os_platform "darwin" then "macos"
  else if String.eqb os_platform "win32" then "windows"
  else "linux".

(** [getArch(plugin?)]; [os_arch] is what [os.arch()] answers.  The
    fallback is [os.arch() as Arch]: a cast, no mapping. *)
Definition getArch (os_arch : string) (plugin : option Plugin) : string :=
  let custom := plugin ≫= field customArch in
  if truthy custom then default "" custom
  else os_arch.

(** The values [os.arch()] can answer (Node documentation). *)
Definition NODE_ARCHS : list string :=
  ["arm"; "arm64"; "ia32"; "loong64"; "mips"; "mipsel"; "ppc64";
   "riscv64"; "s390x"; "x64"].

End Platform.

(* ===================================================================== *)
(** ** JS strings and numbers *)
(* ===================================================================== *)

Module Text.

Definition is_digit (c : ascii) : bool :=
  let n := nat_of_ascii c in (48 <=? n) && (n <=? 57).

Definition is_letter_dash (c : ascii) : bool :=
  let n := nat_of_ascii c in
  ((65 <=? n) && (n <=? 90)) || ((97 <=? n) && (n <=? 122)) || (n =? 45).

(** JS white space and line terminators that are one byte: tab, LF, VT,
    FF, CR, space. *)
Definition is_space (c : ascii) : bool :=
  let n := nat_of_ascii c in ((9 <=? n) && (n <=? 13)) || (n =? 32).

(** Those of two bytes: U+00A0 (C2 A0). *)
Definition is_space2 (a b : ascii) : bool :=
  (nat_of_ascii a =? 194) && (nat_of_ascii b =? 160).

(** Those of three bytes: U+1680 (E1 9A 80), U+2000 to U+200A, U+2028,
    U+2029, U+202F (E2 80 80 to 8A, A8, A9, AF), U+205F (E2 81 9F),
    U+3000 (E3 80 80), U+FEFF (EF BB BF). *)
Definition is_space3 (a b c : ascii) : bool :=
  let x := nat_of_ascii a in
  let y := nat_of_ascii b in
  let z := nat_of_ascii c in
  ((x =? 225) && (y =? 154) && (z =? 128))
  || ((x =? 226) && (y =? 128)
      && (((128 <=? z) && (z <=? 138)) || (z =? 168) || (z =? 169) || (z =? 175)))
  || ((x =? 226) && (y =? 129) && (z =? 159))
  || ((x =? 227) && (y =? 128) && (z =? 128))
  || ((x =? 239) && (y =? 187) && (z =? 191)).

Fixpoint all_chars (P : ascii → bool) (s : string) : bool :=
  match s with
  | EmptyString => true
  | String c rest => P c && all_chars P rest
  end.

Fixpoint drop_while (P : ascii → bool) (s : string) : string :=
  match s with
  | EmptyString => EmptyString
  | String c rest => if P c then drop_while P rest else s
  end.

(** [s] without the run of [P] characters at its end. *)
Fixpoint drop_end (P : ascii → bool) (s : string) : string :=
  match s with
  | EmptyString => EmptyString
  | String c rest =>
      match drop_end P rest with
      | EmptyString => if P c then EmptyString else String c EmptyString
      | kept => String c kept
      end
  end.

(** [s.trimStart()]: [s] without the white space characters at its
    start. *)
Fixpoint trimStart (s : string) : string :=
  match s with
  | EmptyString => s
  | String a rest =>
      if is_space a then trimStart rest
      else
        match rest with
        | EmptyString => s
        | String b rest2 =>
            if is_space2 a b then trimStart rest2
            else
              match rest2 with
              | EmptyString => s
              | String c rest3 => if is_space3 a b c then trimStart rest3 else s
              end
        end
  end.

(** [s.trimEnd()]: [s] up to the place behind which only white space
    follows.  No white space character begins inside another character,
    so that place is where the white space at the end begins. *)
Fixpoint trimEnd (s : string) : string :=
  match s with
  | EmptyString => s
  | String c rest =>
      if String.eqb (trimStart s) "" then "" else String c (trimEnd rest)
  end.

(** [s.trim()] *)
Definition trim (s : string) : string := trimEnd (trimStart s).

(** [s.length]: the UTF-16 code units of [s].  A character counts once
    at its first byte, and twice when it takes four bytes. *)
Fixpoint utf16_length (s : string) : nat :=
  match s with
  | EmptyString => 0
  | String c rest =>
      let n := nat_of_ascii c in
      (if (128 <=? n) && (n <? 192) then 0 else if 240 <=? n then 2 else 1)
      + utf16_length rest
  end.

(** [s] cut at the first [c]: what is before it, and what is behind it
    when there is one. *)
Fixpoint split_first (c : ascii) (s : string) : string * option string :=
  match s with
  | EmptyString => (EmptyString, None)
  | String d rest =>
      if Ascii.eqb d c then (EmptyString, Some rest)
      else let '(before, behind) := split_first c rest in (String d before, behind)
  end.

(** [s.split(c)] *)
Fixpoint split_on (c : ascii) (s : string) : list string :=
  match s with
  | EmptyString => [EmptyString]
  | String d rest =>
      if Ascii.eqb d c then EmptyString :: split_on c rest
      else match split_on c rest with
           | [] => [String d EmptyString]
           | part :: parts => String d part :: parts
           end
  end.

(** The value of a string of decimal digits. *)
Definition digits_value (s : string) : N :=
  fold_left (λ acc c, acc * 10 + N.of_nat (nat_of_ascii c - 48))%N
            (list_ascii_of_string s) 0%N.

(** The prefix of [s] made of [P] characters *)
Fixpoint take_while (P : ascii → bool) (s : string) : string :=
  match s with
  | EmptyString => EmptyString
  | String c rest => if P c then String c (take_while P rest) else EmptyString
  end.

(** U+00A0 and U+3000, for the examples *)
Definition no_break_space : string :=
  String (ascii_of_nat 194) (String (ascii_of_nat 160) EmptyString).

Definition ideographic_space : string :=
  String (ascii_of_nat 227) (String (ascii_of_nat 128) (String (ascii_of_nat 128) EmptyString)).

(** The double nearest to a natural number, ties to the even mantissa:
    the value of a string of digits as a JS number.  Below 2^53 every
    natural number is a double; above, the 53 leading bits are kept and
    rounded.  [None] is Infinity. *)
Definition to_double (n : N) : option N :=
  if (n <? 2 ^ 53)%N then Some n
  else
    let shift := (N.size n - 53)%N in
    let q := N.shiftr n shift in
    let r := N.land n (N.ones shift) in
    let half := N.shiftl 1 (shift - 1) in
    let q := if (half <? r)%N || ((r =? half)%N && N.odd q) then (q + 1)%N else q in
    let v := N.shiftl q shift in
    if (v <? 2 ^ 1024)%N then Some v else None.

(** The JS numbers [parseInt] answers: NaN, a whole double with its
    sign (there is a negative zero), an infinity. *)
Inductive number :=
| NaN
| Finite (negative : bool) (magnitude : N)
| Infinity (negative : bool).

(** [parseInt(s, 10)]: leading white space, an optional sign, then the
    longest run of digits, as a double. *)
Definition parseInt10 (s : string) : number :=
  let s := trimStart s in
  let '(negative, s) := match s with
                        | String "-"%char rest => (true, rest)
                        | String "+"%char rest => (false, rest)
                        | _ => (false, s)
                        end in
  let digits := take_while is_digit s in
  if String.eqb digits "" then NaN
  else match to_double (digits_value digits) with
       | Some n => Finite negative n
       | None => Infinity negative
       end.

End Text.

(* ===================================================================== *)
(** ** The semver package *)
(* ===================================================================== *)

(** A model of the functions of the npm package [semver] that the status
    service calls, in strict mode: [clean], [valid], [lt].  [clean] and
    [valid] answer the canonical text of the version they parse, and [lt]
    parses its arguments again; the model keeps the parsed version instead
    of its canonical text.  An all-digit prerelease identifier is kept
    with its exact value: the package keeps it as a number below
    [MAX_SAFE_INTEGER] and as its text from there on, and compares both
    as numbers, that is as doubles. *)
Module Semver.
Import Text.

Definition MAX_LENGTH : nat := 256.
Definition MAX_SAFE_INTEGER : N := 9007199254740991.

Inductive identifier :=
| Numeric (n : N)
| Alphanumeric (s : string).

Record SemVer := {
  major : N;
  minor : N;
  patch : N;
  prerelease : list identifier;
}.

(** NUMERICIDENTIFIER: [0|[1-9]\d*] *)
Definition numeric_identifier (s : string) : option N :=
  match s with
  | EmptyString => None
  | String c rest =>
      if all_chars is_digit s
         && (negb (Ascii.eqb c "0"%char) || String.eqb rest "")
      then Some (digits_value s)
      else None
  end.

(** A main version number: a numeric identifier that is a safe integer. *)
Definition version_number (s : string) : option N :=
  n ← numeric_identifier s;
  if (n <=? MAX_SAFE_INTEGER)%N then Some n else None.

(** PRERELEASEIDENTIFIER: a numeric identifier, or letters, digits and
    dashes with at least one that is not a digit. *)
Definition prerelease_identifier (s : string) : option identifier :=
  if String.eqb s "" then None
  else if all_chars is_digit s then Numeric <$> numeric_identifier s
  else if all_chars (λ c, is_digit c || is_letter_dash c) s then Some (Alphanumeric s)
  else None.

(** BUILDIDENTIFIER: [[a-zA-Z0-9-]+] *)
Definition build_identifier (s : string) : bool :=
  negb (String.eqb s "") && all_chars (λ c, is_digit c || is_letter_dash c) s.

(** [parse(version)]: the FULL pattern
    [^v?MAIN(-PRERELEASE)?(+BUILD)?$] on the trimmed text.  The build
    metadata is checked and dropped, as in the canonical text. *)
Definition parse (version : string) : option SemVer :=
  if MAX_LENGTH <? utf16_length version then None
  else
    let text := trim version in
    let text := match text with
                | String "v"%char rest => rest
                | _ => text
                end in
    let '(core, build) := split_first "+"%char text in
    let build_ok := match build with
                    | Some b => forallb build_identifier (split_on "."%char b)
                    | None => true
                    end in
    let '(main, pre) := split_first "-"%char core in
    if build_ok then
      match split_on "."%char main with
      | [a; b; c] =>
          major ← version_number a;
          minor ← version_number b;
          patch ← version_number c;
          prerelease ← match pre with
                       | Some p => mapM prerelease_identifier (split_on "."%char p)
                       | None => Some []
                       end;
          Some {| major := major; minor := minor; patch := patch;
                  prerelease := prerelease |}
      | _ => None
      end
    else None.

(** [clean(version)]: trims, strips the leading [=] and [v] characters
    and parses. *)
Definition clean (version : string) : option SemVer :=
  parse (drop_while (λ c, Ascii.eqb c "="%char || Ascii.eqb c "v"%char) (trim version)).

(** [valid(version)] on what [clean] answered: [null] stays [null], a
    canonical text is valid. *)
Definition valid (version : option SemVer) : option SemVer := version.

(** [a === b] on two identifiers: the same number, or the same text. *)
Definition same_identifier (a b : identifier) : bool :=
  match a, b with
  | Numeric x, Numeric y => (x =? y)%N
  | Alphanumeric x, Alphanumeric y => String.eqb x y
  | _, _ => false
  end.

(** [a < b] and [a === b] on two numbers that came from digits; [None]
    is Infinity. *)
Definition compare_doubles (a b : option N) : comparison :=
  match a, b with
  | Some x, Some y => N.compare x y
  | Some _, None => Lt
  | None, Some _ => Gt
  | None, None => Eq
  end.

(** [compareIdentifiers(a, b)]: two all-digit identifiers are compared
    as numbers ([+a], [+b]), an all-digit one comes before any other,
    two others are compared as strings. *)
Definition compareIdentifiers (a b : identifier) : comparison :=
  match a, b with
  | Numeric x, Numeric y => compare_doubles (to_double x) (to_double y)
  | Numeric _, Alphanumeric _ => Lt
  | Alphanumeric _, Numeric _ => Gt
  | Alphanumeric x, Alphanumeric y => String.compare x y
  end.

(** The loop of [comparePre]: the first position at which the two
    identifiers are not the same ([a === b]) decides, with what
    [compareIdentifiers] answers there, also when that is 0. *)
Fixpoint compare_identifier_lists (a b : list identifier) : comparison :=
  match a, b with
  | [], [] => Eq
  | _ :: _, [] => Gt
  | [], _ :: _ => Lt
  | x :: a', y :: b' =>
      if same_identifier x y then compare_identifier_lists a' b'
      else compareIdentifiers x y
  end.

(** [comparePre]: a version with a prerelease comes before the same
    version without one. *)
Definition comparePre (a b : SemVer) : comparison :=
  match prerelease a, prerelease b with
  | _ :: _, [] => Lt
  | [], _ :: _ => Gt
  | [], [] => Eq
  | pa, pb => compare_identifier_lists pa pb
  end.

Definition compareMain (a b : SemVer) : comparison :=
  match N.compare (major a) (major b) with
  | Eq => match N.compare (minor a) (minor b) with
          | Eq => N.compare (patch a) (patch b)
          | c => c
          end
  | c => c
  end.

(** [compare(a, b)]: [compareMain(other) || comparePre(other)] *)
Definition compare (a b : SemVer) : comparison :=
  match compareMain a b with
  | Eq => comparePre a b
  | c => c
  end.

(** [lt(a, b)]: [compare(a, b) < 0] *)
Definition lt (a b : SemVer) : bool :=
  match compare a b with
  | Lt => true
  | _ => false
  end.

(** *** Vocabulary of the properties *)

(** The precedence of semantic versions by the rules of semver.org
    (item 11), which the order of the package is compared with: the
    main numbers in turn; a version with a prerelease before the same
    version without; prerelease identifiers from the left, all-digit
    ones by their exact value and before the others, the others in
    ASCII order, and a list before its extensions. *)
Definition identifier_precedence (a b : identifier) : comparison :=
  match a, b with
  | Numeric x, Numeric y => N.compare x y
  | Numeric _, Alphanumeric _ => Lt
  | Alphanumeric _, Numeric _ => Gt
  | Alphanumeric x, Alphanumeric y => String.compare x y
  end.

Fixpoint prerelease_precedence (a b : list identifier) : comparison :=
  match a, b with
  | [], [] => Eq
  | _ :: _, [] => Gt
  | [], _ :: _ => Lt
  | x :: a', y :: b' =>
      match identifier_precedence x y with
      | Eq => prerelease_precedence a' b'
      | c => c
      end
  end.

Definition precedence (a b : SemVer) : comparison :=
  match compareMain a b with
  | Eq => match prerelease a, prerelease b with
          | _ :: _, [] => Lt
          | [], _ :: _ => Gt
          | pa, pb => prerelease_precedence pa pb
          end
  | c => c
  end.

(** Every all-digit prerelease identifier is below 2^53. *)
Definition exact_identifier (a : identifier) : bool :=
  match a with
  | Numeric n => (n <? 2 ^ 53)%N
  | Alphanumeric _ => true
  end.

Definition exact (v : SemVer) : bool := forallb exact_identifier (prerelease v).

End Semver.

(* ===================================================================== *)
(** ** Installation status (services/status.ts) *)
(* ===================================================================== *)

Module Status.
Import Settings.

(** The [state] of an [InstallationStatus]: "no api key",
    "not installed", "installed", "outdated", "error". *)
Inductive state := NoApiKey | NotInstalled | Installed | Outdated | Error.

Record InstallPathInfo := {
  dir : string;
  path : string;
  name : string;
  symlinked : option string;
}.

Record InstallationStatus := {
  state_of : state;
  install_path : option InstallPathInfo;   (* the spread [...installPath] *)
  versions_plugin : option Semver.SemVer;
  versions_server : option Semver.SemVer;
  error : option string;
}.

(** How an awaited promise ends; [Pending] is a promise that never
    settles. *)
Inductive promise (A : Type) :=
| Resolved (a : A)
| Rejected (reason : string)
| Pending.
Arguments Resolved {A} a.
Arguments Rejected {A} reason.
Arguments Pending {A}.

(** What a child process does: it exits after some milliseconds with an
    exit code and what it printed on its standard output, or it never
    exits.  Its standard error is taken to stay within [exec]'s buffer. *)
Inductive process :=
| Exits (code : Z) (stdout : string) (after_ms : N)
| Hangs.

(** [exec]'s default [maxBuffer]: 1024 * 1024 bytes *)
Definition default_maxBuffer : N := 1048576.

(** Node's [child_process.exec(command, { timeout })], promisified.  A
    [timeout] of 0, the default, means no timeout; with a positive one
    the child is killed when it runs longer and the promise is rejected.
    Output beyond [maxBuffer] and a non-zero exit code reject too. *)
Definition exec (timeout : N) (child : process) : promise string :=
  match child with
  | Exits code stdout after_ms =>
      if (0 <? timeout)%N && (timeout <? after_ms)%N then Rejected "Command failed (killed)"
      else if (default_maxBuffer <? N.of_nat (String.length stdout))%N
      then Rejected "stdout maxBuffer length exceeded"
      else if (code =? 0)%Z then Resolved stdout
      else Rejected "Command failed"
  | Hangs =>
      if (0 <? timeout)%N then Rejected "Command failed (killed)"
      else Pending
  end.

(** [exec]'s default options *)
Definition default_timeout : N := 0.

(** [execAsync(command)]: [promisify(exec)] called without options. *)
Definition execAsync (child : process) : promise string :=
  exec default_timeout child.

(** What the plugin object and the operating system answer.
    [getLocalRestApiKey] is the value that the test [!apiKey] sees.  The
    method of [main.ts] is declared [async] and is called here without
    [await]: with that plugin the value is a promise, which is truthy
    whatever key is stored, so only the worlds with a truthy value are
    worlds of that plugin; the falsy ones are those of a plugin object
    whose method answers the key itself. *)
Record World := {
  manifest_version : string;                            (* plugin.manifest.version *)
  getLocalRestApiKey : option string;                   (* plugin.getLocalRestApiKey() *)
  getInstallPath : promise (InstallPathInfo + string);  (* path info, or [{ error }] *)
  access_X_OK : string → bool;                          (* fsp.access(p, X_OK) succeeds *)
  run : string → process;                               (* the command, run by the shell *)
}.

Definition double_quote : string := String (ascii_of_nat 34) EmptyString.

(** The template text of [versionCommand]: the quoted path and the
    version flag. *)
Definition versionCommand (p : string) : string :=
  double_quote +:+ p +:+ double_quote +:+ " --version".

Definition getInstallationStatus (w : World) : promise InstallationStatus :=
  match Semver.valid (Semver.clean (manifest_version w)) with
  | None =>
      Resolved {| state_of := Error; install_path := None; versions_plugin := None;
                  versions_server := None; error := None |}
  | Some pluginVersion =>
      if negb (truthy (getLocalRestApiKey w)) then
        Resolved {| state_of := NoApiKey; install_path := None;
                    versions_plugin := Some pluginVersion;
                    versions_server := None; error := None |}
      else
        match getInstallPath w with
        | Pending => Pending
        | Rejected reason => Rejected reason
        | Resolved (inr message) =>
            Resolved {| state_of := Error; install_path := None;
                        versions_plugin := Some pluginVersion;
                        versions_server := None; error := Some message |}
        | Resolved (inl installPath) =>
            if negb (access_X_OK w (path installPath)) then
              Resolved {| state_of := NotInstalled; install_path := Some installPath;
                          versions_plugin := Some pluginVersion;
                          versions_server := None; error := None |}
            else
              let failed :=
                Resolved {| state_of := Error; install_path := Some installPath;
                            versions_plugin := Some pluginVersion;
                            versions_server := None; error := None |} in
              match execAsync (run w (versionCommand (path installPath))) with
              | Pending => Pending
              | Rejected _ => failed
              | Resolved stdout =>
                  match Semver.clean (Text.trim stdout) with
                  | None => failed
                  | Some serverVersion =>
                      Resolved {| state_of := if Semver.lt serverVersion pluginVersion
                                              then Outdated else Installed;
                                  install_path := Some installPath;
                                  versions_plugin := Some pluginVersion;
                                  versions_server := Some serverVersion;
                                  error := None |}
                  end
              end
        end
  end.

(** A world for the examples: an API key, an executable binary at the
    install path, and a binary that answers [stdout] (or hangs). *)
Definition example_info : InstallPathInfo :=
  {| dir := "/vault/.obsidian/plugins/mcp-tools/bin";
     path := "/vault/.obsidian/plugins/mcp-tools/bin/mcp-server";
     name := "mcp-server";
     symlinked := None |}.

Definition example_world (pluginVersion : string) (child : process) : World :=
  {| manifest_version := pluginVersion;
     getLocalRestApiKey := Some "secret";
     getInstallPath := Resolved (inl example_info);
     access_X_OK := λ _, true;
     run := λ _, child |}.

Definition newline : string := String (ascii_of_nat 10) EmptyString.

End Status.

(* ===================================================================== *)
(** ** The host launcher configuration (services/config.ts) *)
(* ===================================================================== *)

Module Config.
Import Settings.

(** A JS value that [JSON.parse] answers.  Objects are dictionaries; a
    number is a double, as IEEE 754 has it ([spec_float] of the
    Standard Library): a literal such as 1e999 is parsed as Infinity,
    and -0 is parsed as the negative zero. *)
Inductive json :=
| JNull
| JBool (b : bool)
| JNum (x : SpecFloat.spec_float)
| JStr (s : string)
| JArr (items : list json)
| JObj (members : gmap string json).

(** JS truthiness of a number: neither a zero nor NaN *)
Definition number_truthy (x : SpecFloat.spec_float) : bool :=
  match x with
  | SpecFloat.S754_zero _ | SpecFloat.S754_nan => false
  | SpecFloat.S754_infinity _ | SpecFloat.S754_finite _ _ _ => true
  end.

(** JS truthiness of a parsed JSON value *)
Definition json_truthy (v : json) : bool :=
  match v with
  | JNull => false
  | JBool b => b
  | JNum x => number_truthy x
  | JStr s => negb (String.eqb s "")
  | JArr _ | JObj _ => true
  end.

(** [JSON.parse(JSON.stringify(v))]: what is read back from the text
    that is written for [v].  [JSON.stringify] writes a number that is
    not finite as [null] and the negative zero as 0; everything else is
    read back as it was. *)
Fixpoint read_back (v : json) : json :=
  match v with
  | JNum (SpecFloat.S754_zero _) => JNum (SpecFloat.S754_zero false)
  | JNum (SpecFloat.S754_infinity _) | JNum SpecFloat.S754_nan => JNull
  | JArr items => JArr (read_back <$> items)
  | JObj members => JObj (read_back <$> members)
  | JNull | JBool _ | JNum (SpecFloat.S754_finite _ _ _) | JStr _ => v
  end.

(** The fixed key of this plugin's entry *)
Definition SERVER_ID : string := "obsidian-mcp-tools".

(** The entry object [{ command, env }] in memory; an [env] member can
    hold [undefined] ([None]). *)
Record server_entry := {
  command : string;
  env : gmap string (option string);
}.

(** [const command = settings?.customCommand || serverPath] *)
Definition build_command (plugin : Plugin) (serverPath : string) : string :=
  or_else (field customCommand plugin) serverPath.

(** The [env] record: the API key, the custom host when there is one,
    then [Object.assign(env, settings.customEnvVars)], which sets every
    own property of the custom variables on [env].  Setting the name
    [__proto__] reaches the setter of [Object.prototype], which ignores
    a string: that variable makes no property. *)
Definition build_env (plugin : Plugin) (apiKey : option string)
    : gmap string (option string) :=
  let env := {[ "OBSIDIAN_API_KEY" := apiKey ]} in
  let env := if truthy (field customHost plugin)
             then <["OBSIDIAN_HOST" := field customHost plugin]> env
             else env in
  match field customEnvVars plugin with
  | Some vars => (Some <$> delete "__proto__" vars) ∪ env
  | None => env
  end.

Definition build_entry (plugin : Plugin) (serverPath : string)
    (apiKey : option string) : server_entry :=
  {| command := build_command plugin serverPath;
     env := build_env plugin apiKey |}.

(** The entry as [JSON.stringify] writes it and [JSON.parse] reads it
    back: members whose value is [undefined] are left out. *)
Definition entry_json (entry : server_entry) : json :=
  JObj (<["command" := JStr (command entry)]>
        (<["env" := JObj (JStr <$> omap id (env entry))]> ∅)).

(** [config.mcpServers = config.mcpServers || {}] followed by
    [config.mcpServers[SERVER_ID] = entry]: the config that
    [JSON.stringify] is given, without what it does not write.  [None]
    is a TypeError.
    - [null] has no properties to read;
    - a property cannot be created on a number, string or boolean (the
      module is strict code; in sloppy code the second assignment would
      throw instead);
    - an array accepts the property, but [JSON.stringify] writes the
      elements of an array only. *)
Definition set_server_entry (config : json) (entry : server_entry) : option json :=
  match config with
  | JNull | JBool _ | JNum _ | JStr _ => None
  | JArr items => Some (JArr items)
  | JObj members =>
      let mcpServers :=
        match members !! "mcpServers" with
        | Some v => if json_truthy v then v else JObj ∅
        | None => JObj ∅
        end in
      match mcpServers with
      | JObj servers =>
          Some (JObj (<["mcpServers" := JObj (<[SERVER_ID := entry_json entry]> servers)]>
                      members))
      | JArr items => Some (JObj (<["mcpServers" := JArr items]> members))
      | JNull | JBool _ | JNum _ | JStr _ => None
      end
  end.

(** The file at the config path, as [readFile] and [JSON.parse] see it *)
Inductive config_file :=
| Absent                       (* readFile fails with ENOENT *)
| Unreadable (code : string)   (* readFile fails with another code *)
| Malformed                    (* JSON.parse throws *)
| Document (doc : json).       (* the text parses to [doc] *)

Record FileSystem := {
  mkdir_error : option string;      (* fsp.mkdir(configDir, { recursive }) *)
  file : config_file;
  writeFile_error : option string;  (* fsp.writeFile(configPath, text) *)
}.

(** The call resolves, having written a text that parses to [doc], or
    rejects with "Failed to update Claude config: ...". *)
Inductive outcome :=
| Written (doc : json)
| Failed (message : string).

Definition updateClaudeConfig (fs : FileSystem) (plugin : Plugin)
    (serverPath : string) (apiKey : option string) : outcome :=
  match mkdir_error fs with
  | Some message => Failed message
  | None =>
      let entry := build_entry plugin serverPath apiKey in
      let updated :=
        match file fs with
        | Absent => inl (set_server_entry (JObj {[ "mcpServers" := JObj ∅ ]}) entry)
        | Unreadable code => inr code
        | Malformed => inr "SyntaxError"
        | Document doc => inl (set_server_entry doc entry)
        end in
      match updated with
      | inr message => Failed message
      | inl None => Failed "TypeError"
      | inl (Some doc) =>
          match writeFile_error fs with
          | Some message => Failed message
          | None => Written (read_back doc)
          end
      end
  end.

(** *** Vocabulary of the properties *)

(** The members of the document before the call; a missing file has
    none. *)
Definition members_before (f : config_file) : gmap string json :=
  match f with
  | Document (JObj members) => members
  | _ => ∅
  end.

(** The server entries before the call *)
Definition servers_before (f : config_file) : gmap string json :=
  match members_before f !! "mcpServers" with
  | Some (JObj servers) => servers
  | _ => ∅
  end.

(** The file is missing, or holds an object whose [mcpServers] member is
    missing, falsy or an object. *)
Definition has_servers_object (f : config_file) : bool :=
  match f with
  | Absent => true
  | Document (JObj members) =>
      match members !! "mcpServers" with
      | None => true
      | Some (JObj _) => true
      | Some v => negb (json_truthy v)
      end
  | _ => false
  end.

(** The number of constructors of a value, for inductions *)
Fixpoint json_size (v : json) : nat :=
  match v with
  | JArr items => S (foldr (λ x n, json_size x + n) 0 items)
  | JObj members => S (map_fold (λ _ x n, json_size x + n) 0 members)
  | JNull | JBool _ | JNum _ | JStr _ => 1
  end.

(** Every number in the value is one that JSON writes: it is finite and
    not the negative zero. *)
Fixpoint writable (v : json) : bool :=
  match v with
  | JNum (SpecFloat.S754_finite _ _ _) | JNum (SpecFloat.S754_zero false) => true
  | JNum _ => false
  | JArr items => forallb writable items
  | JObj members => map_fold (λ _ x b, writable x && b) true members
  | JNull | JBool _ | JStr _ => true
  end.

(** Examples: a plugin without settings, one with the WSL settings of
    the contribution notes, one whose custom variables hold the name
    [__proto__], and a config file with another server, a top-level key
    of the host, and an older entry of this plugin that has an [args]
    array. *)
Definition plain_plugin : Plugin := {| settings := None |}.

Definition wsl_plugin : Plugin :=
  {| settings := Some
       {| version := None;
          customPlatform := Some "linux";
          customArch := None;
          customBinaryPath := None;
          customCommand := Some "wsl.exe";
          customEnvVars := Some {[ "CUSTOM_VAR" := "value" ]};
          customHost := Some "127.0.0.1" |} |}.

Definition proto_plugin : Plugin :=
  {| settings := Some
       {| version := None;
          customPlatform := None;
          customArch := None;
          customBinaryPath := None;
          customCommand := Some "";
          customEnvVars := Some {[ "__proto__" := "polluted"; "OBSIDIAN_HOST" := "localhost" ]};
          customHost := Some "127.0.0.1" |} |}.

Definition other_server : json :=
  JObj {[ "command" := JStr "node"; "args" := JArr [JStr "server.js"] ]}.

(** Numbers as [JSON.parse] answers them: 1e999, -0, 0 and 1.5
    (6755399441055744 * 2^-52). *)
Definition overflowing : json := JNum (SpecFloat.S754_infinity false).
Definition negative_zero : json := JNum (SpecFloat.S754_zero true).
Definition zero : json := JNum (SpecFloat.S754_zero false).
Definition one_and_a_half : json := JNum (SpecFloat.S754_finite false 6755399441055744 (-52)).

(** A config file of a host that keeps such numbers *)
Definition numbers_document : json :=
  JObj {[ "zoom" := one_and_a_half;
          "limit" := overflowing;
          "offset" := negative_zero;
          "mcpServers" := JObj {[ "other" := JObj {[ "command" := JStr "node";
                                                     "timeout" := overflowing ]} ]} ]}.

Definition older_entry : json :=
  JObj {[ "command" := JStr "/old/mcp-server"; "args" := JArr [JStr "--stdio"];
          "env" := JObj {[ "OBSIDIAN_API_KEY" := JStr "old" ]} ]}.

Definition example_document : json :=
  JObj {[ "theme" := JStr "dark";
          "mcpServers" := JObj {[ "other" := other_server;
                                  SERVER_ID := older_entry ]} ]}.

Definition example_fs (f : config_file) : FileSystem :=
  {| mkdir_error := None; file := f; writeFile_error := None |}.

End Config.

(* ===================================================================== *)
(** ** The downloader (services/install.ts) *)
(* ===================================================================== *)

Module Download.
Import Settings Text.

(** [DownloadProgress]; the [percentage] member is a floating-point
    function of the two others and is left out.  [totalBytes] is what
    [parseInt] answered for the content length, or 0. *)
Record DownloadProgress := {
  bytesReceived : nat;
  totalBytes : number;
}.

(** The errors the subscriber can receive, by message:
    "Too many redirects", "Network error: m", "HTTP Error c: m",
    "Redirect (c) received but no location header found",
    "Unexpected status code: c", "Invalid content-length header",
    "Failed to create write stream: m", "Received invalid data chunk",
    "File stream error: m", "Response error: m". *)
Inductive download_error :=
| TooManyRedirects
| NetworkError (message : string)
| HttpError (code : nat) (message : string)
| RedirectWithoutLocation (code : nat)
| UnexpectedStatus (code : nat)
| InvalidContentLength
| WriteStreamFailed (message : string)
| InvalidChunk
| FileStreamFailed (message : string)
| ResponseFailed (message : string).

(** What the subscriber of the Observable is told *)
Inductive notification :=
| Next (progress : DownloadProgress)
| Error (e : download_error)
| Complete.

Inductive chunk :=
| Buffer (data : string)
| NotBuffer.

(** What happens on the streams once the response is piped into the
    file: a "data" event of the response, an "error" event of the file
    stream, of the response or of the request, the "finish" event of the
    file stream. *)
Inductive stream_event :=
| Data (c : chunk)
| FileStreamError (message : string)
| ResponseError (message : string)
| RequestError (message : string)
| Finish.

Record response := {
  statusCode : option nat;
  statusMessage : string;
  location : option string;         (* response.headers.location *)
  contentLength : option string;    (* response.headers["content-length"] *)
  events : list stream_event;
}.

(** What [https.get(url)] leads to: an "error" event of the request
    before any response, or a response. *)
Inductive reply :=
| Refused (message : string)
| Response (r : response).

(** What [fs.createWriteStream(outputPath, { flags: "w" })] does.  It
    throws when the path is no valid argument.  Otherwise it answers a
    stream and opens the file: an open that succeeds creates the file
    or empties the one that is there; an open that fails (a missing
    directory, EACCES, a busy file) leaves what is there, nothing is
    ever written, and the failure is an "error" event of the stream. *)
Inductive creation :=
| Throws (message : string)
| Opens
| OpenFails.

(** The network and the file system: the reply to each URL, what
    creating the write stream does, and whether unlinking or changing
    the mode of the existing destination file fails (say with EPERM). *)
Record World := {
  get : string → reply;
  createWriteStream : creation;
  unlink_fails : bool;
  chmod_fails : bool;
}.

(** The [logger.error] entries of [cleanup] *)
Inductive logged :=
| CleanupFailed    (* "Failed to clean up incomplete download:" *)
| ChmodFailed.     (* "Failed to set executable permissions:" *)

(** The file at [outputPath] ([None]: there is none), what the
    subscriber has been told, the URLs requested and the log, oldest
    first. *)
Record state := {
  file : option string;
  notifications : list notification;
  requests : list string;
  log : list logged;
}.

Definition set_file (f : option string) (st : state) : state :=
  {| file := f; notifications := notifications st;
     requests := requests st; log := log st |}.

Definition add_request (url : string) (st : state) : state :=
  {| file := file st; notifications := notifications st;
     requests := requests st ++ [url]; log := log st |}.

Definition add_log (entry : logged) (st : state) : state :=
  {| file := file st; notifications := notifications st;
     requests := requests st; log := log st ++ [entry] |}.

(** An rxjs subscriber is stopped by [error] and by [complete]. *)
Definition stopped (st : state) : bool :=
  match last (notifications st) with
  | Some (Error _) | Some Complete => true
  | _ => false
  end.

(** [subscriber.next], [subscriber.error], [subscriber.complete]: a
    stopped subscriber ignores them. *)
Definition notify (n : notification) (st : state) : state :=
  if stopped st then st
  else {| file := file st; notifications := notifications st ++ [n];
          requests := requests st; log := log st |}.

(** The local [fileStream] of one [downloadFile] call; [Unopened] is a
    stream whose open failed. *)
Inductive stream_state := Open | Unopened | Closed | Destroyed.

(** [cleanup(err)] with an error ([failed]): the file stream, when there
    is one, is destroyed and the file is unlinked; an unlink that fails
    (also when there is no file) is logged.  [cleanup()] without: the
    stream is closed and the mode is set; a failure is logged. *)
Definition cleanup (w : World) (failed : bool)
    (fileStream : option stream_state) (st : state) : option stream_state * state :=
  if failed then
    ((λ _, Destroyed) <$> fileStream,
     match file st with
     | Some _ => if unlink_fails w then add_log CleanupFailed st else set_file None st
     | None => add_log CleanupFailed st
     end)
  else
    ((λ s, match s with Open => Closed | _ => s end) <$> fileStream,
     match file st with
     | Some _ => if chmod_fails w then add_log ChmodFailed st else st
     | None => add_log ChmodFailed st
     end).

(** The [catch] blocks and the "error" handlers: [cleanup(err)], then
    [subscriber.error(...)]. *)
Definition fail (w : World) (e : download_error)
    (fileStream : option stream_state) (st : state) : option stream_state * state :=
  let '(fileStream, st) := cleanup w true fileStream st in
  (fileStream, notify (Error e) st).

(** One event.  For a "data" event the progress handler runs first, then
    the pipe writes the chunk while the file stream is open. *)
Definition on_event (w : World) (total : number) (ev : stream_event)
    (s : stream_state * nat * state) : stream_state * nat * state :=
  let '(fileStream, downloadedBytes, st) := s in
  let failed e :=
    let '(fileStream', st') := fail w e (Some fileStream) st in
    (default fileStream fileStream', downloadedBytes, st') in
  match ev with
  | Data (Buffer data) =>
      let downloadedBytes := downloadedBytes + String.length data in
      let st := notify (Next {| bytesReceived := downloadedBytes;
                                totalBytes := total |}) st in
      let st := match fileStream, file st with
                | Open, Some content => set_file (Some (content +:+ data)) st
                | _, _ => st
                end in
      (fileStream, downloadedBytes, st)
  | Data NotBuffer => failed InvalidChunk
  | FileStreamError message => failed (FileStreamFailed message)
  | ResponseError message => failed (ResponseFailed message)
  | RequestError message => failed (NetworkError message)
  | Finish =>
      let '(fileStream', st') := cleanup w false (Some fileStream) st in
      (default fileStream fileStream', downloadedBytes, notify Complete st')
  end.

(** [contentLength ? parseInt(contentLength, 10) : 0], with [None] for
    the NaN that makes the header invalid. *)
Definition content_total (r : response) : option number :=
  if truthy (contentLength r) then
    match parseInt10 (default "" (contentLength r)) with
    | NaN => None
    | totalBytes => Some totalBytes
    end
  else Some (Finite false 0).

(** The body of the Observable.  Every redirect recurs with
    [redirects + 1], and [redirects > 5] ends the recursion, so
    [S (6 - redirects)] rounds are enough; [None] would be running out of
    them. *)
Fixpoint download_from (fuel : nat) (w : World) (url : string)
    (redirects : nat) (st : state) : option state :=
  match fuel with
  | 0 => None
  | S fuel' =>
      if 5 <? redirects then Some (notify (Error TooManyRedirects) st)
      else
        let st := add_request url st in
        match get w url with
        | Refused message => Some (snd (fail w (NetworkError message) None st))
        | Response r =>
            let code := default 0 (statusCode r) in
            if 400 <=? code then
              Some (snd (fail w (HttpError code (statusMessage r)) None st))
            else if (code =? 302) || (code =? 301) then
              if truthy (location r)
              then download_from fuel' w (default "" (location r)) (redirects + 1) st
              else Some (snd (fail w (RedirectWithoutLocation code) None st))
            else if negb (code =? 200) then
              Some (snd (fail w (UnexpectedStatus code) None st))
            else
              match content_total r with
              | None => Some (snd (fail w InvalidContentLength None st))
              | Some total =>
                  match createWriteStream w with
                  | Throws message =>
                      Some (snd (fail w (WriteStreamFailed message) None st))
                  | Opens =>
                      Some (snd (foldl (λ s ev, on_event w total ev s)
                                       (Open, 0, set_file (Some "") st) (events r)))
                  | OpenFails =>
                      Some (snd (foldl (λ s ev, on_event w total ev s)
                                       (Unopened, 0, st) (events r)))
                  end
              end
        end
  end.

Definition downloadFile (w : World) (url : string) (redirects : nat)
    (st : state) : option state :=
  download_from (S (6 - redirects)) w url redirects st.

(** *** Vocabulary of the properties *)


(** The progress notifications for a run of buffers, after
    [downloaded] bytes *)
Fixpoint progress_of (total : number) (downloaded : nat) (buffers : list string)
    : list notification :=
  match buffers with
  | [] => []
  | data :: rest =>
      let downloaded := downloaded + String.length data in
      Next {| bytesReceived := downloaded; totalBytes := total |}
      :: progress_of total downloaded rest
  end.

(** The bytes of a run of buffers *)
Definition written (buffers : list string) : string :=
  foldl String.append "" buffers.

(** A response that redirects to [target] *)
Definition redirect_to (code : nat) (target : string) : response :=
  {| statusCode := Some code; statusMessage := "Found";
     location := Some target; contentLength := None; events := [] |}.

Definition initial : state :=
  {| file := None; notifications := []; requests := []; log := [] |}.

(** A server that answers every URL with a 302 to that URL followed by
    "/next", and the URLs of the chain that starts at [start]. *)
Definition redirecting_world : World :=
  {| get := λ url, Response (redirect_to 302 (url +:+ "/next"));
     createWriteStream := Opens; unlink_fails := false; chmod_fails := false |}.

Definition hop_of (start : string) (i : nat) : string :=
  Nat.iter i (λ url, url +:+ "/next") start.

(** A server that sends two bytes of a binary and then fails, on a file
    system where the destination file cannot be unlinked or can. *)
Definition aborting_world (unlink_fails : bool) : World :=
  {| get := λ _, Response {| statusCode := Some 200; statusMessage := "OK";
                             location := None; contentLength := Some "4096";
                             events := [Data (Buffer "MZ"); ResponseError "aborted"] |};
     createWriteStream := Opens; unlink_fails := unlink_fails; chmod_fails := false |}.


(** A server that answers a redirect whose Location header is there and
    empty *)
Definition empty_location_world : World :=
  {| get := λ _, Response (redirect_to 302 "");
     createWriteStream := Opens; unlink_fails := false; chmod_fails := false |}.

(** A server that answers 301 without a Location header *)
Definition moved_world : World :=
  {| get := λ _, Response {| statusCode := Some 301; statusMessage := "Moved Permanently";
                             location := None; contentLength := None; events := [] |};
     createWriteStream := Opens; unlink_fails := false; chmod_fails := false |}.

(** A subscriber on a disk where a binary is installed *)
Definition after_install : state :=
  {| file := Some "previous binary"; notifications := []; requests := []; log := [] |}.

End Download.

(* ===================================================================== *)
(** ** The download URL and the binary names (install.ts, constants) *)
(* ===================================================================== *)

Module Install.

(** constants/index.ts: [BINARY_NAME[platform]]; [None] is the
    [undefined] that any other key gives. *)
Definition BINARY_NAME (platform : string) : option string :=
  if String.eqb platform "windows" then Some "mcp-server.exe"
  else if String.eqb platform "macos" then Some "mcp-server"
  else if String.eqb platform "linux" then Some "mcp-server"
  else None.

(** [getDownloadUrl(platform, arch)]; [GITHUB_DOWNLOAD_URL] is fixed
    when the plugin is bundled. *)
Definition getDownloadUrl (GITHUB_DOWNLOAD_URL platform arch : string) : string :=
  if String.eqb platform "windows" then GITHUB_DOWNLOAD_URL +:+ "/mcp-server-windows.exe"
  else if String.eqb platform "macos" then GITHUB_DOWNLOAD_URL +:+ "/mcp-server-macos-" +:+ arch
  else GITHUB_DOWNLOAD_URL +:+ "/mcp-server-linux".

End Install.

(* ===================================================================== *)
(** ** The path of the host's config file (services/config.ts) *)
(* ===================================================================== *)

Module ConfigPath.
Import Settings.

(** constants/index.ts: [CLAUDE_CONFIG_PATH] *)
Definition CLAUDE_CONFIG_PATH_macos : string :=
  "~/Library/Application Support/Claude/claude_desktop_config.json".
Definition CLAUDE_CONFIG_PATH_windows : string :=
  "%APPDATA%\Claude\claude_desktop_config.json".
Definition CLAUDE_CONFIG_PATH_linux : string :=
  "~/.config/Claude/claude_desktop_config.json".

(** What the operating system answers: [os.platform()], [os.homedir()],
    [process.env[n]], and [path.join], which is the Windows flavour on
    Windows and the POSIX one elsewhere. *)
Record Host := {
  os_platform : string;
  os_homedir : string;
  process_env : string → option string;
  path_join : list string → string;
}.

Definition percent : ascii := "%"%char.

(** [s.replace(/%([^%]+)%/g, (_, n) => process.env[n] || "")], as a
    scan from the left.  [pending] is the text read since a "%" that can
    still open a match: a second "%" closes it when the text between is
    not empty, and starts over when it is; at the end of the string an
    open "%" and its text stay as they are. *)
Fixpoint replace_env (env : string → option string) (pending : option string)
    (s : string) : string :=
  match s with
  | EmptyString =>
      match pending with
      | Some name => String percent name
      | None => ""
      end
  | String c rest =>
      match pending with
      | None =>
          if Ascii.eqb c percent then replace_env env (Some "") rest
          else String c (replace_env env None rest)
      | Some name =>
          if Ascii.eqb c percent then
            if String.eqb name "" then String percent (replace_env env (Some "") rest)
            else or_else (env name) "" +:+ replace_env env None rest
          else replace_env env (Some (name +:+ String c "")) rest
      end
  end.

(** [s.startsWith("~")] and [s.slice(1)] *)
Definition startsWith_tilde (s : string) : bool :=
  match s with
  | String c _ => Ascii.eqb c "~"%char
  | EmptyString => false
  end.

Definition slice_1 (s : string) : string :=
  match s with
  | String _ rest => rest
  | EmptyString => ""
  end.

Definition getConfigPath (h : Host) : string :=
  let platform := os_platform h in
  let configPath :=
    if String.eqb platform "darwin" then CLAUDE_CONFIG_PATH_macos
    else if String.eqb platform "win32" then CLAUDE_CONFIG_PATH_windows
    else CLAUDE_CONFIG_PATH_linux in
  let configPath :=
    if startsWith_tilde configPath
    then path_join h [os_homedir h; slice_1 configPath]
    else configPath in
  if String.eqb platform "win32" then replace_env (process_env h) None configPath
  else configPath.

(** Examples: a macOS host, and Windows hosts by their APPDATA. *)
Definition mac_host : Host :=
  {| os_platform := "darwin"; os_homedir := "/Users/alice";
     process_env := λ _, None; path_join := PosixPath.join |}.

Definition windows_host (appdata : option string) : Host :=
  {| os_platform := "win32"; os_homedir := "C:\Users\alice";
     process_env := λ n, if String.eqb n "APPDATA" then appdata else None;
     path_join := λ _, "" |}.

End ConfigPath.

(* ===================================================================== *)
(** ** Removing the entry from the host's config (services/config.ts) *)
(* ===================================================================== *)

Module ConfigRemoval.
Import Settings Config.

(** [config.mcpServers && SERVER_ID in config.mcpServers], then
    [delete config.mcpServers[SERVER_ID]].  [None] is a TypeError:
    [null] has no properties to read, and [in] needs an object on its
    right.  [Some None]: the condition is false, nothing is written.
    [Some (Some doc)]: the text written parses to [doc].  A number, a
    string, a boolean and an array have no [mcpServers] property, and an
    array has no property of this name. *)
Definition delete_server_entry (config : json) : option (option json) :=
  match config with
  | JNull => None
  | JBool _ | JNum _ | JStr _ | JArr _ => Some None
  | JObj members =>
      match members !! "mcpServers" with
      | None => Some None
      | Some v =>
          if json_truthy v then
            match v with
            | JObj servers =>
                match servers !! SERVER_ID with
                | Some _ =>
                    Some (Some (JObj (<["mcpServers" := JObj (delete SERVER_ID servers)]>
                                      members)))
                | None => Some None
                end
            | JArr _ => Some None
            | JNull | JBool _ | JNum _ | JStr _ => None
            end
          else Some None
      end
  end.

(** The call resolves without writing, resolves having written a text
    that parses to [doc], or rejects with
    "Failed to remove from Claude config: ...". *)
Inductive removal :=
| NothingToRemove
| Removed (doc : json)
| RemovalFailed (message : string).

Definition removeFromClaudeConfig (fs : FileSystem) : removal :=
  match file fs with
  | Absent => NothingToRemove
  | Unreadable code => RemovalFailed code
  | Malformed => RemovalFailed "SyntaxError"
  | Document doc =>
      match delete_server_entry doc with
      | None => RemovalFailed "TypeError"
      | Some None => NothingToRemove
      | Some (Some doc') =>
          match writeFile_error fs with
          | Some message => RemovalFailed message
          | None => Removed (read_back doc')
          end
      end
  end.

(** The file system after a call that wrote [doc] *)
Definition after_write (fs : FileSystem) (doc : json) : FileSystem :=
  {| mkdir_error := mkdir_error fs; file := Document doc;
     writeFile_error := writeFile_error fs |}.

(** The document with numbers, with the entry of this plugin *)
Definition numbers_with_entry : json :=
  JObj {[ "zoom" := one_and_a_half;
          "limit" := overflowing;
          "offset" := negative_zero;
          "mcpServers" := JObj {[ "other" := JObj {[ "command" := JStr "node";
                                                     "timeout" := overflowing ]};
                                  SERVER_ID := older_entry ]} ]}.

(** The example document without the entry of this plugin *)
Definition other_document : json :=
  JObj {[ "theme" := JStr "dark";
          "mcpServers" := JObj {[ "other" := other_server ]} ]}.

End ConfigRemoval.

(* ===================================================================== *)
(** ** Node's [path.win32.isAbsolute] *)
(* ===================================================================== *)

Module Win32Path.

Definition isPathSeparator (code : ascii) : bool :=
  Ascii.eqb code "/"%char || Ascii.eqb code "\"%char.

Definition isWindowsDeviceRoot (code : ascii) : bool :=
  let n := nat_of_ascii code in
  ((65 <=? n) && (n <=? 90)) || ((97 <=? n) && (n <=? 122)).

(** A path that starts with a separator, or with a drive letter, a
    colon and a separator. *)
Definition isAbsolute (path : string) : bool :=
  match path with
  | EmptyString => false
  | String code rest =>
      isPathSeparator code
      || match rest with
         | String c1 (String c2 _) =>
             isWindowsDeviceRoot code && Ascii.eqb c1 ":"%char && isPathSeparator c2
         | _ => false
         end
  end.

End Win32Path.

(* ===================================================================== *)
(** ** [normalizeDuplicateSegments] on a Windows host *)
(* ===================================================================== *)

(** utils/normalizePath.ts where Node's [path] is [path.win32]:
    [path.sep] is the backslash, the only character the path is cut at,
    and [path.isAbsolute] also accepts a drive letter.  The scan of the
    segments is the one of [NormalizePath]. *)
Module NormalizePathWin32.

Definition sep : ascii := "\"%char.

(** [arr.join(path.sep)] *)
Fixpoint array_join (arr : list string) : string :=
  match arr with
  | [] => ""
  | [x] => x
  | x :: rest => x +:+ String sep (array_join rest)
  end.

Definition normalizeDuplicateSegments (filepath : string) : string :=
  let isAbs := Win32Path.isAbsolute filepath in
  let parts := filter (λ p, p ≠ "") (Text.split_on sep filepath) in
  let normalized := NormalizePath.normalize_segments parts in
  let result := array_join normalized in
  if isAbs then String sep result else result.

End NormalizePathWin32.

(* ===================================================================== *)
(** ** The install path (services/status.ts), on a POSIX host *)
(* ===================================================================== *)

Module InstallPath.
Import Settings PosixPath NormalizePath Platform Install Status.

(** What [fsp.realpath(p)] does: it resolves, or it rejects with the
    code ENOENT or with another code. *)
Inductive realpath_result :=
| RealPath (resolved : string)
| ENOENT
| OtherError (code : string).

(** One round of [for (const part of parts.slice(skipCount))]. *)
Definition resolve_part (realpath : string → realpath_result)
    (resolvedParts : list string) (part : string) : list string :=
  let partialPath := join (resolvedParts ++ [part]) in
  match realpath partialPath with
  | RealPath resolvedPath => split resolvedPath
  | ENOENT | OtherError _ => resolvedParts ++ [part]
  end.

(** The root segment: [resolvedParts] and [skipCount] before the loop.
    [parts] comes from a [split] and has a first element. *)
Definition root_parts (filepath : string) (parts : list string) : list string * nat :=
  let first := default "" (parts !! 0) in
  if Win32Path.isAbsolute filepath then
    if bool_decide (parts !! 1 = Some "") then ([first; ""], 2) else ([first], 1)
  else if isAbsolute filepath then (["/"], 1)
  else ([first], 1).

(** The [catch] branch for ENOENT, up to the [path.join] of the
    resolved parts. *)
Definition resolve_missing (realpath : string → realpath_result)
    (filepath : string) : string :=
  let parts := split (normalize filepath) in
  let '(resolvedParts, skipCount) := root_parts filepath parts in
  join (foldl (resolve_part realpath) resolvedParts (drop skipCount parts)).

Definition resolveSymlinks (realpath : string → realpath_result)
    (filepath : string) : promise string :=
  match realpath filepath with
  | RealPath resolved => Resolved resolved
  | ENOENT => Resolved (resolve_missing realpath filepath)
  | OtherError _ => Rejected ("Failed to resolve symlink: " +:+ filepath)
  end.

(** What the plugin object answers: [getFileSystemAdapter(plugin)] is
    an adapter, of which [getBasePath()] is used, or [{ error }]; the
    vault's [configDir]; the [id] of the manifest. *)
Record PluginHost := {
  adapter : string + string;
  configDir : string;
  manifest_id : string;
}.

(** [originalPath] *)
Definition originalPath (basePath : string) (host : PluginHost) : string :=
  join [basePath; configDir host; "plugins"; manifest_id host; "bin"].

(** [getInstallPath(plugin)].  A platform that is no key of
    [BINARY_NAME] gives [undefined], which [path.join] refuses with a
    TypeError. *)
Definition getInstallPath (os_platform : string) (realpath : string → realpath_result)
    (host : PluginHost) (plugin : Plugin) : promise (InstallPathInfo + string) :=
  match adapter host with
  | inr message => Resolved (inr message)
  | inl basePath =>
      let platform := getPlatform os_platform (Some plugin) in
      let originalPath := originalPath basePath host in
      match resolveSymlinks realpath originalPath with
      | Pending => Pending
      | Rejected reason => Rejected reason
      | Resolved realDirPath =>
          let normalizedDirPath := normalizeDuplicateSegments realDirPath in
          match BINARY_NAME platform with
          | None => Rejected "TypeError"
          | Some platformSpecificBinary =>
              Resolved (inl {|
                dir := normalizedDirPath;
                path := join [normalizedDirPath; platformSpecificBinary];
                name := platformSpecificBinary;
                symlinked := if bool_decide (originalPath = normalizedDirPath)
                             then None else Some originalPath |})
          end
      end
  end.

(** The earlier status.ts: [resolveSymlinks] removes the duplicate
    segments itself, [getInstallPath] asks [getPlatform()] without the
    plugin. *)
Module V1.

Definition resolveSymlinks (realpath : string → realpath_result)
    (filepath : string) : promise string :=
  match realpath filepath with
  | RealPath resolved => Resolved (removeDuplicatePathSegments resolved)
  | ENOENT => Resolved (removeDuplicatePathSegments (resolve_missing realpath filepath))
  | OtherError _ => Rejected ("Failed to resolve symlink: " +:+ filepath)
  end.

Definition getInstallPath (os_platform : string) (realpath : string → realpath_result)
    (host : PluginHost) : promise (InstallPathInfo + string) :=
  match adapter host with
  | inr message => Resolved (inr message)
  | inl basePath =>
      let platform := getPlatform os_platform None in
      let originalPath := originalPath basePath host in
      match resolveSymlinks realpath originalPath with
      | Pending => Pending
      | Rejected reason => Rejected reason
      | Resolved realDirPath =>
          match BINARY_NAME platform with
          | None => Rejected "TypeError"
          | Some platformSpecificBinary =>
              Resolved (inl {|
                dir := realDirPath;
                path := join [realDirPath; platformSpecificBinary];
                name := platformSpecificBinary;
                symlinked := if bool_decide (originalPath = realDirPath)
                             then None else Some originalPath |})
          end
      end
  end.

End V1.

(** Examples: a vault of Alice, a file system where the plugin's [bin]
    directory is there, and one where nothing below the root is known
    to [realpath] from the process's working directory. *)
Definition alice_host : PluginHost :=
  {| adapter := inl "/home/alice/vault"; configDir := ".obsidian";
     manifest_id := "mcp-tools" |}.

Definition alice_bin : string := "/home/alice/vault/.obsidian/plugins/mcp-tools/bin".

Definition installed_disk (p : string) : realpath_result :=
  if String.eqb p alice_bin then RealPath alice_bin else ENOENT.

Definition empty_disk (p : string) : realpath_result := ENOENT.

(** The world of the status query in which the install path is the one
    [getInstallPath] answers *)
Definition status_world (manifest_version : string) (apiKey : option string)
    (os_platform : string) (realpath : string → realpath_result)
    (host : PluginHost) (plugin : Plugin)
    (access_X_OK : string → bool) (run : string → process) : World :=
  {| Status.manifest_version := manifest_version;
     Status.getLocalRestApiKey := apiKey;
     Status.getInstallPath := getInstallPath os_platform realpath host plugin;
     Status.access_X_OK := access_X_OK;
     Status.run := run |}.

(** A plugin whose settings name a platform that is none of the three *)
Definition wsl2_plugin : Plugin :=
  {| settings := Some
       {| version := None; customPlatform := Some "wsl"; customArch := None;
          customBinaryPath := None; customCommand := None; customEnvVars := None;
          customHost := None |} |}.

End InstallPath.

(* ===================================================================== *)
(** ** Vocabulary for lists of segments *)
(* ===================================================================== *)

Module Segments.

(** No segment is followed by itself. *)
Definition no_adjacent_repeat (l : list string) : Prop :=
  ∀ i x, l !! i = Some x → l !! S i ≠ Some x.

(** The segments of a path: its non-empty parts. *)
Definition segments_of (p : string) : list string :=
  filter (λ x, x ≠ "") (PosixPath.split p).

End Segments.

(* ===================================================================== *)
(** ** Vocabulary for the outcomes of a download *)
(* ===================================================================== *)

Module DownloadOutcome.
Import Settings Text Download.

(** The replies that end a download before the file stream is created,
    with the error each surfaces: a request that fails, a status of 400
    or more, a redirect without a location, a status that is not 200,
    a content length that is no number. *)
Definition refusal (rp : reply) : option download_error :=
  match rp with
  | Refused message => Some (NetworkError message)
  | Response r =>
      let code := default 0 (statusCode r) in
      if 400 <=? code then Some (HttpError code (statusMessage r))
      else if (code =? 302) || (code =? 301) then
        if truthy (location r) then None else Some (RedirectWithoutLocation code)
      else if negb (code =? 200) then Some (UnexpectedStatus code)
      else match content_total r with
           | None => Some InvalidContentLength
           | Some _ => None
           end
  end.

(** [error] and [complete] end a subscription. *)
Definition terminal (n : notification) : bool :=
  match n with
  | Next _ => false
  | Error _ | Complete => true
  end.

(** A terminal notification is the last one. *)
Definition terminal_last (ns : list notification) : Prop :=
  ∀ i n, ns !! i = Some n → terminal n = true → S i = length ns.

(** The subscriber's notifications only grow, and a terminal one stays
    the last: every step of a download keeps this. *)
Definition keeps_protocol (st st' : state) : Prop :=
  notifications st `prefix_of` notifications st'
  ∧ (terminal_last (notifications st) → terminal_last (notifications st')).

(** A server that answers 404, and a subscriber on a disk where a
    binary is installed. *)
Definition not_found_world : World :=
  {| get := λ _, Response {| statusCode := Some 404; statusMessage := "Not Found";
                             location := None; contentLength := None; events := [] |};
     createWriteStream := Opens; unlink_fails := false; chmod_fails := false |}.

Definition installed : state :=
  {| file := Some "previous binary"; notifications := []; requests := []; log := [] |}.

(** A server that sends a binary of two bytes and names a content
    length *)
Definition sized_world (contentLength : string) : World :=
  {| get := λ _, Response {| statusCode := Some 200; statusMessage := "OK";
                             location := None; contentLength := Some contentLength;
                             events := [Data (Buffer "MZ"); Finish] |};
     createWriteStream := Opens; unlink_fails := false; chmod_fails := false |}.

(** A server that sends a binary in two buffers *)
Definition serving_world : World :=
  {| get := λ _, Response {| statusCode := Some 200; statusMessage := "OK";
                             location := None; contentLength := Some "4";
                             events := [Data (Buffer "MZ"); Data (Buffer "ok"); Finish] |};
     createWriteStream := Opens; unlink_fails := false; chmod_fails := false |}.

End DownloadOutcome.

(* ===================================================================== *)
(** ** The installation (services/install.ts) *)
(* ===================================================================== *)

Module Installer.
Import Settings Platform Install Status InstallPath DownloadOutcome.

(** The directories as [ensureDirectory] sees them: [fs.existsSync],
    the error of [fsp.mkdir(p, { recursive: true })] if it fails, and
    whether [fsp.access(p, W_OK)] succeeds after that. *)
Record Directories := {
  existsSync : string → bool;
  mkdir_fails : string → option string;
  access_W_OK : string → bool;
}.

(** [ensureDirectory(dirpath)]: [None] when it resolves, otherwise the
    message of the error that it logs and throws again. *)
Definition ensureDirectory (d : Directories) (dirpath : string) : option string :=
  match (if existsSync d dirpath then None else mkdir_fails d dirpath) with
  | Some message => Some message
  | None =>
      if access_W_OK d dirpath then None
      else Some ("Directory exists but is not writable: " +:+ dirpath)
  end.

(** What the user is shown: the notices, and what happens to the
    progress notice. *)
Inductive notice :=
| Downloading                            (* new Notice("Downloading MCP server...", 0) *)
| Progress (p : Download.DownloadProgress)   (* progressNotice.setMessage(...) *)
| Hidden                                 (* progressNotice.hide() *)
| DownloadFailed (e : Download.download_error)  (* "Failed to download MCP server: ..." *)
| Downloaded                             (* "MCP server downloaded successfully!" *)
| InstallFailed (message : string).      (* "Failed to install MCP server: ..." *)

(** The error the promise is rejected with: one thrown before the
    download, by its message, or the error of the download. *)
Inductive install_error :=
| CannotInstall (message : string)
| CannotDownload (e : Download.download_error).

Inductive settled :=
| Fulfilled (installPath : InstallPathInfo)
| Broken (e : install_error)
| Unsettled.

(** The [next], [error] and [complete] handlers of the subscription *)
Definition told (n : Download.notification) : list notice :=
  match n with
  | Download.Next p => [Progress p]
  | Download.Error e => [Hidden; DownloadFailed e]
  | Download.Complete => [Hidden; Downloaded]
  end.

(** [new Promise((resolve, reject) => ...)]: the first [error] rejects
    it, the first [complete] resolves it with the install path. *)
Fixpoint settle (installPath : InstallPathInfo) (ns : list Download.notification)
    : settled :=
  match ns with
  | [] => Unsettled
  | Download.Next _ :: rest => settle installPath rest
  | Download.Error e :: _ => Broken (CannotDownload e)
  | Download.Complete :: _ => Fulfilled installPath
  end.

(** The machine: the operating system, the bundled download URL, the
    file system as [realpath] and [ensureDirectory] see it, the plugin
    object, the network, and the file at each path before the call. *)
Record Machine := {
  os_platform : string;
  os_arch : string;
  GITHUB_DOWNLOAD_URL : string;
  realpath : string → realpath_result;
  plugin_host : PluginHost;
  directories : Directories;
  network : Download.World;
  file_at : string → option string;
}.

(** What a call leaves: how the promise ends, the notices in order, and
    the state of the download if one was started. *)
Record installation := {
  promise_of : settled;
  notices : list notice;
  download : option Download.state;
}.

(** [installMcpServer(plugin)].  The [catch] block shows its notice for
    what is thrown before the promise of the download is returned; a
    rejection of that promise does not pass through it.  A download
    always returns ([downloadFile_total]). *)
Definition installMcpServer (m : Machine) (plugin : Plugin) : installation :=
  let platform := getPlatform (os_platform m) (Some plugin) in
  let arch := getArch (os_arch m) (Some plugin) in
  let downloadUrl := getDownloadUrl (GITHUB_DOWNLOAD_URL m) platform arch in
  let failed message :=
    {| promise_of := Broken (CannotInstall message);
       notices := [InstallFailed message]; download := None |} in
  match getInstallPath (os_platform m) (realpath m) (plugin_host m) plugin with
  | Pending => {| promise_of := Unsettled; notices := []; download := None |}
  | Rejected reason => failed reason
  | Resolved (inr message) => failed message
  | Resolved (inl installPath) =>
      match ensureDirectory (directories m) (dir installPath) with
      | Some message => failed message
      | None =>
          let subscriber :=
            {| Download.file := file_at m (path installPath);
               Download.notifications := []; Download.requests := [];
               Download.log := [] |} in
          match Download.downloadFile (network m) downloadUrl 0 subscriber with
          | Some st =>
              {| promise_of := settle installPath (Download.notifications st);
                 notices := Downloading :: (Download.notifications st ≫= told);
                 download := Some st |}
          | None =>
              {| promise_of := Unsettled; notices := [Downloading]; download := None |}
          end
      end
  end.

(** Examples: Alice's machine, with the plugin's [bin] directory there
    and writable, and a server that sends the binary. *)
Definition alice_machine (network : Download.World) : Machine :=
  {| os_platform := "linux"; os_arch := "x64";
     GITHUB_DOWNLOAD_URL := "https://host/releases/download/0.2.27";
     realpath := installed_disk; plugin_host := alice_host;
     directories := {| existsSync := λ _, true; mkdir_fails := λ _, None;
                       access_W_OK := λ _, true |};
     network := network;
     file_at := λ _, None |}.

Definition alice_info : InstallPathInfo :=
  {| dir := "/home/alice/vault/.obsidian/plugins/mcp-tools/bin";
     path := "/home/alice/vault/.obsidian/plugins/mcp-tools/bin/mcp-server";
     name := "mcp-server"; symlinked := None |}.

End Installer.

(* ===================================================================== *)
(** ** Directory arguments of the server (utils/normalizePath.ts) *)
(* ===================================================================== *)

Module ServerPaths.

(** [normalizeDirectory(directory)]: [undefined] stays [undefined];
    otherwise [directory.replace(/\/+$/, "")], which removes the run of
    slashes at the end of the string, if there is one. *)
Definition normalizeDirectory (directory : option string) : option string :=
  Text.drop_end (λ c, Ascii.eqb c "/"%char) <$> directory.

(** [n] slashes *)
Fixpoint slashes (n : nat) : string :=
  match n with
  | 0 => ""
  | S n' => String "/"%char (slashes n')
  end.

End ServerPaths.

(* ===================================================================== *)
(** * Properties *)
(* ===================================================================== *)

(** ** Duplicate path segment removal *)

Section NormalizePathFacts.
Import PosixPath NormalizePath.

Lemma same_segments_spec (a b : list string) :
  same_segments a b = true ↔ a = b.
Proof.
  unfold same_segments. rewrite andb_true_iff, Nat.eqb_eq.
  revert b. induction a as [|x a IH]; intros [|y b]; simpl; try (split; [intros [? ?]|]; done).
  rewrite andb_true_iff, String.eqb_eq. split.
  - intros (Hlen & -> & Hall). f_equal. apply IH. split; [lia | done].
  - intros [= -> ->]. split; [done|]. split; [done|]. by apply IH.
Qed.

Lemma slice_app_r {A} (pre l : list A) (a b : nat) :
  slice (pre ++ l) (length pre + a) (length pre + b) = slice l a b.
Proof.
  unfold slice. rewrite drop_app_add. f_equal. 
  replace (length pre + b - (length pre + a)) with (b - a) by lia. done.
Qed.


(** **** The inner loop finds the shortest repeated block *)

Lemma find_pattern_Some fuel parts i pl len :
  find_pattern fuel parts i pl = Some len →
  pl ≤ len ∧ repeats_at parts i len = true
  ∧ ∀ k, pl ≤ k < len → repeats_at parts i k = false.
Proof.
  revert pl. induction fuel as [|fuel IH]; intros pl; cbn [find_pattern]; [done|].
  destruct (2 * pl <=? length parts - i)%nat eqn:Hle; [|done].
  destruct (same_segments _ _) eqn:Hsame.
  - intros [= <-]. split; [lia|]. split; [|intros; lia].
    unfold repeats_at. apply same_segments_spec in Hsame.
    rewrite Hle. simpl. by apply bool_decide_eq_true.
  - intros H. apply IH in H as (Hpl & Hrep & Hmin).
    split; [lia|]. split; [done|]. intros k Hk.
    destruct (decide (k = pl)) as [->|]; [|apply Hmin; lia].
    unfold repeats_at. rewrite Hle. simpl. apply bool_decide_eq_false.
    intros Heq. apply same_segments_spec in Heq. congruence.
Qed.

Lemma find_pattern_None fuel parts i pl :
  length parts - i < 2 * (pl + fuel) →
  find_pattern fuel parts i pl = None →
  ∀ k, pl ≤ k → repeats_at parts i k = false.
Proof.
  revert pl. induction fuel as [|fuel IH]; intros pl Hfuel; cbn [find_pattern].
  - intros _ k Hk. unfold repeats_at.
    destruct (2 * k <=? length parts - i)%nat eqn:Hle; [|done].
    apply Nat.leb_le in Hle. lia.
  - destruct (2 * pl <=? length parts - i)%nat eqn:Hle.
    + destruct (same_segments _ _) eqn:Hsame; [done|].
      intros H k Hk. destruct (decide (k = pl)) as [->|].
      * unfold repeats_at. rewrite Hle. simpl. apply bool_decide_eq_false.
        intros Heq. apply same_segments_spec in Heq. congruence.
      * apply (IH (S pl)); [lia|done|lia].
    + intros _ k Hk. unfold repeats_at.
      destruct (2 * k <=? length parts - i)%nat eqn:Hle'; [|done].
      apply Nat.leb_le in Hle'. apply Nat.leb_gt in Hle. lia.
Qed.

(** With the fuel the code's bound gives, the inner loop returns the
    least repeated block length, whatever the surplus. *)
Lemma find_pattern_least fuel parts i len :
  length parts - i < 2 * (1 + fuel) →
  0 < len → repeats_at parts i len = true →
  (∀ k, 1 ≤ k < len → repeats_at parts i k = false) →
  find_pattern fuel parts i 1 = Some len.
Proof.
  intros Hfuel Hlen Hrep Hmin.
  destruct (find_pattern fuel parts i 1) as [len'|] eqn:Hfind.
  - apply find_pattern_Some in Hfind as (H1 & Hrep' & Hmin').
    f_equal. destruct (Nat.lt_trichotomy len' len) as [Hlt|[->|Hgt]]; [|done|].
    + rewrite Hmin in Hrep'; [done|lia].
    + rewrite Hmin' in Hrep; [done|lia].
  - eapply find_pattern_None in Hfind; [|done|]; [rewrite Hfind in Hrep; done | lia].
Qed.

(** With the rounds the code's loop can take, [length parts], the inner
    loop is exact: it returns the least repeated block length at [i], or
    nothing when no block is repeated there. *)
Lemma find_pattern_exact parts i :
  match find_pattern (length parts) parts i 1 with
  | Some len => 1 ≤ len ∧ repeats_at parts i len = true
                ∧ ∀ k, 1 ≤ k < len → repeats_at parts i k = false
  | None => ∀ k, 1 ≤ k → repeats_at parts i k = false
  end.
Proof.
  destruct (find_pattern (length parts) parts i 1) as [len|] eqn:Hfind.
  - by apply find_pattern_Some in Hfind.
  - eapply find_pattern_None; [|done]. lia.
Qed.

Lemma find_pattern_absent fuel parts i :
  (∀ k, 1 ≤ k → repeats_at parts i k = false) →
  find_pattern fuel parts i 1 = None.
Proof.
  intros Hnone. destruct (find_pattern fuel parts i 1) as [len|] eqn:Hfind; [|done].
  apply find_pattern_Some in Hfind as (H1 & Hrep & _).
  rewrite Hnone in Hrep; done.
Qed.

Lemma repeats_at_app_r pre l i len :
  repeats_at (pre ++ l) (length pre + i) len = repeats_at l i len.
Proof.
  unfold repeats_at. rewrite length_app.
  replace (length pre + length l - (length pre + i)) with (length l - i) by lia.
  rewrite <-!Nat.add_assoc, !slice_app_r. done.
Qed.

Lemma find_pattern_app_r pre l i :
  find_pattern (length (pre ++ l)) (pre ++ l) (length pre + i) 1
  = find_pattern (length l) l i 1.
Proof.
  destruct (find_pattern (length l) l i 1) as [len|] eqn:Hfind.
  - apply find_pattern_Some in Hfind as (H1 & Hrep & Hmin).
    apply find_pattern_least; [rewrite length_app; lia|lia| |].
    + by rewrite repeats_at_app_r.
    + intros k Hk. rewrite repeats_at_app_r. by apply Hmin.
  - apply find_pattern_absent. intros k Hk. rewrite repeats_at_app_r.
    eapply find_pattern_None; [|done|done]. lia.
Qed.


(** **** The outer loop *)

Lemma find_pattern_pos fuel parts i len :
  find_pattern fuel parts i 1 = Some len → 0 < len ∧ i + len * 2 ≤ length parts.
Proof.
  intros H. apply find_pattern_Some in H as (H1 & Hrep & _).
  unfold repeats_at in Hrep. apply andb_true_iff in Hrep as [Hle _].
  apply Nat.leb_le in Hle. lia.
Qed.

(** Fuel beyond the number of remaining parts changes nothing: the loop
    ends because [i] reaches [parts.length]. *)
Lemma normalize_loop_fuel fuel fuel' parts i normalized :
  length parts - i ≤ fuel → length parts - i ≤ fuel' →
  normalize_loop fuel parts i normalized = normalize_loop fuel' parts i normalized.
Proof.
  revert fuel' i normalized.
  induction fuel as [|fuel IH]; intros [|fuel'] i normalized Hf Hf'; cbn [normalize_loop];
    try done.
  - destruct (i <? length parts) eqn:Hlt; [|done]. apply Nat.ltb_lt in Hlt. lia.
  - destruct (i <? length parts) eqn:Hlt; [|done]. apply Nat.ltb_lt in Hlt. lia.
  - destruct (i <? length parts) eqn:Hlt; [|done]. apply Nat.ltb_lt in Hlt.
    destruct (find_pattern _ _ _ _) as [len|] eqn:Hfind.
    + apply find_pattern_pos in Hfind as [? ?]. apply IH; lia.
    + apply IH; lia.
Qed.

Lemma normalize_loop_acc fuel parts i normalized :
  normalize_loop fuel parts i normalized
  = normalized ++ normalize_loop fuel parts i [].
Proof.
  revert i normalized. induction fuel as [|fuel IH]; intros i normalized;
    cbn [normalize_loop]; [by rewrite app_nil_r|].
  destruct (i <? length parts); [|by rewrite app_nil_r].
  destruct (find_pattern _ _ _ _); [apply IH|].
  rewrite IH, (IH _ ([] ++ _)), app_assoc. done.
Qed.

Lemma normalize_loop_app_r fuel pre l i normalized :
  normalize_loop fuel (pre ++ l) (length pre + i) normalized
  = normalize_loop fuel l i normalized.
Proof.
  revert i normalized. induction fuel as [|fuel IH]; intros i normalized;
    cbn [normalize_loop]; [done|].
  rewrite find_pattern_app_r, lookup_app_r, length_app by lia.
  replace (length pre + i - length pre) with i by lia.
  replace (length pre + i <? length pre + length l) with (i <? length l)
    by (destruct (Nat.ltb_spec i (length l)), (Nat.ltb_spec (length pre + i) (length pre + length l)); lia || done).
  destruct (i <? length l); [|done].
  destruct (find_pattern _ _ _ _); rewrite <-Nat.add_assoc; apply IH.
Qed.

Lemma normalize_segments_nil : normalize_segments [] = [].
Proof. done. Qed.

Lemma normalize_segments_keep x l :
  find_pattern (length (x :: l)) (x :: l) 0 1 = None →
  normalize_segments (x :: l) = x :: normalize_segments l.
Proof.
  intros Hfind. unfold normalize_segments. cbn [length normalize_loop].
  change (0 <? S (length l)) with true. cbn [length] in Hfind. rewrite Hfind.
  rewrite normalize_loop_acc. cbn [lookup list_lookup default app Nat.add].
  f_equal. apply (normalize_loop_app_r _ [x] l 0 []).
Qed.

Lemma normalize_segments_skip parts len :
  find_pattern (length parts) parts 0 1 = Some len →
  normalize_segments parts = normalize_segments (drop len parts).
Proof.
  intros Hfind. pose proof Hfind as Hpos.
  apply find_pattern_pos in Hpos as [Hlen Hbound].
  unfold normalize_segments.
  destruct (length parts) as [|n] eqn:Hn; [lia|].
  cbn [normalize_loop]. rewrite Hn. change (0 <? S n) with true.
  rewrite Hfind.
  rewrite <-(take_drop len parts) at 1.
  replace (0 + len) with (length (take len parts) + 0)
    by (rewrite length_take; lia).
  rewrite normalize_loop_app_r.
  apply normalize_loop_fuel; rewrite length_drop; lia.
Qed.


(** **** Repeated blocks and segments that occur once *)

Lemma slice_lookup {A} (l : list A) a b j :
  j < b - a → slice l a b !! j = l !! (a + j).
Proof. intros Hj. unfold slice. by rewrite lookup_take_lt, lookup_drop. Qed.

Lemma repeats_at_lookup parts i len j :
  repeats_at parts i len = true → j < len →
  parts !! (i + j) = parts !! (i + len + j).
Proof.
  unfold repeats_at. rewrite andb_true_iff, bool_decide_eq_true.
  intros [_ Heq] Hj.
  rewrite <-(slice_lookup parts i (i + len)), <-(slice_lookup parts (i + len) (i + len * 2))
    by lia.
  by rewrite Heq.
Qed.

Lemma repeats_at_bound parts i len :
  repeats_at parts i len = true → 2 * len ≤ length parts - i.
Proof.
  unfold repeats_at. rewrite andb_true_iff, Nat.leb_le. by intros [? _].
Qed.

(** A segment that does not occur again cannot start a repeated block. *)
Lemma find_pattern_fresh_head fuel x l :
  x ∉ l → find_pattern fuel (x :: l) 0 1 = None.
Proof.
  intros Hx. apply find_pattern_absent. intros k Hk.
  destruct (repeats_at (x :: l) 0 k) eqn:Hrep; [|done].
  pose proof (repeats_at_bound _ _ _ Hrep) as Hb. cbn [length] in Hb.
  pose proof (repeats_at_lookup _ _ _ 0 Hrep ltac:(lia)) as Hl.
  destruct k as [|k]; [lia|]. cbn in Hl. rewrite Nat.add_0_r in Hl.
  destruct Hx. apply list_elem_of_lookup. by exists k.
Qed.

Lemma no_repeated_block_spec parts :
  no_repeated_block parts = true ↔
  ∀ i len, 0 < len → repeats_at parts i len = false.
Proof.
  unfold no_repeated_block. rewrite forallb_forall. split.
  - intros H i len Hlen. destruct (repeats_at parts i len) eqn:Hrep; [|done].
    pose proof (repeats_at_bound _ _ _ Hrep) as Hb.
    destruct len as [|len]; [lia|].
    specialize (H i). rewrite forallb_forall in H.
    assert (negb (repeats_at parts i (S len)) = true) as Hn.
    { apply H; apply in_seq; lia. }
    by rewrite Hrep in Hn.
  - intros H i _. apply forallb_forall. intros len _. rewrite H; [done|lia].
Qed.

Lemma no_repeated_block_tail x l :
  no_repeated_block (x :: l) = true → no_repeated_block l = true.
Proof.
  rewrite !no_repeated_block_spec. intros H i len Hlen.
  rewrite <-(repeats_at_app_r [x]). by apply H.
Qed.

(** Without a repeated block the segments come back as they are. *)
Lemma normalize_segments_fixed parts :
  no_repeated_block parts = true → normalize_segments parts = parts.
Proof.
  induction parts as [|x l IH]; intros Hno; [done|].
  rewrite normalize_segments_keep.
  - f_equal. apply IH. by eapply no_repeated_block_tail.
  - apply find_pattern_absent. intros k Hk.
    rewrite no_repeated_block_spec in Hno. apply Hno. lia.
Qed.

(** Segments that occur once are kept, and the scan goes on behind
    them. *)
Lemma normalize_segments_fresh_prefix q t :
  NoDup q → (∀ x, x ∈ q → x ∉ t) →
  normalize_segments (q ++ t) = q ++ normalize_segments t.
Proof.
  induction q as [|x q IH]; intros Hnd Hdisj; [done|].
  apply NoDup_cons in Hnd as [Hx Hnd]. cbn [app].
  rewrite normalize_segments_keep.
  - f_equal. apply IH; [done|]. intros y Hy. apply Hdisj. by right.
  - apply find_pattern_fresh_head. rewrite elem_of_app. intros [?|Ht]; [done|].
    by apply (Hdisj x); [left|].
Qed.

(** A block of distinct segments that is repeated is skipped once. *)
Lemma normalize_segments_skip_block B s :
  B ≠ [] → NoDup B →
  normalize_segments (B ++ B ++ s) = normalize_segments (B ++ s).
Proof.
  intros Hne Hnd.
  assert (0 < length B) as Hlen by (destruct B; [done|cbn; lia]).
  rewrite (normalize_segments_skip _ (length B)).
  { by rewrite drop_app_length. }
  apply find_pattern_least.
  - lia.
  - done.
  - unfold repeats_at. rewrite andb_true_iff, Nat.leb_le, bool_decide_eq_true.
    rewrite !length_app. split; [lia|].
    unfold slice. rewrite drop_0, Nat.add_0_l, Nat.sub_0_r.
    rewrite take_app_length, drop_app_length.
    replace (0 + length B * 2 - length B) with (length B) by lia.
    by rewrite take_app_length.
  - intros k Hk. destruct (repeats_at (B ++ B ++ s) 0 k) eqn:Hrep; [|done].
    pose proof (repeats_at_lookup _ _ _ 0 Hrep ltac:(lia)) as Hl.
    rewrite !Nat.add_0_r, !Nat.add_0_l in Hl.
    rewrite !lookup_app_l in Hl by lia.
    destruct (lookup_lt_is_Some_2 B 0 ltac:(lia)) as [x Hx].
    rewrite Hx in Hl. symmetry in Hl.
    pose proof (NoDup_lookup _ _ _ _ Hnd Hx Hl). lia.
Qed.

(** **** A prefix that no repeated block leaves *)

Lemma slice_app_l {A} (p rest : list A) (a b : nat) :
  b ≤ length p → slice (p ++ rest) a b = slice p a b.
Proof.
  intros Hb. unfold slice.
  destruct (decide (a ≤ length p)) as [Ha|Ha].
  - rewrite drop_app_le by done. rewrite take_app_le; [done|]. rewrite length_drop. lia.
  - by replace (b - a) with 0 by lia.
Qed.

Lemma repeats_at_app_l p rest i len :
  i + len * 2 ≤ length p → repeats_at (p ++ rest) i len = repeats_at p i len.
Proof.
  intros Hb. unfold repeats_at. rewrite !slice_app_l by lia. rewrite length_app.
  f_equal.
  destruct (Nat.leb_spec (2 * len) (length p + length rest - i)),
           (Nat.leb_spec (2 * len) (length p - i)); (done || lia).
Qed.

(** When every repeated block that starts in [p] ends in [p], the inner
    loop on [p ++ rest] at a position of [p] is the one on [p]. *)
Lemma find_pattern_app_l p rest i :
  (∀ k len, k < length p → 1 ≤ len → repeats_at (p ++ rest) k len = true →
            k + len * 2 ≤ length p) →
  i < length p →
  find_pattern (length (p ++ rest)) (p ++ rest) i 1 = find_pattern (length p) p i 1.
Proof.
  intros Hin Hi.
  assert (∀ len, 1 ≤ len → repeats_at (p ++ rest) i len = repeats_at p i len) as Hsame.
  { intros len Hlen. destruct (decide (i + len * 2 ≤ length p)) as [Hb|Hb].
    - by apply repeats_at_app_l.
    - destruct (repeats_at (p ++ rest) i len) eqn:Hrep.
      + specialize (Hin i len Hi Hlen Hrep). lia.
      + symmetry. unfold repeats_at. apply andb_false_iff. left. apply Nat.leb_gt. lia. }
  pose proof (find_pattern_exact p i) as Hexact.
  destruct (find_pattern (length p) p i 1) as [len|].
  - destruct Hexact as (Hlen & Hrep & Hmin).
    apply find_pattern_least; [rewrite length_app; lia|lia| |].
    + by rewrite Hsame.
    + intros k Hk. rewrite Hsame by lia. by apply Hmin.
  - apply find_pattern_absent. intros k Hk. rewrite Hsame by done. by apply Hexact.
Qed.

(** One round of the outer loop, with rounds to spare. *)
Lemma normalize_loop_step fuel parts i normalized :
  i < length parts → length parts - i ≤ fuel →
  normalize_loop fuel parts i normalized
  = match find_pattern (length parts) parts i 1 with
    | Some len => normalize_loop fuel parts (i + len) normalized
    | None => normalize_loop fuel parts (i + 1) (normalized ++ [default "" (parts !! i)])
    end.
Proof.
  intros Hi Hfuel.
  rewrite (normalize_loop_fuel fuel (S fuel) parts i normalized) by lia.
  cbn [normalize_loop].
  replace (i <? length parts) with true by (symmetry; apply Nat.ltb_lt; lia).
  done.
Qed.

Lemma normalize_loop_prefix p rest :
  (∀ k len, k < length p → 1 ≤ len → repeats_at (p ++ rest) k len = true →
            k + len * 2 ≤ length p) →
  ∀ d i normalized, d = length p - i → i ≤ length p →
    normalize_loop (length (p ++ rest)) (p ++ rest) i normalized
    = normalize_loop (length p) p i normalized ++ normalize_segments rest.
Proof.
  intros Hin d. induction d as [d IH] using lt_wf_ind. intros i normalized Hd Hi.
  destruct (decide (i = length p)) as [->|Hlt].
  - pose proof (normalize_loop_app_r (length (p ++ rest)) p rest 0 normalized) as Happ.
    rewrite Nat.add_0_r in Happ. rewrite Happ, normalize_loop_acc. f_equal.
    + destruct (length p) eqn:Hn; cbn [normalize_loop]; [done|].
      by rewrite <-Hn, Nat.ltb_irrefl.
    + apply normalize_loop_fuel; rewrite ?length_app; lia.
  - rewrite (normalize_loop_step _ (p ++ rest)) by (rewrite ?length_app; lia).
    rewrite (normalize_loop_step _ p) by lia.
    rewrite find_pattern_app_l, lookup_app_l by (done || lia).
    pose proof (find_pattern_exact p i) as Hexact.
    destruct (find_pattern (length p) p i 1) as [len|].
    + destruct Hexact as (Hlen & Hrep & _). apply repeats_at_bound in Hrep.
      apply (IH (length p - (i + len))); lia.
    + apply (IH (length p - (i + 1))); lia.
Qed.

Lemma normalize_segments_app p rest :
  (∀ k len, k < length p → 1 ≤ len → repeats_at (p ++ rest) k len = true →
            k + len * 2 ≤ length p) →
  normalize_segments (p ++ rest) = normalize_segments p ++ normalize_segments rest.
Proof.
  intros Hin. unfold normalize_segments at 1 2.
  apply (normalize_loop_prefix p rest Hin (length p) 0 []); lia.
Qed.

(** A repeated block that starts in [p] ends in [p] when what follows
    [p] starts with a segment [b] that is not in [p] and that, where it
    comes again, is preceded by segments that are not in [p] either. *)
Lemma repeats_stay_in_prefix p rest b :
  rest !! 0 = Some b → b ∉ p →
  (∀ len, 1 ≤ len → rest !! len = Some b →
          ∀ o x, 0 < o < len → rest !! o = Some x → x ∉ p) →
  ∀ k len, k < length p → 1 ≤ len → repeats_at (p ++ rest) k len = true →
           k + len * 2 ≤ length p.
Proof.
  intros Hb Hfresh Hagain k len Hk Hlen Hrep.
  destruct (decide (k + len * 2 ≤ length p)) as [|Hout]; [done|]. exfalso.
  pose proof (repeats_at_bound _ _ _ Hrep) as Hbound. rewrite length_app in Hbound.
  destruct (decide (k + len ≤ length p)) as [Hsecond|Hfirst].
  - assert (length p - (k + len) < len) as Hj by lia.
    pose proof (repeats_at_lookup (p ++ rest) k len _ Hrep Hj) as Hl.
    replace (k + len + (length p - (k + len))) with (length p + 0) in Hl by lia.
    rewrite (lookup_app_r p rest (length p + 0)), Nat.add_0_r, Nat.sub_diag, Hb in Hl by lia.
    rewrite lookup_app_l in Hl by lia.
    apply Hfresh. by eapply list_elem_of_lookup_2.
  - assert (length p - k < len) as Hj by lia.
    pose proof (repeats_at_lookup (p ++ rest) k len _ Hrep Hj) as Hl.
    replace (k + (length p - k)) with (length p + 0) in Hl by lia.
    replace (k + len + (length p - k)) with (length p + len) in Hl by lia.
    rewrite (lookup_app_r p rest (length p + 0)) in Hl by lia.
    rewrite (lookup_app_r p rest (length p + len)) in Hl by lia.
    replace (length p + 0 - length p) with 0 in Hl by lia.
    replace (length p + len - length p) with len in Hl by lia.
    rewrite Hb in Hl. symmetry in Hl.
    pose proof (repeats_at_lookup (p ++ rest) k len 0 Hrep Hlen) as Hl0.
    rewrite !Nat.add_0_r in Hl0. rewrite (lookup_app_l p rest k) in Hl0 by lia.
    rewrite (lookup_app_r p rest (k + len)) in Hl0 by lia.
    destruct (lookup_lt_is_Some_2 p k Hk) as [x Hx]. rewrite Hx in Hl0. symmetry in Hl0.
    apply (Hagain len Hlen Hl (k + len - length p) x); [lia|done|].
    by eapply list_elem_of_lookup_2.
Qed.


(** The repeated-block property on segment lists: a block of distinct
    segments that occur nowhere else. *)
Lemma normalize_segments_block p B s :
  B ≠ [] → NoDup B → (∀ x, x ∈ B → (x ∉ p) ∧ (x ∉ s)) →
  normalize_segments (p ++ B ++ B ++ s)
  = normalize_segments p ++ B ++ normalize_segments s
  ∧ normalize_segments (p ++ B ++ s)
    = normalize_segments p ++ B ++ normalize_segments s.
Proof.
  intros Hne Hnd Hfresh.
  destruct B as [|b B'] eqn:HB; [done|]. rewrite <-HB in *.
  assert (B !! 0 = Some b) as Hb0 by (by rewrite HB).
  assert (b ∈ B) as HbB by (rewrite HB; left).
  assert (normalize_segments (B ++ s) = B ++ normalize_segments s) as Honce.
  { apply normalize_segments_fresh_prefix; [done|]. intros x Hx. by apply Hfresh. }
  split.
  - rewrite normalize_segments_app.
    { by rewrite normalize_segments_skip_block, Honce. }
    apply (repeats_stay_in_prefix p _ b).
    + by rewrite lookup_app_l by (rewrite HB; cbn; lia).
    + by apply Hfresh.
    + intros len Hlen Hl o x Ho Hx.
      assert (len = length B) as ->.
      { destruct (decide (len < length B)) as [Hlt|Hge].
        - rewrite lookup_app_l in Hl by done.
          pose proof (NoDup_lookup _ _ _ _ Hnd Hb0 Hl). lia.
        - rewrite lookup_app_r in Hl by lia.
          destruct (decide (len - length B < length B)) as [Hlt|Hge'].
          + rewrite lookup_app_l in Hl by done.
            pose proof (NoDup_lookup _ _ _ _ Hnd Hb0 Hl). lia.
          + rewrite lookup_app_r in Hl by lia.
            destruct (proj2 (Hfresh b HbB)). by eapply list_elem_of_lookup_2. }
      rewrite lookup_app_l in Hx by lia.
      apply Hfresh. by eapply list_elem_of_lookup_2.
  - rewrite normalize_segments_app; [by rewrite Honce|].
    apply (repeats_stay_in_prefix p _ b).
    + by rewrite lookup_app_l by (rewrite HB; cbn; lia).
    + by apply Hfresh.
    + intros len Hlen Hl. exfalso.
      destruct (decide (len < length B)) as [Hlt|Hge].
      * rewrite lookup_app_l in Hl by done.
        pose proof (NoDup_lookup _ _ _ _ Hnd Hb0 Hl). lia.
      * rewrite lookup_app_r in Hl by lia.
        destruct (proj2 (Hfresh b HbB)). by eapply list_elem_of_lookup_2.
Qed.


(** **** From segments to path strings and back *)

Lemma split_no_sep x : has_sep x = false → split x = [x].
Proof.
  induction x as [|c x IH]; cbn [has_sep split]; [done|].
  intros [Hc Hx]%orb_false_iff. rewrite Hc, IH; done.
Qed.

Lemma split_app_sep x t :
  has_sep x = false → split (x +:+ String sep t) = x :: split t.
Proof.
  induction x as [|c x IH].
  - intros _. done.
  - cbn [has_sep]. intros [Hc Hx]%orb_false_iff.
    change (String c x +:+ String sep t) with (String c (x +:+ String sep t)).
    cbn [split]. rewrite Hc, IH; done.
Qed.

Lemma is_segment_spec x :
  is_segment x = true ↔ x ≠ "" ∧ has_sep x = false.
Proof.
  unfold is_segment. rewrite andb_true_iff, !negb_true_iff, String.eqb_neq. done.
Qed.

Lemma split_array_join segs :
  segs ≠ [] → forallb is_segment segs = true →
  split (array_join segs) = segs.
Proof.
  induction segs as [|x [|y segs] IH]; [done| |]; intros _ Hok;
    cbn [forallb] in Hok; apply andb_true_iff in Hok as [Hx Hrest];
    apply is_segment_spec in Hx as [_ Hx].
  - by apply split_no_sep.
  - cbn [array_join]. rewrite split_app_sep by done. f_equal. by apply IH.
Qed.

Lemma filter_nonempty_segments segs :
  forallb is_segment segs = true → filter (λ p, p ≠ "") segs = segs.
Proof.
  induction segs as [|x segs IH]; [done|]. cbn [forallb].
  intros [Hx Hrest]%andb_true_iff. apply is_segment_spec in Hx as [Hx _].
  rewrite filter_cons_True by done. f_equal. by apply IH.
Qed.

Lemma split_render absolute segs :
  forallb is_segment segs = true →
  filter (λ p, p ≠ "") (split (render absolute segs)) = segs.
Proof.
  intros Hok.
  assert (filter (λ p, p ≠ "") (split (array_join segs)) = segs) as Hrel.
  { destruct segs as [|x segs]; [done|].
    rewrite split_array_join by done. by apply filter_nonempty_segments. }
  destruct absolute; [|done].
  unfold render. cbn [split]. rewrite Ascii.eqb_refl.
  rewrite filter_cons_False by (intros H; by apply H). done.
Qed.

Lemma isAbsolute_array_join c x segs :
  isAbsolute (array_join (String c x :: segs)) = Ascii.eqb c sep.
Proof. by destruct segs. Qed.

Lemma isAbsolute_render absolute segs :
  forallb is_segment segs = true → isAbsolute (render absolute segs) = absolute.
Proof.
  intros Hok. destruct absolute; [done|].
  unfold render. destruct segs as [|x segs]; [done|].
  cbn [forallb] in Hok. apply andb_true_iff in Hok as [Hx _].
  apply is_segment_spec in Hx as [Hne Hsep].
  destruct x as [|c x]; [done|]. rewrite isAbsolute_array_join.
  cbn [has_sep] in Hsep. by apply orb_false_iff in Hsep as [-> _].
Qed.

(** On a canonical path the function is its segment-level core. *)
Lemma normalizeDuplicateSegments_render absolute segs :
  forallb is_segment segs = true →
  normalizeDuplicateSegments (render absolute segs)
  = render absolute (normalize_segments segs).
Proof.
  intros Hok. unfold normalizeDuplicateSegments.
  rewrite isAbsolute_render, split_render by done. by destruct absolute.
Qed.


(** **** removeDuplicatePathSegments: the inner loop *)

Lemma find_duplicate_Some fuel normalized parts i start lookAhead len :
  find_duplicate fuel normalized parts i start lookAhead = Some len →
  start ≤ len ≤ lookAhead ∧ dup_at normalized parts i len = true
  ∧ ∀ k, start ≤ k < len → dup_at normalized parts i k = false.
Proof.
  revert start. induction fuel as [|fuel IH]; intros start; cbn [find_duplicate]; [done|].
  destruct (start <=? lookAhead) eqn:Hle; [|done]. apply Nat.leb_le in Hle.
  fold (dup_at normalized parts i start).
  destruct (dup_at normalized parts i start) eqn:Hdup.
  - intros [= <-]. split; [lia|]. split; [done|]. intros; lia.
  - intros H. apply IH in H as (Hs & Hd & Hmin). split; [lia|]. split; [done|].
    intros k Hk. destruct (decide (k = start)) as [->|]; [done|]. apply Hmin. lia.
Qed.

Lemma find_duplicate_None fuel normalized parts i start lookAhead :
  lookAhead < start + fuel →
  find_duplicate fuel normalized parts i start lookAhead = None →
  ∀ k, start ≤ k ≤ lookAhead → dup_at normalized parts i k = false.
Proof.
  revert start. induction fuel as [|fuel IH]; intros start Hfuel; cbn [find_duplicate].
  - intros _ k Hk. lia.
  - destruct (start <=? lookAhead) eqn:Hle.
    + fold (dup_at normalized parts i start).
      destruct (dup_at normalized parts i start) eqn:Hdup; [done|].
      intros H k Hk. destruct (decide (k = start)) as [->|]; [done|].
      apply (IH (S start)); [lia|done|lia].
    + apply Nat.leb_gt in Hle. intros _ k Hk. lia.
Qed.

Lemma find_duplicate_least fuel normalized parts i lookAhead len :
  lookAhead ≤ fuel →
  1 ≤ len ≤ lookAhead → dup_at normalized parts i len = true →
  (∀ k, 1 ≤ k < len → dup_at normalized parts i k = false) →
  find_duplicate fuel normalized parts i 1 lookAhead = Some len.
Proof.
  intros Hfuel Hlen Hdup Hmin.
  destruct (find_duplicate fuel normalized parts i 1 lookAhead) as [len'|] eqn:Hfind.
  - apply find_duplicate_Some in Hfind as (H1 & Hdup' & Hmin').
    f_equal. destruct (Nat.lt_trichotomy len' len) as [Hlt|[->|Hgt]]; [|done|].
    + rewrite Hmin in Hdup'; [done|lia].
    + rewrite Hmin' in Hdup; [done|lia].
  - eapply find_duplicate_None in Hfind; [rewrite Hfind in Hdup; done | lia | lia].
Qed.

Lemma find_duplicate_absent fuel normalized parts i lookAhead :
  (∀ k, 1 ≤ k ≤ lookAhead → dup_at normalized parts i k = false) →
  find_duplicate fuel normalized parts i 1 lookAhead = None.
Proof.
  intros Hnone.
  destruct (find_duplicate fuel normalized parts i 1 lookAhead) as [len|] eqn:Hfind; [|done].
  apply find_duplicate_Some in Hfind as (H1 & Hdup & _).
  rewrite Hnone in Hdup; [done|lia].
Qed.

(** The same for the older function: [length parts] rounds cover every
    candidate length up to [lookAhead]. *)
Lemma find_duplicate_exact normalized parts i :
  let lookAhead := min (length normalized) (length parts - i) in
  match find_duplicate (length parts) normalized parts i 1 lookAhead with
  | Some len => 1 ≤ len ≤ lookAhead ∧ dup_at normalized parts i len = true
                ∧ ∀ k, 1 ≤ k < len → dup_at normalized parts i k = false
  | None => ∀ k, 1 ≤ k ≤ lookAhead → dup_at normalized parts i k = false
  end.
Proof.
  cbv zeta. destruct (find_duplicate _ _ _ _ _ _) as [len|] eqn:Hfind.
  - by apply find_duplicate_Some in Hfind.
  - eapply find_duplicate_None; [|done]. lia.
Qed.

Lemma find_duplicate_pos fuel normalized parts i lookAhead len :
  find_duplicate fuel normalized parts i 1 lookAhead = Some len → 1 ≤ len ≤ lookAhead.
Proof. intros H. by apply find_duplicate_Some in H as (? & _). Qed.

(** The inner loop looks at the parts from [i] on only. *)
Lemma find_duplicate_app_r pre pre' l j normalized lookAhead :
  lookAhead ≤ length l →
  find_duplicate (length (pre ++ l)) normalized (pre ++ l) (length pre + j) 1 lookAhead
  = find_duplicate (length (pre' ++ l)) normalized (pre' ++ l) (length pre' + j) 1 lookAhead.
Proof.
  intros Hla.
  assert (∀ k, dup_at normalized (pre ++ l) (length pre + j) k
               = dup_at normalized (pre' ++ l) (length pre' + j) k) as Hdup.
  { intros k. unfold dup_at. by rewrite <-!Nat.add_assoc, !slice_app_r. }
  destruct (find_duplicate (length (pre' ++ l)) _ _ _ _ _) as [len|] eqn:Hfind.
  - apply find_duplicate_Some in Hfind as (H1 & Hd & Hmin).
    apply find_duplicate_least; [rewrite length_app; lia|lia| |].
    + by rewrite Hdup.
    + intros k Hk. rewrite Hdup. apply Hmin. lia.
  - apply find_duplicate_absent. intros k Hk. rewrite Hdup.
    eapply find_duplicate_None; [|done|done]. rewrite length_app. lia.
Qed.


(** **** removeDuplicatePathSegments: the outer loop *)

Lemma remove_loop_fuel fuel fuel' parts i normalized :
  length parts - i ≤ fuel → length parts - i ≤ fuel' →
  remove_loop fuel parts i normalized = remove_loop fuel' parts i normalized.
Proof.
  revert fuel' i normalized.
  induction fuel as [|fuel IH]; intros [|fuel'] i normalized Hf Hf'; cbn [remove_loop];
    try done.
  - destruct (i <? length parts) eqn:Hlt; [|done]. apply Nat.ltb_lt in Hlt. lia.
  - destruct (i <? length parts) eqn:Hlt; [|done]. apply Nat.ltb_lt in Hlt. lia.
  - destruct (i <? length parts) eqn:Hlt; [|done]. apply Nat.ltb_lt in Hlt.
    destruct (_ && negb (i =? 0)); [apply IH; lia|].
    destruct ((0 <? i) && _); [|apply IH; lia].
    destruct (find_duplicate _ _ _ _ _ _) as [len|] eqn:Hfind; [|apply IH; lia].
    apply find_duplicate_pos in Hfind. apply IH; lia.
Qed.

(** Behind the first part, the loop depends on the parts from [i] on
    and on the kept segments only. *)
Lemma remove_loop_app_r fuel pre pre' l j normalized :
  pre ≠ [] → pre' ≠ [] →
  remove_loop fuel (pre ++ l) (length pre + j) normalized
  = remove_loop fuel (pre' ++ l) (length pre' + j) normalized.
Proof.
  intros Hpre Hpre'.
  assert (0 < length pre ∧ 0 < length pre') as [Hl Hl'].
  { destruct pre, pre'; cbn; try done; lia. }
  revert j normalized. induction fuel as [|fuel IH]; intros j normalized;
    cbn [remove_loop]; [done|].
  rewrite !lookup_app_r, !length_app by lia.
  replace (length pre + j - length pre) with j by lia.
  replace (length pre' + j - length pre') with j by lia.
  replace (length pre + j <? length pre + length l) with (j <? length l)
    by (destruct (Nat.ltb_spec j (length l)), (Nat.ltb_spec (length pre + j) (length pre + length l)); lia || done).
  replace (length pre' + j <? length pre' + length l) with (j <? length l)
    by (destruct (Nat.ltb_spec j (length l)), (Nat.ltb_spec (length pre' + j) (length pre' + length l)); lia || done).
  destruct (j <? length l); [|done].
  replace (length pre + j =? 0) with false by (symmetry; apply Nat.eqb_neq; lia).
  replace (length pre' + j =? 0) with false by (symmetry; apply Nat.eqb_neq; lia).
  replace (0 <? length pre + j) with true by (symmetry; apply Nat.ltb_lt; lia).
  replace (0 <? length pre' + j) with true by (symmetry; apply Nat.ltb_lt; lia).
  replace (length pre + length l - (length pre + j)) with (length l - j) by lia.
  replace (length pre' + length l - (length pre' + j)) with (length l - j) by lia.
  destruct (_ && negb false); [rewrite <-!Nat.add_assoc; apply IH|].
  cbn [andb].
  destruct (negb _); [|rewrite <-!Nat.add_assoc; apply IH].
  rewrite <-!length_app, (find_duplicate_app_r pre pre') by lia.
  destruct (find_duplicate _ _ _ _ _ _); rewrite <-!Nat.add_assoc; apply IH.
Qed.

(** The first part is always kept. *)
Lemma remove_loop_first fuel x l :
  length l < fuel →
  remove_loop fuel (x :: l) 0 [] = remove_loop fuel (x :: l) 1 [x].
Proof.
  intros Hf. rewrite (remove_loop_fuel fuel (S fuel) _ 0) by (cbn [length]; lia).
  cbn [remove_loop]. change (0 <? length (x :: l)) with true.
  cbn [Nat.eqb negb andb Nat.ltb Nat.leb]. by rewrite andb_false_r.
Qed.

(** A non-empty part behind the first that repeats nothing is kept. *)
Lemma remove_loop_push fuel parts i x normalized :
  length parts - i ≤ fuel → 0 < i → parts !! i = Some x → x ≠ "" →
  (∀ k, 1 ≤ k ≤ min (length normalized) (length parts - i) →
        dup_at normalized parts i k = false) →
  remove_loop fuel parts i normalized = remove_loop fuel parts (i + 1) (normalized ++ [x]).
Proof.
  intros Hf Hi Hx Hne Hnodup.
  pose proof (lookup_lt_Some _ _ _ Hx) as Hlt.
  rewrite (remove_loop_fuel fuel (S fuel) parts i normalized) by lia.
  cbn [remove_loop].
  replace (i <? length parts) with true by (symmetry; apply Nat.ltb_lt; lia).
  rewrite Hx. unfold default, from_option, id.
  replace (String.eqb x "") with false by (symmetry; by apply String.eqb_neq).
  replace (0 <? i) with true by (symmetry; apply Nat.ltb_lt; lia).
  cbn [andb negb].
  by rewrite find_duplicate_absent.
Qed.

(** A non-empty part behind the first that starts a repetition of the
    last kept segments is skipped together with the repetition. *)
Lemma remove_loop_skip fuel parts i x normalized len :
  length parts - i ≤ fuel → 0 < i → parts !! i = Some x → x ≠ "" →
  1 ≤ len ≤ min (length normalized) (length parts - i) →
  dup_at normalized parts i len = true →
  (∀ k, 1 ≤ k < len → dup_at normalized parts i k = false) →
  remove_loop fuel parts i normalized = remove_loop fuel parts (i + len) normalized.
Proof.
  intros Hf Hi Hx Hne Hlen Hdup Hmin.
  pose proof (lookup_lt_Some _ _ _ Hx) as Hlt.
  rewrite (remove_loop_fuel fuel (S fuel) parts i normalized) by lia.
  cbn [remove_loop].
  replace (i <? length parts) with true by (symmetry; apply Nat.ltb_lt; lia).
  rewrite Hx. unfold default, from_option, id.
  replace (String.eqb x "") with false by (symmetry; by apply String.eqb_neq).
  replace (0 <? i) with true by (symmetry; apply Nat.ltb_lt; lia).
  cbn [andb negb].
  rewrite (find_duplicate_least _ _ _ _ _ len) by (done || lia).
  by replace (i + (len - 1) + 1) with (i + len) by lia.
Qed.


Lemma dup_at_head normalized parts i k x :
  dup_at normalized parts i k = true → 1 ≤ k ≤ length normalized →
  parts !! i = Some x → normalized !! (length normalized - k) = Some x.
Proof.
  unfold dup_at. rewrite bool_decide_eq_true. intros Heq Hk Hx.
  assert (slice_last normalized k !! 0 = slice parts i (i + k) !! 0) as H0
    by (by rewrite Heq).
  rewrite slice_lookup in H0 by lia. unfold slice_last in H0.
  rewrite lookup_drop, !Nat.add_0_r in H0. congruence.
Qed.

Lemma dup_at_fresh normalized parts i k x :
  parts !! i = Some x → x ∉ normalized → 1 ≤ k ≤ length normalized →
  dup_at normalized parts i k = false.
Proof.
  intros Hx Hfresh Hk. destruct (dup_at normalized parts i k) eqn:Hdup; [|done].
  destruct Hfresh. eapply list_elem_of_lookup_2, dup_at_head; done.
Qed.

(** **** The older function on a prefix *)

Lemma remove_loop_step fuel parts i normalized :
  i < length parts → length parts - i ≤ fuel →
  remove_loop fuel parts i normalized
  = let part := default "" (parts !! i) in
    if String.eqb part "" && negb (i =? 0)
    then remove_loop fuel parts (i + 1) normalized
    else match (if (0 <? i) && negb (String.eqb part "")
                then find_duplicate (length parts) normalized parts i 1
                       (min (length normalized) (length parts - i))
                else None) with
         | Some len => remove_loop fuel parts (i + (len - 1) + 1) normalized
         | None => remove_loop fuel parts (i + 1) (normalized ++ [part])
         end.
Proof.
  intros Hi Hfuel.
  rewrite (remove_loop_fuel fuel (S fuel) parts i normalized) by lia.
  cbn [remove_loop].
  replace (i <? length parts) with true by (symmetry; apply Nat.ltb_lt; lia).
  cbv zeta.
  destruct (String.eqb _ "" && negb (i =? 0)); [apply remove_loop_fuel; lia|].
  destruct (if (0 <? i) && _ then _ else _); apply remove_loop_fuel; lia.
Qed.

Lemma dup_at_app_l normalized v rest i len :
  i + len ≤ length v →
  dup_at normalized (v ++ rest) i len = dup_at normalized v i len.
Proof. intros Hb. unfold dup_at. by rewrite slice_app_l. Qed.

(** A run of parts that reaches a part not kept so far is no copy of
    the kept segments. *)
Lemma dup_at_across normalized v rest b i len :
  rest !! 0 = Some b → b ∉ normalized →
  i < length v → length v < i + len → len ≤ length normalized →
  dup_at normalized (v ++ rest) i len = false.
Proof.
  intros Hb Hfresh Hi Hlen Hn.
  destruct (dup_at normalized (v ++ rest) i len) eqn:Hdup; [|done].
  unfold dup_at in Hdup. apply bool_decide_eq_true in Hdup.
  assert (slice_last normalized len !! (length v - i)
          = slice (v ++ rest) i (i + len) !! (length v - i)) as Hl by (by rewrite Hdup).
  rewrite slice_lookup in Hl by lia. unfold slice_last in Hl.
  rewrite lookup_drop in Hl.
  replace (i + (length v - i)) with (length v + 0) in Hl by lia.
  rewrite (lookup_app_r v rest (length v + 0)) in Hl by lia.
  replace (length v + 0 - length v) with 0 in Hl by lia. rewrite Hb in Hl.
  destruct Hfresh. by eapply list_elem_of_lookup_2.
Qed.

Lemma find_duplicate_app_l normalized v rest b i :
  rest !! 0 = Some b → b ∉ normalized → i < length v →
  find_duplicate (length (v ++ rest)) normalized (v ++ rest) i 1
    (min (length normalized) (length (v ++ rest) - i))
  = find_duplicate (length v) normalized v i 1
      (min (length normalized) (length v - i)).
Proof.
  intros Hb Hfresh Hi.
  pose proof (find_duplicate_exact normalized v i) as Hexact. cbv zeta in Hexact.
  destruct (find_duplicate (length v) normalized v i 1 _) as [len|].
  - destruct Hexact as (Hlen & Hdup & Hmin).
    apply find_duplicate_least; [lia|rewrite length_app; lia| |].
    + by rewrite dup_at_app_l by lia.
    + intros k Hk. rewrite dup_at_app_l by lia. by apply Hmin.
  - apply find_duplicate_absent. intros k Hk.
    destruct (decide (i + k ≤ length v)) as [Hin|Hout].
    + rewrite dup_at_app_l by done. apply Hexact. lia.
    + apply (dup_at_across _ _ _ b); (done || lia).
Qed.

(** What the loop keeps comes from the parts. *)
Lemma remove_loop_subset fuel v : ∀ i normalized x,
  (∀ y, y ∈ normalized → y ∈ v) →
  x ∈ remove_loop fuel v i normalized → x ∈ v.
Proof.
  induction fuel as [|fuel IH]; intros i normalized x Hsub; cbn [remove_loop];
    [apply Hsub|].
  destruct (i <? length v) eqn:Hlt; [|apply Hsub]. apply Nat.ltb_lt in Hlt.
  destruct (String.eqb _ "" && negb (i =? 0)); [by apply IH|].
  destruct (if (0 <? i) && _ then _ else _); [by apply IH|].
  apply IH. intros y [Hy|Hy]%elem_of_app; [by apply Hsub|].
  apply list_elem_of_singleton in Hy as ->.
  destruct (lookup_lt_is_Some_2 v i Hlt) as [z Hz]. rewrite Hz.
  by eapply list_elem_of_lookup_2.
Qed.

(** The scan of [v ++ rest] over [v] is the scan of [v], when [rest]
    starts with a part that is not in [v]. *)
Lemma remove_loop_prefix fuel v rest b :
  rest !! 0 = Some b → b ∉ v → length (v ++ rest) ≤ fuel →
  ∀ d i normalized, d = length v - i → i ≤ length v →
    (∀ y, y ∈ normalized → y ∈ v) →
    remove_loop fuel (v ++ rest) i normalized
    = remove_loop fuel (v ++ rest) (length v) (remove_loop (length v) v i normalized).
Proof.
  intros Hb Hfresh Hfuel d. rewrite length_app in Hfuel.
  induction d as [d IH] using lt_wf_ind. intros i normalized Hd Hi Hsub.
  destruct (decide (i = length v)) as [->|Hlt].
  - f_equal. destruct (length v) eqn:Hn; cbn [remove_loop]; [done|].
    by rewrite <-Hn, Nat.ltb_irrefl.
  - rewrite (remove_loop_step _ (v ++ rest)) by (rewrite ?length_app; lia).
    rewrite (remove_loop_step _ v) by lia. cbv zeta.
    rewrite (lookup_app_l v rest i) by lia.
    destruct (lookup_lt_is_Some_2 v i ltac:(lia)) as [part Hpart]. rewrite Hpart.
    cbn [default from_option id].
    assert (part ∈ v) as Hin by (by eapply list_elem_of_lookup_2).
    destruct (String.eqb part "" && negb (i =? 0)).
    { apply (IH (length v - (i + 1))); (done || lia). }
    assert (b ∉ normalized) as Hbn by (intros ?; by apply Hfresh, Hsub).
    destruct ((0 <? i) && negb (String.eqb part "")).
    + rewrite (find_duplicate_app_l _ _ _ b) by (done || lia).
      pose proof (find_duplicate_exact normalized v i) as Hexact. cbv zeta in Hexact.
      destruct (find_duplicate (length v) normalized v i 1 _) as [len|].
      * apply (IH (length v - (i + (len - 1) + 1))); (done || lia).
      * apply (IH (length v - (i + 1))); [lia|lia|lia|].
        intros y [Hy|Hy]%elem_of_app; [by apply Hsub|].
        by apply list_elem_of_singleton in Hy as ->.
    + apply (IH (length v - (i + 1))); [lia|lia|lia|].
      intros y [Hy|Hy]%elem_of_app; [by apply Hsub|].
      by apply list_elem_of_singleton in Hy as ->.
Qed.

(** Non-empty parts that are not among the kept segments and occur
    once are kept one after the other. *)
Lemma remove_loop_fresh_run fuel mid : ∀ pre normalized rest,
  pre ≠ [] → NoDup mid → (∀ x, x ∈ mid → x ∉ normalized) →
  Forall (λ x, x ≠ "") mid →
  length (pre ++ mid ++ rest) ≤ fuel →
  remove_loop fuel (pre ++ mid ++ rest) (length pre) normalized
  = remove_loop fuel (pre ++ mid ++ rest) (length pre + length mid) (normalized ++ mid).
Proof.
  induction mid as [|x mid IH]; intros pre normalized rest Hpre Hnd Hfresh Hne Hf.
  - cbn [length]. by rewrite Nat.add_0_r, app_nil_r.
  - apply Forall_cons in Hne as [Hx Hne]. apply NoDup_cons in Hnd as [Hxmid Hnd].
    assert (0 < length pre) by (destruct pre; [done|cbn; lia]).
    assert (pre ++ (x :: mid) ++ rest = (pre ++ [x]) ++ mid ++ rest) as Heq
      by (by rewrite <-app_assoc).
    assert (normalized ++ x :: mid = (normalized ++ [x]) ++ mid) as Heq2
      by (by rewrite <-app_assoc).
    rewrite (remove_loop_push _ _ _ x); [|lia|done| |done|].
    + rewrite Heq, Heq2.
      replace (length pre + 1) with (length (pre ++ [x])) by (rewrite length_app; cbn; lia).
      replace (length pre + length (x :: mid)) with (length (pre ++ [x]) + length mid)
        by (rewrite length_app; cbn; lia).
      apply IH; [by destruct pre|done| |done|by rewrite <-Heq].
      intros y Hy [Hin|Hin]%elem_of_app.
      * apply (Hfresh y); [by right|done].
      * apply list_elem_of_singleton in Hin as ->. done.
    + rewrite lookup_app_r by lia. by rewrite Nat.sub_diag.
    + intros k Hk. eapply dup_at_fresh; [|apply (Hfresh x); by left|lia].
      rewrite lookup_app_r by lia. by rewrite Nat.sub_diag.
Qed.

(** The scan of [v ++ B ++ rest] keeps what it keeps of [v], then [B]. *)
Lemma remove_loop_single fuel v B rest :
  B ≠ [] → NoDup B → Forall (λ x, x ≠ "") B → (∀ x, x ∈ B → x ∉ v) →
  length (v ++ B ++ rest) ≤ fuel →
  remove_loop fuel (v ++ B ++ rest) 0 []
  = remove_loop fuel (v ++ B ++ rest) (length (v ++ B)) (remove_segments v ++ B).
Proof.
  intros HB Hnd HBne Hfresh Hf. rewrite length_app.
  destruct v as [|a v'] eqn:Hv.
  - destruct B as [|b B']; [done|]. cbn [app length remove_segments remove_loop].
    rewrite remove_loop_first by (cbn [app length] in Hf; lia).
    apply Forall_cons in HBne as [_ HBne]. apply NoDup_cons in Hnd as [Hb Hnd].
    apply (remove_loop_fresh_run fuel B' [b] [b] rest); try done.
    intros x Hx ->%list_elem_of_singleton. done.
  - rewrite <-Hv in *.
    destruct B as [|b B'] eqn:HBeq; [done|]. rewrite <-HBeq in *.
    assert (b ∈ B) as HbB by (rewrite HBeq; left).
    rewrite (remove_loop_prefix fuel v (B ++ rest) b 
               ltac:(by rewrite HBeq) (Hfresh b HbB) Hf (length v) 0 []); [|lia|lia|].
    2:{ by intros y Hy%elem_of_nil. }
    fold (remove_segments v).
    apply remove_loop_fresh_run; try done; [by rewrite Hv|].
    intros x Hx Hin. apply (Hfresh x Hx).
    by apply (remove_loop_subset (length v) v 0 [] x); [intros y Hy%elem_of_nil|].
Qed.

(** The scan of [v ++ B ++ B ++ s] moreover skips the second [B]. *)
Lemma remove_loop_block fuel v B s :
  B ≠ [] → NoDup B → Forall (λ x, x ≠ "") B → (∀ x, x ∈ B → x ∉ v) →
  length (v ++ B ++ B ++ s) ≤ fuel →
  remove_loop fuel (v ++ B ++ B ++ s) 0 []
  = remove_loop fuel (v ++ B ++ B ++ s) (length (v ++ B ++ B)) (remove_segments v ++ B).
Proof.
  intros HB Hnd HBne Hfresh Hf.
  rewrite remove_loop_single by done.
  destruct B as [|b B'] eqn:HBeq; [done|]. rewrite <-HBeq in *.
  assert (B !! 0 = Some b) as Hb0 by (by rewrite HBeq).
  assert (0 < length B) as HlenB by (rewrite HBeq; cbn; lia).
  assert (b ≠ "") as Hbne by (rewrite HBeq in HBne; by apply Forall_cons in HBne as [? _]).
  set (R := remove_segments v).
  assert (slice_last (R ++ B) (length B) = B) as Hlast.
  { unfold slice_last. rewrite length_app.
    replace (length R + length B - length B) with (length R) by lia.
    by rewrite drop_app_length. }
  assert ((v ++ B ++ B ++ s) !! length (v ++ B) = Some b) as Hat.
  { rewrite (app_assoc v B). rewrite lookup_app_r by lia.
    by rewrite Nat.sub_diag, lookup_app_l by lia. }
  rewrite !length_app in *.
  rewrite (remove_loop_skip _ _ _ b _ (length B)).
  - f_equal. lia.
  - rewrite !length_app. lia.
  - lia.
  - done.
  - done.
  - rewrite !length_app. lia.
  - unfold dup_at. apply bool_decide_eq_true. rewrite Hlast.
    rewrite (app_assoc v B), <-(length_app v B).
    rewrite <-(Nat.add_0_r (length (v ++ B))) at 1.
    rewrite slice_app_r. unfold slice.
    rewrite drop_0, Nat.sub_0_r. by rewrite take_app_length.
  - intros k Hk. destruct (dup_at _ _ _ k) eqn:Hdup; [|done].
    eapply dup_at_head in Hdup; [|rewrite length_app; lia|done].
    rewrite length_app, lookup_app_r in Hdup by lia.
    pose proof (NoDup_lookup _ _ _ _ Hnd Hb0 Hdup). lia.
Qed.

Lemma remove_segments_block v B s :
  B ≠ [] → NoDup B → Forall (λ x, x ≠ "") B → (∀ x, x ∈ B → x ∉ v) →
  remove_segments (v ++ B ++ B ++ s) = remove_segments (v ++ B ++ s).
Proof.
  intros HB Hnd HBne Hfresh. unfold remove_segments at 1 2.
  rewrite (remove_loop_fuel (length (v ++ B ++ s)) (length (v ++ B ++ B ++ s)) (v ++ B ++ s))
    by (rewrite !length_app; lia).
  rewrite remove_loop_block, remove_loop_single by (done || rewrite !length_app; lia).
  rewrite <-(Nat.add_0_r (length (v ++ B ++ B))), <-(Nat.add_0_r (length (v ++ B))).
  replace (v ++ B ++ B ++ s) with ((v ++ B ++ B) ++ s) by (by rewrite <-!app_assoc).
  replace (v ++ B ++ s) with ((v ++ B) ++ s) by (by rewrite <-!app_assoc).
  apply remove_loop_app_r; by destruct v, B.
Qed.

Lemma split_render_parts absolute segs :
  segs ≠ [] → forallb is_segment segs = true →
  split (render absolute segs) = (if absolute then [""] else []) ++ segs.
Proof.
  intros Hne Hok. destruct absolute; unfold render; cbn [split app].
  - change (Ascii.eqb sep sep) with true. cbn iota. by rewrite split_array_join.
  - by apply split_array_join.
Qed.

Lemma forallb_is_segment_nonempty segs :
  forallb is_segment segs = true → Forall (λ x, x ≠ "") segs.
Proof.
  rewrite forallb_forall, Forall_forall. intros H x Hx.
  apply list_elem_of_In, H, is_segment_spec in Hx as [? _]. done.
Qed.


(** **** removeDuplicatePathSegments without a repeated block *)

Lemma slice_last_take {A} (l : list A) i k :
  k ≤ i ≤ length l → slice_last (take i l) k = slice l (i - k) i.
Proof.
  intros Hk. unfold slice_last, slice. rewrite length_take, take_drop_commute.
  replace (Nat.min i (length l)) with i by lia.
  by replace (i - k + (i - (i - k))) with i by lia.
Qed.

Lemma remove_loop_fixed fuel parts :
  (∀ j x, 0 < j → parts !! j = Some x → x ≠ "") →
  (∀ j len, 1 ≤ len ≤ j → j + len ≤ length parts →
            slice parts (j - len) j ≠ slice parts j (j + len)) →
  ∀ i, 0 < i ≤ length parts → length parts - i ≤ fuel →
  remove_loop fuel parts i (take i parts) = parts.
Proof.
  intros Hne Hnorep i. remember (length parts - i) as d eqn:Hd.
  revert i Hd. induction d as [|d IH]; intros i Hd Hi Hf.
  - replace i with (length parts) by lia. rewrite firstn_all.
    destruct fuel; cbn [remove_loop]; [done|]. by rewrite Nat.ltb_irrefl.
  - destruct (lookup_lt_is_Some_2 parts i ltac:(lia)) as [x Hx].
    rewrite (remove_loop_push _ _ _ x); [|lia|lia|done|by eapply Hne; [|done]; lia|].
    + rewrite <-(take_S_r _ _ _ Hx), Nat.add_1_r. apply IH; lia.
    + intros k Hk. rewrite length_take in Hk. unfold dup_at.
      apply bool_decide_eq_false. rewrite slice_last_take by lia.
      apply Hnorep; lia.
Qed.

Lemma remove_segments_fixed parts :
  parts ≠ [] →
  (∀ j x, 0 < j → parts !! j = Some x → x ≠ "") →
  (∀ j len, 1 ≤ len ≤ j → j + len ≤ length parts →
            slice parts (j - len) j ≠ slice parts j (j + len)) →
  remove_segments parts = parts.
Proof.
  intros Hparts Hne Hnorep. destruct parts as [|x l]; [done|].
  unfold remove_segments. rewrite remove_loop_first by (cbn [length]; lia).
  change [x] with (take 1 (x :: l)).
  apply remove_loop_fixed; cbn [length]; (done || lia).
Qed.

Lemma no_repeated_block_slices segs j len :
  no_repeated_block segs = true → 1 ≤ len ≤ j → j + len ≤ length segs →
  slice segs (j - len) j ≠ slice segs j (j + len).
Proof.
  rewrite no_repeated_block_spec. intros Hno Hlen Hj Heq.
  specialize (Hno (j - len) len ltac:(lia)).
  unfold repeats_at in Hno. apply andb_false_iff in Hno as [Hb|Hs].
  - apply Nat.leb_gt in Hb. lia.
  - apply bool_decide_eq_false in Hs. apply Hs.
    replace (j - len + len) with j by lia.
    by replace (j - len + len * 2) with (j + len) by lia.
Qed.

(** The parts of a canonical path without a repeated block come back
    as they are, root part included. *)
Lemma remove_segments_render (absolute : bool) segs :
  segs ≠ [] → forallb is_segment segs = true → no_repeated_block segs = true →
  remove_segments ((if absolute then [""] else []) ++ segs)
  = (if absolute then [""] else []) ++ segs.
Proof.
  intros Hsegs Hok Hno. pose proof (forallb_is_segment_nonempty _ Hok) as Hne.
  rewrite Forall_lookup in Hne.
  apply remove_segments_fixed.
  - by destruct absolute, segs.
  - intros j x Hj Hx. destruct absolute; cbn [app] in Hx.
    + destruct j as [|j]; [lia|]. by apply (Hne j).
    + by apply (Hne j).
  - intros j len Hlen Hj. destruct absolute; cbn [app length] in *;
      [|by apply no_repeated_block_slices].
    destruct (decide (len = j)) as [->|Hlt].
    + intros Heq.
      assert (slice ("" :: segs) (j - j) j !! 0 = slice ("" :: segs) j (j + j) !! 0) as H0
        by (by rewrite Heq).
      rewrite !slice_lookup, Nat.sub_diag, !Nat.add_0_r in H0 by lia. cbn in H0.
      destruct j as [|j]; [lia|]. cbn in H0. symmetry in H0. by apply Hne in H0.
    + destruct j as [|j]; [lia|].
      change ("" :: segs) with ([""] ++ segs).
      replace (S j - len) with (length [""] + (j - len)) by (cbn; lia).
      replace (S j + len) with (length [""] + (j + len)) by (cbn; lia).
      change (S j) with (length [""] + j). rewrite !slice_app_r.
      apply no_repeated_block_slices; (done || lia).
Qed.


(** **** [path.join] on plain segments *)

Lemma is_plain_segment_spec x :
  is_plain_segment x = true ↔ is_segment x = true ∧ x ≠ "." ∧ x ≠ "..".
Proof.
  unfold is_plain_segment.
  rewrite !andb_true_iff, !negb_true_iff, !String.eqb_neq. tauto.
Qed.

Lemma forallb_plain_is_segment segs :
  forallb is_plain_segment segs = true → forallb is_segment segs = true.
Proof.
  rewrite !forallb_forall. intros H x Hx. by apply H, is_plain_segment_spec in Hx as [? _].
Qed.

Lemma fold_normalize_plain allowAboveRoot segs : ∀ acc,
  forallb is_plain_segment segs = true →
  fold_left (normalize_segment allowAboveRoot) segs acc = acc ++ segs.
Proof.
  induction segs as [|x segs IH]; intros acc Hok; cbn [fold_left forallb] in *.
  - by rewrite app_nil_r.
  - apply andb_true_iff in Hok as [Hx Hok].
    apply is_plain_segment_spec in Hx as (Hseg & Hdot & Hdots).
    apply is_segment_spec in Hseg as [Hne _].
    rewrite IH by done. unfold normalize_segment.
    apply String.eqb_neq in Hne, Hdot, Hdots. rewrite Hne, Hdot, Hdots.
    cbn [orb]. by rewrite <-app_assoc.
Qed.

Lemma endsWith_sep_no_sep x : has_sep x = false → endsWith_sep x = false.
Proof.
  induction x as [|c x IH]; [done|]. cbn [has_sep endsWith_sep].
  intros [Hc Hx]%orb_false_iff. destruct x; [done|]. by apply IH.
Qed.

Lemma endsWith_sep_append x t :
  t ≠ "" → endsWith_sep (x +:+ t) = endsWith_sep t.
Proof.
  intros Ht. induction x as [|c x IH]; [done|].
  change (String c x +:+ t) with (String c (x +:+ t)). cbn [endsWith_sep].
  destruct (x +:+ t) eqn:Happ; [|done].
  destruct x; [|done]. by destruct t.
Qed.

Lemma array_join_nonempty x segs : x ≠ "" → array_join (x :: segs) ≠ "".
Proof. destruct x; [done|]. by destruct segs. Qed.

Lemma endsWith_sep_array_join segs :
  forallb is_segment segs = true → endsWith_sep (array_join segs) = false.
Proof.
  induction segs as [|x [|y segs] IH]; [done| |]; cbn [forallb];
    intros [Hx Hrest]%andb_true_iff; apply is_segment_spec in Hx as [Hne Hsep].
  - by apply endsWith_sep_no_sep.
  - change (array_join (x :: y :: segs))
      with (x +:+ String sep (array_join (y :: segs))).
    rewrite endsWith_sep_append by done.
    pose proof Hrest as Hy. cbn [forallb] in Hy. apply andb_true_iff in Hy as [Hy _].
    apply is_segment_spec in Hy as [Hy _].
    pose proof (array_join_nonempty y segs Hy) as Hjoin.
    specialize (IH Hrest). destruct (array_join (y :: segs)); done.
Qed.

Lemma normalize_array_join segs :
  segs ≠ [] → forallb is_plain_segment segs = true →
  normalize (array_join segs) = array_join segs.
Proof.
  intros Hne Hplain. pose proof (forallb_plain_is_segment _ Hplain) as Hok.
  destruct segs as [|x segs]; [done|].
  assert (x ≠ "") as Hx.
  { cbn [forallb] in Hok. apply andb_true_iff in Hok as [Hx _].
    by apply is_segment_spec in Hx as [? _]. }
  pose proof (array_join_nonempty x segs Hx) as Hjoin.
  unfold normalize, normalizeString.
  rewrite split_array_join, fold_normalize_plain by done. cbn [app].
  apply String.eqb_neq in Hjoin. rewrite Hjoin.
  rewrite endsWith_sep_array_join by done.
  change (isAbsolute (array_join (x :: segs)))
    with (isAbsolute (render false (x :: segs))).
  by rewrite isAbsolute_render.
Qed.

Lemma join_render (absolute : bool) segs :
  segs ≠ [] → forallb is_plain_segment segs = true →
  join ((if absolute then [""] else []) ++ segs) = array_join segs.
Proof.
  intros Hne Hplain. pose proof (forallb_plain_is_segment _ Hplain) as Hok.
  unfold join.
  assert (filter (λ a, a ≠ "") ((if absolute then [""] else []) ++ segs) = segs) as ->.
  { destruct absolute; cbn [app].
    - rewrite filter_cons_False by (intros H; by apply H).
      by apply filter_nonempty_segments.
    - by apply filter_nonempty_segments. }
  destruct segs as [|x segs]; [done|]. by apply normalize_array_join.
Qed.

(** On a canonical path made of plain segments, without a repeated
    block, the older function is the identity. *)
Lemma removeDuplicatePathSegments_fixed (absolute : bool) segs :
  segs ≠ [] → forallb is_plain_segment segs = true →
  no_repeated_block segs = true →
  removeDuplicatePathSegments (render absolute segs) = render absolute segs.
Proof.
  intros Hne Hplain Hno. pose proof (forallb_plain_is_segment _ Hplain) as Hok.
  unfold removeDuplicatePathSegments.
  rewrite split_render_parts, remove_segments_render, join_render by done.
  destruct segs as [|x segs]; [done|].
  assert (x ≠ "") as Hx.
  { cbn [forallb] in Hok. apply andb_true_iff in Hok as [Hx _].
    by apply is_segment_spec in Hx as [? _]. }
  change (startsWith_sep (array_join (x :: segs)))
    with (isAbsolute (render false (x :: segs))).
  rewrite isAbsolute_render by done.
  destruct absolute; cbn [app length Nat.eqb lookup list_lookup negb andb render].
  - rewrite bool_decide_eq_true_2 by done. by destruct segs.
  - rewrite !bool_decide_eq_false_2 by congruence. by rewrite andb_false_r.
Qed.


(** **** The stated properties *)

(** C2, counterexample.  The block [a; a; b] repeated: the scan first
    removes the repeated [a] inside each copy, after which the two
    copies are no longer found equal.  Both functions return
    [/a/b/a/b], while the path with one copy gives [/a/b]. *)
Lemma repeated_block_not_collapsed :
  let B := ["a"; "a"; "b"] in
  normalizeDuplicateSegments (render true ([] ++ B ++ B ++ [])) = "/a/b/a/b"
  ∧ normalizeDuplicateSegments (render true ([] ++ B ++ [])) = "/a/b"
  ∧ removeDuplicatePathSegments (render true ([] ++ B ++ B ++ [])) = "/a/b/a/b"
  ∧ removeDuplicatePathSegments (render true ([] ++ B ++ [])) = "/a/b"
  ∧ normalizeDuplicateSegments (render true ([] ++ B ++ B ++ []))
    ≠ normalizeDuplicateSegments (render true ([] ++ B ++ []))
  ∧ removeDuplicatePathSegments (render true ([] ++ B ++ B ++ []))
    ≠ removeDuplicatePathSegments (render true ([] ++ B ++ [])).
Proof. vm_compute. repeat split; congruence. Qed.

(** C2, as amended.  For a canonical path [prefix + B + B + suffix]
    whose block [B] is non-empty, where the segments of [B] are
    pairwise distinct and none of them occurs in [prefix] or in
    [suffix], both functions return what they return for
    [prefix + B + suffix]; for [normalizeDuplicateSegments] that is the
    normalized prefix, [B] and the normalized suffix. *)
Theorem repeated_block_collapses (absolute : bool) (p B s : list string) :
  B ≠ [] → forallb is_segment (p ++ B ++ s) = true →
  NoDup B → Forall (λ x, (x ∉ p) ∧ (x ∉ s)) B →
  normalizeDuplicateSegments (render absolute (p ++ B ++ B ++ s))
  = normalizeDuplicateSegments (render absolute (p ++ B ++ s))
  ∧ normalizeDuplicateSegments (render absolute (p ++ B ++ B ++ s))
    = render absolute (normalize_segments p ++ B ++ normalize_segments s)
  ∧ removeDuplicatePathSegments (render absolute (p ++ B ++ B ++ s))
    = removeDuplicatePathSegments (render absolute (p ++ B ++ s)).
Proof.
  intros HB Hok Hnd Hfresh. rewrite Forall_forall in Hfresh.
  assert (forallb is_segment (p ++ B ++ B ++ s) = true) as Hok2.
  { rewrite !forallb_app in *. apply andb_true_iff in Hok as [Hp HBs].
    apply andb_true_iff in HBs as [HBok Hs]. by rewrite Hp, HBok, Hs. }
  assert (Forall (λ x, x ≠ "") B) as HBne.
  { apply forallb_is_segment_nonempty. rewrite !forallb_app in Hok.
    apply andb_true_iff in Hok as [_ Hok]. by apply andb_true_iff in Hok as [? _]. }
  destruct (normalize_segments_block p B s HB Hnd Hfresh) as [Htwice Honce].
  rewrite !normalizeDuplicateSegments_render by done.
  rewrite Htwice, Honce. split; [done|]. split; [done|].
  unfold removeDuplicatePathSegments.
  rewrite !split_render_parts by (done || by destruct p, B).
  set (root := if absolute then [""] else []).
  rewrite !(app_assoc root).
  rewrite remove_segments_block; [done|done|done|done|].
  intros x Hx [Hroot|Hp]%elem_of_app.
  - subst root. destruct absolute; [|by apply elem_of_nil in Hroot].
    apply list_elem_of_singleton in Hroot as ->.
    rewrite Forall_forall in HBne. by apply (HBne "").
  - by destruct (Hfresh x Hx).
Qed.

(** The example of the claim: [home; alice] repeated before [vault];
    and the same behind a prefix that itself repeats a segment. *)
Lemma repeated_block_collapses_home_alice :
  (normalizeDuplicateSegments "/home/alice/home/alice/vault"
   = normalizeDuplicateSegments "/home/alice/vault"
   ∧ normalizeDuplicateSegments "/home/alice/home/alice/vault" = "/home/alice/vault"
   ∧ removeDuplicatePathSegments "/home/alice/home/alice/vault"
     = removeDuplicatePathSegments "/home/alice/vault")
  ∧ (normalizeDuplicateSegments "mnt/mnt/home/alice/home/alice/vault"
     = normalizeDuplicateSegments "mnt/mnt/home/alice/vault"
     ∧ normalizeDuplicateSegments "mnt/mnt/home/alice/home/alice/vault"
       = "mnt/home/alice/vault"
     ∧ removeDuplicatePathSegments "mnt/mnt/home/alice/home/alice/vault"
       = removeDuplicatePathSegments "mnt/mnt/home/alice/vault").
Proof.
  split.
  - apply (repeated_block_collapses true [] ["home"; "alice"] ["vault"]).
    + done.
    + reflexivity.
    + apply (bool_decide_unpack _). vm_compute. reflexivity.
    + apply (bool_decide_unpack _). vm_compute. reflexivity.
  - apply (repeated_block_collapses false ["mnt"; "mnt"] ["home"; "alice"] ["vault"]).
    + done.
    + reflexivity.
    + apply (bool_decide_unpack _). vm_compute. reflexivity.
    + apply (bool_decide_unpack _). vm_compute. reflexivity.
Defined.

(** C7, counterexample.  The older function maps the empty path to the
    root, and both functions drop a trailing separator: [/a/] has no
    repeated block and is not returned unchanged.  On a Windows host
    [normalizeDuplicateSegments] puts a separator in front of a path
    that begins with a drive letter, although it has no repeated
    block. *)
Lemma path_edge_cases_fail :
  removeDuplicatePathSegments "" = "/"
  ∧ removeDuplicatePathSegments "" ≠ ""
  ∧ no_repeated_block (filter (λ p, p ≠ "") (split "/a/")) = true
  ∧ normalizeDuplicateSegments "/a/" = "/a"
  ∧ normalizeDuplicateSegments "/a/" ≠ "/a/"
  ∧ no_repeated_block ["C:"; "Users"; "u"] = true
  ∧ NormalizePathWin32.normalizeDuplicateSegments "C:\Users\u" = "\C:\Users\u"
  ∧ NormalizePathWin32.normalizeDuplicateSegments "C:\Users\u" ≠ "C:\Users\u".
Proof. vm_compute. repeat split; congruence. Qed.

(** C7, as amended, on a POSIX host.  [normalizeDuplicateSegments] maps
    the empty path to the empty string and the root to the root; the
    older [removeDuplicatePathSegments] maps both to the root.  A
    canonical path (segments joined by single separators, none
    trailing) without a repeated block is returned unchanged by
    [normalizeDuplicateSegments]; by [removeDuplicatePathSegments] too
    when the path is not empty and has no "." or ".." segment.  Of any
    path whose segments have no repeated block,
    [normalizeDuplicateSegments] returns the canonical form: the
    segments that are not empty, joined by single separators, behind a
    separator when the path began with one; so empty segments and a
    trailing separator are dropped. *)
Theorem path_edge_cases (absolute : bool) (segs : list string) :
  forallb is_segment segs = true → no_repeated_block segs = true →
  normalizeDuplicateSegments "" = ""
  ∧ normalizeDuplicateSegments "/" = "/"
  ∧ removeDuplicatePathSegments "/" = "/"
  ∧ removeDuplicatePathSegments "" = "/"
  ∧ normalizeDuplicateSegments (render absolute segs) = render absolute segs
  ∧ (forallb is_plain_segment segs = true → absolute = true ∨ segs ≠ [] →
     removeDuplicatePathSegments (render absolute segs) = render absolute segs)
  ∧ (∀ filepath,
       filter (λ p, p ≠ "") (split filepath) = segs →
       normalizeDuplicateSegments filepath = render (isAbsolute filepath) segs).
Proof.
  intros Hok Hno. do 4 (split; [by vm_compute|]). split; [|split].
  - by rewrite normalizeDuplicateSegments_render, normalize_segments_fixed.
  - intros Hplain Hnonempty. destruct segs as [|x segs].
    + destruct Hnonempty as [->|]; [by vm_compute|done].
    + by apply removeDuplicatePathSegments_fixed.
  - intros filepath Hparts. unfold normalizeDuplicateSegments. rewrite Hparts.
    by rewrite normalize_segments_fixed.
Qed.

(** The path of the claim's sibling example is unchanged; with a doubled
    and a trailing separator it is returned in canonical form. *)
Lemma path_edge_cases_home_user_vault :
  normalizeDuplicateSegments "/home/user/vault" = "/home/user/vault"
  ∧ removeDuplicatePathSegments "/home/user/vault" = "/home/user/vault"
  ∧ normalizeDuplicateSegments "/home//user/vault/" = "/home/user/vault".
Proof.
  destruct (path_edge_cases true ["home"; "user"; "vault"])
    as (_ & _ & _ & _ & Hnew & Hold & Hany); [reflexivity|reflexivity|].
  split; [exact Hnew|]. split; [apply Hold; [reflexivity|by left]|].
  by apply (Hany "/home//user/vault/").
Defined.

(** **** The tests of normalizePath.test.ts and status.test.ts *)

Example normalizeDuplicateSegments_tests :
  normalizeDuplicateSegments "/home/user/home/user/vault" = "/home/user/vault"
  ∧ normalizeDuplicateSegments "/home/user/vault" = "/home/user/vault"
  ∧ normalizeDuplicateSegments "/a/b/a/b/a/b" = "/a/b"
  ∧ normalizeDuplicateSegments "/a/b/c/a/b/c/file" = "/a/b/c/file"
  ∧ normalizeDuplicateSegments "home/user/home/user/vault" = "home/user/vault"
  ∧ normalizeDuplicateSegments "/home/user/vault/user" = "/home/user/vault/user"
  ∧ normalizeDuplicateSegments "/home/john/home/john/vault/.obsidian/plugins/mcp-tools/bin"
    = "/home/john/vault/.obsidian/plugins/mcp-tools/bin"
  ∧ normalizeDuplicateSegments "/home" = "/home"
  ∧ normalizeDuplicateSegments "" = ""
  ∧ normalizeDuplicateSegments "/" = "/".
Proof. by vm_compute. Qed.

Example removeDuplicatePathSegments_tests :
  removeDuplicatePathSegments "/home/user/home/user/vault/.obsidian"
  = "/home/user/vault/.obsidian"
  ∧ removeDuplicatePathSegments "/home/user/home/user/home/user/vault" = "/home/user/vault"
  ∧ removeDuplicatePathSegments "/home/user/Documents/home/user/Documents/vault"
    = "/home/user/Documents/vault"
  ∧ removeDuplicatePathSegments "/home/user/vault/.obsidian/plugins"
    = "/home/user/vault/.obsidian/plugins"
  ∧ removeDuplicatePathSegments "/home" = "/home"
  ∧ removeDuplicatePathSegments "/home/user/home2/user/vault" = "/home/user/home2/user/vault"
  ∧ removeDuplicatePathSegments "/" = "/"
  ∧ removeDuplicatePathSegments
      "/Users/username/Library/Mobile Documents/Users/username/Library/Mobile Documents/vault"
    = "/Users/username/Library/Mobile Documents/vault".
Proof. by vm_compute. Qed.

(** [path.join] on segments that are not plain *)
Example join_examples :
  join [""; "a"; ".."; "b"] = "b"
  ∧ join ["a"; "."; "b"] = "a/b"
  ∧ join [".."; ".."; "a"] = "../../a"
  ∧ join [""] = "."
  ∧ normalize "/a//b/../c/" = "/a/c/".
Proof. by vm_compute. Qed.

End NormalizePathFacts.

(** ** Installation status *)

Section StatusFacts.
Import Settings Status.

(** **** The order of the semver package and the precedence of versions *)

Lemma to_double_exact n : (n <? 2 ^ 53)%N = true → Text.to_double n = Some n.
Proof. intros Hn. unfold Text.to_double. by rewrite Hn. Qed.

Lemma same_identifier_spec x y : Semver.same_identifier x y = true ↔ x = y.
Proof.
  destruct x as [x|x], y as [y|y]; cbn; try (split; [done|congruence]).
  - split; [by intros ->%N.eqb_eq|]. intros [= ->]. by apply N.eqb_eq.
  - split; [by intros ->%String.eqb_eq|]. intros [= ->]. by apply String.eqb_eq.
Qed.

Lemma string_compare_refl s : String.compare s s = Eq.
Proof.
  induction s as [|c s IH]; [done|]. cbn. unfold Ascii.compare.
  by rewrite N.compare_refl.
Qed.

Lemma identifier_precedence_Eq x y : Semver.identifier_precedence x y = Eq ↔ x = y.
Proof.
  destruct x as [x|x], y as [y|y]; cbn; try (split; [done|congruence]).
  - split; [by intros ->%N.compare_eq_iff|]. intros [= ->]. by apply N.compare_eq_iff.
  - split; [by intros ->%String.compare_eq_iff|]. intros [= ->].
    apply string_compare_refl.
Qed.

Lemma compareIdentifiers_exact x y :
  Semver.exact_identifier x = true → Semver.exact_identifier y = true →
  Semver.compareIdentifiers x y = Semver.identifier_precedence x y.
Proof.
  destruct x as [x|x], y as [y|y]; cbn; try done.
  intros Hx Hy. by rewrite !to_double_exact.
Qed.

Lemma compare_identifier_lists_exact a : ∀ b,
  forallb Semver.exact_identifier a = true → forallb Semver.exact_identifier b = true →
  Semver.compare_identifier_lists a b = Semver.prerelease_precedence a b.
Proof.
  induction a as [|x a IH]; intros [|y b]; cbn; try done.
  intros [Hx Ha]%andb_prop [Hy Hb]%andb_prop.
  destruct (Semver.same_identifier x y) eqn:Hsame.
  - apply same_identifier_spec in Hsame as ->.
    replace (Semver.identifier_precedence y y) with Eq
      by (symmetry; by apply identifier_precedence_Eq).
    by apply IH.
  - rewrite compareIdentifiers_exact by done.
    destruct (Semver.identifier_precedence x y) eqn:Hxy; try done.
    apply identifier_precedence_Eq in Hxy as ->.
    by rewrite (proj2 (same_identifier_spec y y)) in Hsame.
Qed.

(** When every all-digit prerelease identifier is below 2^53, the order
    of the package is the precedence of semantic versions. *)
Lemma compare_precedence a b :
  Semver.exact a = true → Semver.exact b = true →
  Semver.compare a b = Semver.precedence a b.
Proof.
  unfold Semver.exact, Semver.compare, Semver.precedence, Semver.comparePre.
  intros Ha Hb. destruct (Semver.compareMain a b); try done.
  destruct (Semver.prerelease a) as [|x pa] eqn:Hpa, (Semver.prerelease b) as [|y pb] eqn:Hpb;
    try done.
  by apply compare_identifier_lists_exact.
Qed.

(** **** The status query *)

(** The happy path of the status query, spelled out. *)
Lemma getInstallationStatus_versions w pv sv info stdout after_ms :
  Semver.valid (Semver.clean (manifest_version w)) = Some pv →
  truthy (getLocalRestApiKey w) = true →
  getInstallPath w = Resolved (inl info) →
  access_X_OK w (path info) = true →
  run w (versionCommand (path info)) = Exits 0 stdout after_ms →
  (N.of_nat (String.length stdout) ≤ default_maxBuffer)%N →
  Semver.clean (Text.trim stdout) = Some sv →
  getInstallationStatus w
  = Resolved {| state_of := if Semver.lt sv pv then Outdated else Installed;
                install_path := Some info;
                versions_plugin := Some pv; versions_server := Some sv;
                error := None |}.
Proof.
  intros Hpv Hkey Hpath Hacc Hrun Hsize Hsv. unfold getInstallationStatus.
  rewrite Hpv, Hkey, Hpath, Hacc, Hrun. cbn [negb]. cbv zeta.
  unfold execAsync, exec, default_timeout. cbn [N.ltb N.compare andb].
  replace (default_maxBuffer <? _)%N with false by (symmetry; by apply N.ltb_ge).
  cbn. by rewrite Hsv.
Qed.

(** The failures of the version query, spelled out. *)
Lemma getInstallationStatus_failed w pv info code stdout after_ms :
  Semver.valid (Semver.clean (manifest_version w)) = Some pv →
  truthy (getLocalRestApiKey w) = true →
  getInstallPath w = Resolved (inl info) →
  access_X_OK w (path info) = true →
  run w (versionCommand (path info)) = Exits code stdout after_ms →
  code ≠ 0%Z ∨ (default_maxBuffer < N.of_nat (String.length stdout))%N
  ∨ Semver.clean (Text.trim stdout) = None →
  getInstallationStatus w
  = Resolved {| state_of := Error; install_path := Some info;
                versions_plugin := Some pv; versions_server := None;
                error := None |}.
Proof.
  intros Hpv Hkey Hpath Hacc Hrun Hfails. unfold getInstallationStatus.
  rewrite Hpv, Hkey, Hpath, Hacc, Hrun. cbn [negb]. cbv zeta.
  unfold execAsync, exec, default_timeout. cbn [N.ltb N.compare andb].
  destruct (default_maxBuffer <? _)%N eqn:Hsize; [done|].
  destruct (code =? 0)%Z eqn:Hcode; [|done].
  destruct Hfails as [Hfails|[Hfails|Hfails]].
  - by apply Z.eqb_eq in Hcode.
  - apply N.ltb_ge in Hsize. lia.
  - by rewrite Hfails.
Qed.

(** C3, counterexample.  (1) The plugin version is valid, the API key
    is there, the binary is executable and prints 0.2.26, which parses
    and is lower than the plugin's 0.2.27, but it exits with code 1:
    the state is "error", not "outdated".  (2) The binary prints
    1.0.0-9007199254740992 and the plugin is 1.0.0-9007199254740993:
    the server version precedes the plugin version, but the package
    compares the two identifiers as doubles, which are equal, and the
    state is "installed". *)
Lemma version_printed_by_failing_binary :
  (∃ sv pv,
     Semver.clean (Text.trim "0.2.26") = Some sv
     ∧ Semver.valid (Semver.clean "0.2.27") = Some pv
     ∧ Semver.precedence sv pv = Lt
     ∧ getInstallationStatus (example_world "0.2.27" (Exits 1 "0.2.26" 20))
       = Resolved {| state_of := Error; install_path := Some example_info;
                     versions_plugin := Some pv; versions_server := None;
                     error := None |})
  ∧ (∃ sv pv,
       Semver.clean (Text.trim "1.0.0-9007199254740992") = Some sv
       ∧ Semver.valid (Semver.clean "1.0.0-9007199254740993") = Some pv
       ∧ Semver.precedence sv pv = Lt
       ∧ getInstallationStatus
           (example_world "1.0.0-9007199254740993" (Exits 0 "1.0.0-9007199254740992" 20))
         = Resolved {| state_of := Installed; install_path := Some example_info;
                       versions_plugin := Some pv; versions_server := Some sv;
                       error := None |}).
Proof. split; eexists _, _; split_and!; by vm_compute. Qed.

(** C3, as amended.  With a valid plugin version, an API key, an
    executable binary, and a version command that exits with code 0
    having printed, within the buffer of [exec], a text that parses:
    the query answers "outdated" exactly when the package orders the
    server version before the plugin version, and "installed" exactly
    when it does not (greater or equal); that order is the precedence
    of semantic versions whenever every all-digit prerelease identifier
    of the two versions is below 2^53. *)
Theorem status_compares_versions w pv sv info stdout after_ms :
  Semver.valid (Semver.clean (manifest_version w)) = Some pv →
  truthy (getLocalRestApiKey w) = true →
  getInstallPath w = Resolved (inl info) →
  access_X_OK w (path info) = true →
  run w (versionCommand (path info)) = Exits 0 stdout after_ms →
  (N.of_nat (String.length stdout) ≤ default_maxBuffer)%N →
  Semver.clean (Text.trim stdout) = Some sv →
  ∃ st, getInstallationStatus w = Resolved st
        ∧ (state_of st = Outdated ↔ Semver.compare sv pv = Lt)
        ∧ (state_of st = Installed ↔ Semver.compare sv pv ≠ Lt)
        ∧ versions_plugin st = Some pv ∧ versions_server st = Some sv
        ∧ install_path st = Some info
        ∧ (Semver.exact sv = true → Semver.exact pv = true →
           Semver.compare sv pv = Semver.precedence sv pv).
Proof.
  intros Hpv Hkey Hpath Hacc Hrun Hsize Hsv.
  eexists. split; [by eapply getInstallationStatus_versions|].
  cbn. split_and!; try done; try apply compare_precedence.
  - unfold Semver.lt. destruct (Semver.compare sv pv); split; congruence.
  - unfold Semver.lt. destruct (Semver.compare sv pv); split; congruence.
Qed.

(** The examples of the specification: server 0.2.26 against plugin
    0.2.27 is outdated, equal versions are installed.  Then versions
    with a prerelease: 0.2.27-beta.2 comes before 0.2.27, and rc.10
    does not come before rc.9, since all-digit identifiers are compared
    as numbers; the output may end in a newline and begin with a
    no-break space (U+00A0), which [trim] removes. *)
Lemma status_compares_versions_examples :
  (∃ st, getInstallationStatus (example_world "0.2.27" (Exits 0 ("0.2.26" +:+ newline) 20))
         = Resolved st ∧ state_of st = Outdated)
  ∧ (∃ st, getInstallationStatus (example_world "v0.2.27" (Exits 0 "0.2.27" 20))
           = Resolved st ∧ state_of st = Installed)
  ∧ (∃ st, getInstallationStatus
             (example_world "0.2.27" (Exits 0 (Text.no_break_space +:+ "0.2.27-beta.2") 20))
           = Resolved st ∧ state_of st = Outdated)
  ∧ (∃ st, getInstallationStatus (example_world "1.0.0-rc.9" (Exits 0 "1.0.0-rc.10" 20))
           = Resolved st ∧ state_of st = Installed).
Proof.
  split_and!.
  - edestruct (status_compares_versions
                 (example_world "0.2.27" (Exits 0 ("0.2.26" +:+ newline) 20)))
      as (st & Hst & Hout & _); [reflexivity..|by vm_compute|reflexivity|].
    exists st. split; [exact Hst|]. apply Hout. reflexivity.
  - edestruct (status_compares_versions (example_world "v0.2.27" (Exits 0 "0.2.27" 20)))
      as (st & Hst & _ & Hinst & _); [reflexivity..|by vm_compute|reflexivity|].
    exists st. split; [exact Hst|]. apply Hinst. discriminate.
  - edestruct (status_compares_versions
                 (example_world "0.2.27" (Exits 0 (Text.no_break_space +:+ "0.2.27-beta.2") 20)))
      as (st & Hst & Hout & _); [reflexivity..|by vm_compute|reflexivity|].
    exists st. split; [exact Hst|]. apply Hout. reflexivity.
  - edestruct (status_compares_versions
                 (example_world "1.0.0-rc.9" (Exits 0 "1.0.0-rc.10" 20)))
      as (st & Hst & _ & Hinst & _); [reflexivity..|by vm_compute|reflexivity|].
    exists st. split; [exact Hst|]. apply Hinst. discriminate.
Defined.

(** C6, counterexample.  The version query has no timeout.  A binary
    that is executable and answers after a day is waited for, and the
    state is "installed"; with one that never exits the query returns
    no state at all, so none that is "error". *)
Lemma slow_version_query_is_not_error :
  (∃ st, getInstallationStatus (example_world "0.2.27" (Exits 0 "0.2.27" 86400000))
         = Resolved st ∧ state_of st = Installed)
  ∧ ¬ ∃ st, getInstallationStatus (example_world "0.2.27" Hangs) = Resolved st
            ∧ state_of st = Error.
Proof. split; [by eexists|]. by intros (st & Hst & _). Qed.

(** C6, as amended.  The binary is there and executable.  When the
    version command exits with a code that is not 0, prints more than
    the buffer of [exec] holds, or prints a text that does not parse as
    a version, the state is "error", with the install path and the
    plugin version; a binary that does not exit leaves the query
    pending, as there is no timeout.  The state is then never
    "not installed", which any status query answers only when the
    executable-access check fails. *)
Theorem version_query_failure_is_error w pv info :
  Semver.valid (Semver.clean (manifest_version w)) = Some pv →
  truthy (getLocalRestApiKey w) = true →
  getInstallPath w = Resolved (inl info) →
  access_X_OK w (path info) = true →
  (∀ code stdout after_ms,
     run w (versionCommand (path info)) = Exits code stdout after_ms →
     code ≠ 0%Z ∨ (default_maxBuffer < N.of_nat (String.length stdout))%N
     ∨ Semver.clean (Text.trim stdout) = None →
     getInstallationStatus w
     = Resolved {| state_of := Error; install_path := Some info;
                   versions_plugin := Some pv; versions_server := None;
                   error := None |})
  ∧ (run w (versionCommand (path info)) = Hangs → getInstallationStatus w = Pending)
  ∧ (∀ st, getInstallationStatus w = Resolved st → state_of st ≠ NotInstalled)
  ∧ (∀ w' st', getInstallationStatus w' = Resolved st' → state_of st' = NotInstalled →
       ∃ info', getInstallPath w' = Resolved (inl info')
                ∧ access_X_OK w' (path info') = false).
Proof.
  intros Hpv Hkey Hpath Hacc. split_and!.
  - intros code stdout after_ms Hrun Hfails. by eapply getInstallationStatus_failed.
  - intros Hrun. unfold getInstallationStatus. by rewrite Hpv, Hkey, Hpath, Hacc, Hrun.
  - unfold getInstallationStatus. rewrite Hpv, Hkey, Hpath, Hacc. cbn [negb]. cbv zeta.
    intros st. destruct (execAsync _) as [stdout| |]; [|by intros [= <-]|done].
    destruct (Semver.clean (Text.trim stdout)); [|by intros [= <-]].
    intros [= <-]. cbn. by destruct (Semver.lt _ _).
  - clear. intros w st. unfold getInstallationStatus.
    destruct (Semver.valid _); [|by intros [= <-]].
    destruct (negb (truthy _)); [by intros [= <-]|].
    destruct (getInstallPath w) as [[info|message]| |]; [|by intros [= <-]|done|done].
    destruct (access_X_OK w (path info)) eqn:Hacc; cbn [negb]; cbv zeta.
    + destruct (execAsync _) as [stdout| |]; [|by intros [= <-]|done].
      destruct (Semver.clean (Text.trim stdout)); [|by intros [= <-]].
      intros [= <-]. cbn. by destruct (Semver.lt _ _).
    + intros _ _. by exists info.
Qed.

(** A binary that prints the version and exits with code 1, one that
    prints no version, and one whose version has a number with a
    leading zero. *)
Lemma version_query_failure_examples :
  (∃ st, getInstallationStatus (example_world "0.2.27" (Exits 1 "0.2.27" 20)) = Resolved st
         ∧ state_of st = Error ∧ install_path st = Some example_info
         ∧ versions_server st = None)
  ∧ (∃ st, getInstallationStatus (example_world "0.2.27" (Exits 0 "usage: mcp-server" 20))
           = Resolved st ∧ state_of st = Error)
  ∧ (∃ st, getInstallationStatus (example_world "0.2.27" (Exits 0 "0.02.27" 20))
           = Resolved st ∧ state_of st = Error).
Proof.
  split_and!.
  - destruct (version_query_failure_is_error
                (example_world "0.2.27" (Exits 1 "0.2.27" 20))
                {| Semver.major := 0; Semver.minor := 2; Semver.patch := 27;
                   Semver.prerelease := [] |} example_info)
      as (Herr & _); [reflexivity..|].
    eexists. split; [eapply Herr; [reflexivity|by left]|]. done.
  - destruct (version_query_failure_is_error
                (example_world "0.2.27" (Exits 0 "usage: mcp-server" 20))
                {| Semver.major := 0; Semver.minor := 2; Semver.patch := 27;
                   Semver.prerelease := [] |} example_info)
      as (Herr & _); [reflexivity..|].
    eexists. split; [eapply Herr; [reflexivity|by right; right]|]. done.
  - destruct (version_query_failure_is_error
                (example_world "0.2.27" (Exits 0 "0.02.27" 20))
                {| Semver.major := 0; Semver.minor := 2; Semver.patch := 27;
                   Semver.prerelease := [] |} example_info)
      as (Herr & _); [reflexivity..|].
    eexists. split; [eapply Herr; [reflexivity|by right; right]|]. done.
Defined.

(** C9, counterexample.  The binary is executable and never exits: the
    status query never settles. *)
Lemma hanging_binary_stalls_status :
  getInstallationStatus (example_world "0.2.27" Hangs) = Pending.
Proof. reflexivity. Qed.

(** C9, as amended.  The version query is [exec] without a timeout.
    Once the checks before it have passed, the status query stays
    pending exactly when the binary never exits, and settles whenever it
    exits. *)
Theorem version_query_without_timeout w pv info :
  Semver.valid (Semver.clean (manifest_version w)) = Some pv →
  truthy (getLocalRestApiKey w) = true →
  getInstallPath w = Resolved (inl info) →
  access_X_OK w (path info) = true →
  (∀ child, execAsync child = exec 0 child)
  ∧ (getInstallationStatus w = Pending ↔ run w (versionCommand (path info)) = Hangs)
  ∧ (∀ code stdout after_ms,
       run w (versionCommand (path info)) = Exits code stdout after_ms →
       ∃ st, getInstallationStatus w = Resolved st).
Proof.
  intros Hpv Hkey Hpath Hacc. split; [done|].
  unfold getInstallationStatus. rewrite Hpv, Hkey, Hpath, Hacc. cbn [negb]. cbv zeta.
  split; [split|].
  - destruct (run w _) as [code stdout after_ms|]; [|done].
    unfold execAsync, exec, default_timeout. cbn [N.ltb N.compare andb].
    destruct (default_maxBuffer <? _)%N; [done|].
    destruct (code =? 0)%Z; [|done]. by destruct (Semver.clean (Text.trim stdout)).
  - by intros ->.
  - intros code stdout after_ms ->.
    unfold execAsync, exec, default_timeout. cbn [N.ltb N.compare andb].
    destruct (default_maxBuffer <? _)%N; [by eexists|].
    destruct (code =? 0)%Z; [|by eexists]. destruct (Semver.clean (Text.trim stdout)); by eexists.
Qed.

Lemma version_query_without_timeout_example :
  getInstallationStatus (example_world "0.2.27" Hangs) = Pending
  ∧ ∃ st, getInstallationStatus (example_world "0.2.27" (Exits 0 "0.2.27" 3600000)) = Resolved st.
Proof.
  split.
  - destruct (version_query_without_timeout (example_world "0.2.27" Hangs)
                {| Semver.major := 0; Semver.minor := 2; Semver.patch := 27;
                   Semver.prerelease := [] |} example_info)
      as (_ & Hpending & _); [reflexivity..|].
    apply Hpending. reflexivity.
  - destruct (version_query_without_timeout
                (example_world "0.2.27" (Exits 0 "0.2.27" 3600000))
                {| Semver.major := 0; Semver.minor := 2; Semver.patch := 27;
                   Semver.prerelease := [] |} example_info)
      as (_ & _ & Hsettles); [reflexivity..|].
    eapply Hsettles. reflexivity.
Defined.

(** **** The semver model on examples, and the early states *)

Example semver_examples :
  Semver.clean "  =v1.2.3  "
  = Some {| Semver.major := 1; Semver.minor := 2; Semver.patch := 3;
            Semver.prerelease := [] |}
  ∧ Semver.clean "1.2.3-beta.1+build.5"
    = Some {| Semver.major := 1; Semver.minor := 2; Semver.patch := 3;
              Semver.prerelease := [Semver.Alphanumeric "beta"; Semver.Numeric 1] |}
  ∧ Semver.clean "1.2" = None
  ∧ Semver.clean "01.2.3" = None
  ∧ Semver.clean "1.2.3-01" = None
  ∧ Semver.clean "not a version" = None
  ∧ (a ← Semver.clean "1.0.0-alpha"; b ← Semver.clean "1.0.0"; Some (Semver.lt a b))
    = Some true
  ∧ (a ← Semver.clean "1.0.0-alpha.1"; b ← Semver.clean "1.0.0-alpha.beta";
     Some (Semver.lt a b)) = Some true
  ∧ (a ← Semver.clean "1.10.0"; b ← Semver.clean "1.9.0"; Some (Semver.lt a b))
    = Some false.
Proof. by vm_compute. Qed.

(** All-digit identifiers from 2^53 on are compared as doubles: 2^53 and
    2^53 + 1 are the same double, and the comparison stops there with
    0; 2^53 + 2 is the next one. *)
Example semver_doubles :
  (a ← Semver.clean "1.0.0-9007199254740992.1";
   b ← Semver.clean "1.0.0-9007199254740993.2"; Some (Semver.compare a b)) = Some Eq
  ∧ (a ← Semver.clean "1.0.0-9007199254740993";
     b ← Semver.clean "1.0.0-9007199254740994"; Some (Semver.compare a b)) = Some Lt
  ∧ (a ← Semver.clean "1.0.0-9007199254740991";
     b ← Semver.clean "1.0.0-9007199254740992"; Some (Semver.compare a b)) = Some Lt
  ∧ Semver.clean "9007199254740992.0.0" = None.
Proof. by vm_compute. Qed.

(** [trim] removes the white space of JS, [length] counts UTF-16 code
    units, [parseInt] answers doubles. *)
Example text_examples :
  Text.trim (Text.no_break_space +:+ " 0.2.27" +:+ newline +:+ Text.ideographic_space) = "0.2.27"
  ∧ Text.trim ("a" +:+ Text.no_break_space +:+ "b ") = "a" +:+ Text.no_break_space +:+ "b"
  ∧ Text.utf16_length (Text.no_break_space +:+ "ab" +:+ Text.ideographic_space) = 4
  ∧ Semver.clean ("=" +:+ Text.ideographic_space +:+ "1.2.3")
    = Some {| Semver.major := 1; Semver.minor := 2; Semver.patch := 3;
              Semver.prerelease := [] |}
  ∧ Text.parseInt10 "4096" = Text.Finite false 4096
  ∧ Text.parseInt10 " 12abc" = Text.Finite false 12
  ∧ Text.parseInt10 "-5" = Text.Finite true 5
  ∧ Text.parseInt10 "-0" = Text.Finite true 0
  ∧ Text.parseInt10 "abc" = Text.NaN
  ∧ Text.parseInt10 "9007199254740993" = Text.Finite false 9007199254740992
  ∧ Text.parseInt10 "9007199254740995" = Text.Finite false 9007199254740996
  ∧ Text.to_double (2 ^ 1024 - 2 ^ 970 - 1) = Some (2 ^ 1024 - 2 ^ 971)%N
  ∧ Text.to_double (2 ^ 1024 - 2 ^ 970) = None.
Proof. by vm_compute. Qed.

(** A malformed plugin version is an error whatever else holds; a
    missing API key is "no api key" whether the binary is there or not. *)
Example early_states :
  (∃ st, getInstallationStatus (example_world "latest" (Exits 0 "0.2.27" 20)) = Resolved st
         ∧ state_of st = Error)
  ∧ (∀ path_answer access child,
       ∃ st, getInstallationStatus
               {| manifest_version := "0.2.27"; getLocalRestApiKey := None;
                  getInstallPath := path_answer; access_X_OK := access;
                  run := child |} = Resolved st
             ∧ state_of st = NoApiKey).
Proof. split; [by eexists|]. intros. by eexists. Qed.

End StatusFacts.

(** ** Platform and architecture *)

Section PlatformFacts.
Import Settings Platform.

(** A non-empty override is returned as it is, by both functions. *)
Lemma getPlatform_override os_platform plugin custom :
  field customPlatform plugin = Some custom → custom ≠ "" →
  getPlatform os_platform (Some plugin) = custom.
Proof.
  intros Hcustom Hne. unfold getPlatform. cbn. rewrite Hcustom. cbn.
  apply String.eqb_neq in Hne. by rewrite Hne.
Qed.

Lemma getArch_override os_arch plugin custom :
  field customArch plugin = Some custom → custom ≠ "" →
  getArch os_arch (Some plugin) = custom.
Proof.
  intros Hcustom Hne. unfold getArch. cbn. rewrite Hcustom. cbn.
  apply String.eqb_neq in Hne. by rewrite Hne.
Qed.

(** Without an override the detected OS is mapped into the enum, with
    "linux" for what is not recognized. *)
Lemma getPlatform_detected os_platform plugin :
  truthy (plugin ≫= field customPlatform) = false →
  (getPlatform os_platform plugin ∈ PLATFORM_TYPES)
  ∧ (os_platform ≠ "darwin" → os_platform ≠ "win32" →
     getPlatform os_platform plugin = "linux").
Proof.
  intros Hnone. unfold getPlatform. rewrite Hnone. split.
  - destruct (String.eqb os_platform "darwin"); [by apply (bool_decide_unpack _)|].
    destruct (String.eqb os_platform "win32"); by apply (bool_decide_unpack _).
  - intros Hd%String.eqb_neq Hw%String.eqb_neq. by rewrite Hd, Hw.
Qed.

(** Without an override the detected CPU name is returned as it is. *)
Lemma getArch_detected os_arch plugin :
  truthy (plugin ≫= field customArch) = false →
  getArch os_arch plugin = os_arch.
Proof. intros Hnone. unfold getArch. by rewrite Hnone. Qed.

(** C8, at the failing input.  On a 32-bit x86 host, where [os.arch()]
    answers "ia32", [getArch] without an override returns "ia32", which
    is not a member of the [Arch] enum: the detected CPU is cast, not
    mapped. *)
Theorem getArch_returns_unmapped_cpu :
  ("ia32" ∈ NODE_ARCHS)
  ∧ getArch "ia32" None = "ia32"
  ∧ (getArch "ia32" None ∉ ARCH_TYPES)
  ∧ (getPlatform "freebsd" None ∈ PLATFORM_TYPES).
Proof. split_and!; by apply (bool_decide_unpack _). Qed.

(** **** The tests of install.test.ts *)

Example getPlatform_tests :
  getPlatform "darwin" None = "macos"
  ∧ getPlatform "win32" None = "windows"
  ∧ getPlatform "linux" (Some Config.plain_plugin) = "linux"
  ∧ getPlatform "win32" (Some Config.wsl_plugin) = "linux"
  ∧ getArch "arm64" (Some Config.wsl_plugin) = "arm64"
  ∧ getArch "x64" None = "x64".
Proof. by vm_compute. Qed.

End PlatformFacts.

(** ** The host launcher configuration *)

Section ConfigFacts.
Import Settings Config.

(** **** Induction on JSON values, and what is read back *)

Lemma json_size_member (members : gmap string json) key v :
  members !! key = Some v → json_size v < json_size (JObj members).
Proof.
  intros Hv. cbn [json_size].
  rewrite (map_fold_delete_L _ _ key v members); [lia| |done].
  intros. lia.
Qed.

Lemma json_size_item (items : list json) v :
  v ∈ items → json_size v < json_size (JArr items).
Proof.
  cbn [json_size]. induction items as [|x items IH]; [by intros ?%elem_of_nil|].
  intros [->|Hin]%elem_of_cons; cbn; [lia|]. specialize (IH Hin). lia.
Qed.

(** A property holds of every value when it holds of the values that
    have no parts, of an array whose items have it, and of an object
    whose members have it. *)
Lemma json_induction (P : json → Prop) :
  P JNull → (∀ b, P (JBool b)) → (∀ x, P (JNum x)) → (∀ s, P (JStr s)) →
  (∀ items, Forall P items → P (JArr items)) →
  (∀ members, map_Forall (λ _, P) members → P (JObj members)) →
  ∀ v, P v.
Proof.
  intros Hnull Hbool Hnum Hstr Harr Hobj v.
  remember (json_size v) as n eqn:Hn. revert v Hn.
  induction (lt_wf n) as [n _ IH]. intros v ->.
  destruct v as [|b|x|s|items|members]; try done.
  - apply Harr. apply Forall_forall. intros v Hv.
    by apply (IH (json_size v)); [apply json_size_item|].
  - apply Hobj. intros key v Hv.
    by apply (IH (json_size v)); [eapply json_size_member|].
Qed.

Lemma read_back_idempotent v : read_back (read_back v) = read_back v.
Proof.
  induction v as [|b|x|s|items IH|members IH] using json_induction; try done.
  - by destruct x.
  - cbn [read_back]. f_equal. rewrite <-list_fmap_compose.
    apply list_fmap_ext. intros i v Hv. cbn.
    eapply (proj1 (Forall_forall _ _) IH). by eapply list_elem_of_lookup_2.
  - cbn [read_back]. f_equal. rewrite <-map_fmap_compose.
    apply map_fmap_ext. intros key v Hv. cbn. by eapply IH.
Qed.

Lemma writable_member (members : gmap string json) key v :
  writable (JObj members) = true → members !! key = Some v → writable v = true.
Proof.
  cbn [writable]. intros Hall Hv.
  rewrite (map_fold_delete_L _ _ key v members) in Hall; [| |done].
  - by apply andb_prop in Hall as [? _].
  - intros. by destruct (writable z1), (writable z2).
Qed.

(** A value whose numbers JSON writes is read back as it was. *)
Lemma read_back_writable v : writable v = true → read_back v = v.
Proof.
  induction v as [|b|x|s|items IH|members IH] using json_induction; try done.
  - by destruct x as [[]| | |].
  - cbn [read_back writable]. intros Hall. f_equal.
    rewrite <-(list_fmap_id items) at 2. apply list_fmap_ext. intros i v Hv. cbn.
    apply (proj1 (Forall_forall _ _) IH); [by eapply list_elem_of_lookup_2|].
    eapply (proj1 (forallb_forall _ _) Hall). apply list_elem_of_In.
    by eapply list_elem_of_lookup_2.
  - intros Hall. cbn [read_back]. f_equal.
    rewrite <-(map_fmap_id members) at 2. apply map_fmap_ext. intros key v Hv. cbn.
    eapply IH; [done|]. by eapply writable_member.
Qed.

Lemma read_back_entry_json entry : read_back (entry_json entry) = entry_json entry.
Proof.
  unfold entry_json. cbn [read_back]. f_equal.
  rewrite !fmap_insert, fmap_empty. cbn [read_back]. do 3 f_equal.
  rewrite <-map_fmap_compose. by apply map_fmap_ext.
Qed.

(** **** The document an upsert writes *)

Lemma set_server_entry_object members entry :
  has_servers_object (Document (JObj members)) = true →
  set_server_entry (JObj members) entry
  = Some (JObj (<["mcpServers" :=
                   JObj (<[SERVER_ID := entry_json entry]>
                         (servers_before (Document (JObj members))))]> members)).
Proof.
  unfold has_servers_object, servers_before, members_before, set_server_entry.
  destruct (members !! "mcpServers") as [[|b|n|s|items|servers]|]; cbn; try done.
  - by intros ->%negb_true_iff.
  - by intros ->%negb_true_iff.
  - by intros ->%negb_true_iff.
Qed.

(** The document an upsert writes, when the file is missing or has a
    usable [mcpServers] member and the writes succeed. *)
Lemma updateClaudeConfig_written fs plugin serverPath apiKey :
  mkdir_error fs = None → writeFile_error fs = None →
  has_servers_object (file fs) = true →
  updateClaudeConfig fs plugin serverPath apiKey
  = Written (JObj (<["mcpServers" :=
                     JObj (<[SERVER_ID := entry_json (build_entry plugin serverPath apiKey)]>
                           (read_back <$> servers_before (file fs)))]>
                   (read_back <$> members_before (file fs)))).
Proof.
  intros Hmkdir Hwrite Hshape. unfold updateClaudeConfig. rewrite Hmkdir, Hwrite.
  destruct (file fs) as [| | |[| | | | |members]] eqn:Hfile; try done.
  - cbn [set_server_entry]. rewrite lookup_singleton_eq. cbn [json_truthy read_back].
    rewrite insert_singleton_eq, map_fmap_singleton. cbn [read_back].
    rewrite fmap_insert, fmap_empty, read_back_entry_json.
    unfold servers_before, members_before. rewrite lookup_empty, !fmap_empty.
    by rewrite (insert_empty (M := gmap string) "mcpServers").
  - rewrite set_server_entry_object by done. cbn [read_back].
    rewrite fmap_insert. cbn [read_back]. by rewrite fmap_insert, read_back_entry_json.
Qed.

(** The [env] record, member by member: a custom variable other than
    [__proto__], else the non-empty custom host under OBSIDIAN_HOST and
    the API key, defined or not, under OBSIDIAN_API_KEY. *)
Lemma build_env_lookup plugin apiKey key :
  build_env plugin apiKey !! key
  = match vars ← settings plugin ≫= customEnvVars;
          if String.eqb key "__proto__" then None else vars !! key with
    | Some value => Some (Some value)
    | None =>
        if String.eqb key "OBSIDIAN_HOST" then
          match settings plugin ≫= customHost with
          | Some host => if String.eqb host "" then None else Some (Some host)
          | None => None
          end
        else if String.eqb key "OBSIDIAN_API_KEY" then Some apiKey
        else None
    end.
Proof.
  unfold build_env, field.
  assert (((if truthy (settings plugin ≫= customHost)
            then <["OBSIDIAN_HOST" := settings plugin ≫= customHost]> {[ "OBSIDIAN_API_KEY" := apiKey ]}
            else {[ "OBSIDIAN_API_KEY" := apiKey ]}) : gmap string (option string)) !! key
          = if String.eqb key "OBSIDIAN_HOST" then
              match settings plugin ≫= customHost with
              | Some host => if String.eqb host "" then None else Some (Some host)
              | None => None
              end
            else if String.eqb key "OBSIDIAN_API_KEY" then Some apiKey
            else None) as Hdefault.
  { unfold truthy. destruct (String.eqb_spec key "OBSIDIAN_HOST") as [->|Hhost].
    - destruct (settings plugin ≫= customHost) as [host|]; [|done].
      destruct (String.eqb host ""); cbn [negb]; [done|]. by rewrite lookup_insert_eq.
    - assert (((if match settings plugin ≫= customHost with
                       | Some s => negb (String.eqb s "")
                       | None => false
                       end
                then <["OBSIDIAN_HOST" := settings plugin ≫= customHost]> {[ "OBSIDIAN_API_KEY" := apiKey ]}
                else {[ "OBSIDIAN_API_KEY" := apiKey ]}) : gmap string (option string)) !! key
              = ({[ "OBSIDIAN_API_KEY" := apiKey ]} : gmap string (option string)) !! key) as ->.
      { destruct (match settings plugin ≫= customHost with Some _ => _ | None => _ end);
          [|done]. by rewrite lookup_insert_ne. }
      destruct (String.eqb_spec key "OBSIDIAN_API_KEY") as [->|Hkey].
      + by rewrite lookup_singleton_eq.
      + by rewrite lookup_singleton_ne. }
  destruct (settings plugin ≫= customEnvVars) as [vars|] eqn:Hvars; cbn [mbind option_bind];
    [|exact Hdefault].
  destruct (String.eqb_spec key "__proto__") as [->|Hproto].
  - rewrite lookup_union_r; [exact Hdefault|]. by rewrite lookup_fmap, lookup_delete_eq.
  - destruct (vars !! key) as [value|] eqn:Hvalue.
    + apply lookup_union_Some_l. by rewrite lookup_fmap, lookup_delete_ne, Hvalue.
    + rewrite lookup_union_r; [exact Hdefault|].
      by rewrite lookup_fmap, lookup_delete_ne, Hvalue.
Qed.

(** The [env] record always has the API key member. *)
Lemma build_env_has_api_key plugin apiKey :
  is_Some (build_env plugin apiKey !! "OBSIDIAN_API_KEY").
Proof.
  rewrite build_env_lookup. cbn [String.eqb Ascii.eqb Bool.eqb].
  by destruct (_ ≫= _).
Qed.

(** C4, counterexample.  (1) A config file whose [mcpServers] is an
    array, as some writers emit for an empty dictionary: the upsert
    succeeds and the file read back still has the empty array, without
    any entry.  (2) An upsert without an API key on a missing file: the
    upserted [env] has the member OBSIDIAN_API_KEY (holding [undefined]),
    the [env] read back has no member at all.  (3) A config file that
    holds the numbers 1e999 and -0, which are parsed as Infinity and as
    the negative zero: they are read back as [null] and as 0, at the
    top level and in the entry of another server. *)
Lemma upsert_entry_not_read_back :
  updateClaudeConfig (example_fs (Document (JObj {[ "mcpServers" := JArr [] ]})))
                     plain_plugin "/bin/mcp-server" (Some "key")
  = Written (JObj {[ "mcpServers" := JArr [] ]})
  ∧ updateClaudeConfig (example_fs Absent) plain_plugin "/bin/mcp-server" None
    = Written (JObj {[ "mcpServers" :=
                 JObj {[ SERVER_ID :=
                   JObj {[ "command" := JStr "/bin/mcp-server"; "env" := JObj ∅ ]} ]} ]})
  ∧ env (build_entry plain_plugin "/bin/mcp-server" None) !! "OBSIDIAN_API_KEY"
    = Some None
  ∧ updateClaudeConfig (example_fs (Document numbers_document)) plain_plugin
                       "/bin/mcp-server" (Some "key")
    = Written (JObj {[ "zoom" := one_and_a_half;
                       "limit" := JNull;
                       "offset" := zero;
                       "mcpServers" :=
                         JObj {[ "other" := JObj {[ "command" := JStr "node";
                                                    "timeout" := JNull ]};
                                 SERVER_ID :=
                                   JObj {[ "command" := JStr "/bin/mcp-server";
                                           "env" := JObj {[ "OBSIDIAN_API_KEY" :=
                                                              JStr "key" ]} ]} ]} ]}).
Proof. split_and!; by vm_compute. Qed.

(** C4, as amended.  The file is missing or holds an object whose
    [mcpServers] member is missing, falsy or an object, and the
    directory and the file can be written.  Then the upsert succeeds and
    the document read back has, under [mcpServers], the entry as JSON
    keeps it (the [env] members that hold [undefined] left out) at the
    server id, every other server entry and every other top-level
    member as JSON writes it: unchanged when all its numbers are finite
    and none is the negative zero, and otherwise with [null] for a
    number that is not finite and 0 for the negative zero.  A missing
    file gives exactly [{ mcpServers: { id: entry } }]. *)
Theorem upsert_round_trip fs plugin serverPath apiKey :
  mkdir_error fs = None → writeFile_error fs = None →
  has_servers_object (file fs) = true →
  ∃ members servers,
    updateClaudeConfig fs plugin serverPath apiKey = Written (JObj members)
    ∧ members !! "mcpServers" = Some (JObj servers)
    ∧ servers !! SERVER_ID = Some (entry_json (build_entry plugin serverPath apiKey))
    ∧ (∀ id, id ≠ SERVER_ID →
         servers !! id = read_back <$> servers_before (file fs) !! id)
    ∧ (∀ key, key ≠ "mcpServers" →
         members !! key = read_back <$> members_before (file fs) !! key)
    ∧ (∀ id v, id ≠ SERVER_ID → servers_before (file fs) !! id = Some v →
         writable v = true → servers !! id = Some v)
    ∧ (∀ key v, key ≠ "mcpServers" → members_before (file fs) !! key = Some v →
         writable v = true → members !! key = Some v)
    ∧ (file fs = Absent →
       members = {[ "mcpServers" :=
                    JObj {[ SERVER_ID := entry_json (build_entry plugin serverPath apiKey) ]} ]}).
Proof.
  intros Hmkdir Hwrite Hshape.
  rewrite updateClaudeConfig_written by done.
  eexists _, _. split; [done|]. split_and!.
  - by rewrite lookup_insert_eq.
  - by rewrite lookup_insert_eq.
  - intros id Hid. by rewrite lookup_insert_ne, lookup_fmap.
  - intros key Hkey. by rewrite lookup_insert_ne, lookup_fmap.
  - intros id v Hid Hv Hwritable.
    by rewrite lookup_insert_ne, lookup_fmap, Hv; [cbn; rewrite read_back_writable|].
  - intros key v Hkey Hv Hwritable.
    by rewrite lookup_insert_ne, lookup_fmap, Hv; [cbn; rewrite read_back_writable|].
  - intros ->. cbn. by rewrite !fmap_empty, !insert_empty.
Qed.

(** An upsert with the WSL settings on the example document: the other
    server and the host's own key are read back unchanged.  An upsert
    on the document with numbers: 1.5 is read back unchanged, 1e999 as
    [null]. *)
Lemma upsert_round_trip_example :
  (∃ members servers,
     updateClaudeConfig (example_fs (Document example_document)) wsl_plugin
                        "/bin/mcp-server" (Some "key") = Written (JObj members)
     ∧ members !! "mcpServers" = Some (JObj servers)
     ∧ servers !! SERVER_ID
       = Some (JObj {[ "command" := JStr "wsl.exe";
                       "env" := JObj {[ "OBSIDIAN_API_KEY" := JStr "key";
                                        "OBSIDIAN_HOST" := JStr "127.0.0.1";
                                        "CUSTOM_VAR" := JStr "value" ]} ]})
     ∧ servers !! "other" = Some other_server
     ∧ members !! "theme" = Some (JStr "dark"))
  ∧ (∃ members servers,
       updateClaudeConfig (example_fs (Document numbers_document)) proto_plugin
                          "/bin/mcp-server" (Some "key") = Written (JObj members)
       ∧ members !! "mcpServers" = Some (JObj servers)
       ∧ servers !! SERVER_ID
         = Some (JObj {[ "command" := JStr "/bin/mcp-server";
                         "env" := JObj {[ "OBSIDIAN_API_KEY" := JStr "key";
                                          "OBSIDIAN_HOST" := JStr "localhost" ]} ]})
       ∧ members !! "zoom" = Some one_and_a_half
       ∧ members !! "limit" = Some JNull
       ∧ members !! "offset" = Some zero).
Proof.
  split.
  - destruct (upsert_round_trip (example_fs (Document example_document)) wsl_plugin
                "/bin/mcp-server" (Some "key"))
      as (members & servers & Hwritten & Hservers & Hentry & _ & _ & Hothers & Hkeys & _);
      [reflexivity..|].
    exists members, servers. split; [exact Hwritten|]. split; [exact Hservers|]. split_and!.
    + rewrite Hentry. by vm_compute.
    + by apply Hothers.
    + by apply Hkeys.
  - destruct (upsert_round_trip (example_fs (Document numbers_document)) proto_plugin
                "/bin/mcp-server" (Some "key"))
      as (members & servers & Hwritten & Hservers & Hentry & _ & Hread & _ & Hkeys & _);
      [reflexivity..|].
    exists members, servers. split; [exact Hwritten|]. split; [exact Hservers|]. split_and!.
    + rewrite Hentry. by vm_compute.
    + by apply Hkeys.
    + rewrite Hread; [|discriminate]. by vm_compute.
    + rewrite Hread; [|discriminate]. by vm_compute.
Defined.

(** C10, counterexample.  (1) A config file whose [mcpServers] is an
    array with an item: the upsert succeeds, and the document written
    has that array and no entry of this plugin at all.  (2) An upsert
    without an API key: the [env] that is written has no member
    OBSIDIAN_API_KEY. *)
Lemma upsert_without_written_entry :
  updateClaudeConfig
    (example_fs (Document (JObj {[ "mcpServers" := JArr [JStr "legacy"] ]})))
    wsl_plugin "/bin/mcp-server" (Some "key")
  = Written (JObj {[ "mcpServers" := JArr [JStr "legacy"] ]})
  ∧ ∃ members servers fields env,
      updateClaudeConfig (example_fs (Document example_document)) plain_plugin
                         "/bin/mcp-server" None = Written (JObj members)
      ∧ members !! "mcpServers" = Some (JObj servers)
      ∧ servers !! SERVER_ID = Some (JObj fields)
      ∧ fields !! "env" = Some (JObj env)
      ∧ env !! "OBSIDIAN_API_KEY" = None.
Proof.
  split; [by vm_compute|].
  eexists _, _, _, _. split; [by vm_compute|]. split_and!; by vm_compute.
Qed.

(** C10, as amended.  The file is missing or holds an object whose
    [mcpServers] member is missing, falsy or an object, and the
    directory and the file can be written.  The entry written under the
    server id has the members [command] and [env] and no other,
    whatever an older entry held (an [args] array is gone).  [command]
    is the custom command of the settings when that is not empty, and
    the server path otherwise.  The [env] written holds, under each
    name, the custom variable of that name, except under [__proto__];
    where there is none, OBSIDIAN_HOST holds the custom host when that
    is not empty, OBSIDIAN_API_KEY holds the API key when it is
    defined, and any other name holds nothing.  The [env] record in
    memory always has the member OBSIDIAN_API_KEY. *)
Theorem upsert_entry_fields fs plugin serverPath apiKey :
  mkdir_error fs = None → writeFile_error fs = None →
  has_servers_object (file fs) = true →
  ∃ members servers fields written_env,
    updateClaudeConfig fs plugin serverPath apiKey = Written (JObj members)
    ∧ members !! "mcpServers" = Some (JObj servers)
    ∧ servers !! SERVER_ID = Some (JObj fields)
    ∧ (∀ key, is_Some (fields !! key) ↔ key = "command" ∨ key = "env")
    ∧ fields !! "command"
      = Some (JStr match settings plugin ≫= customCommand with
                   | Some custom => if String.eqb custom "" then serverPath else custom
                   | None => serverPath
                   end)
    ∧ fields !! "env" = Some (JObj written_env)
    ∧ (∀ key,
         written_env !! key
         = JStr <$>
           match vars ← settings plugin ≫= customEnvVars;
                 if String.eqb key "__proto__" then None else vars !! key with
           | Some value => Some value
           | None =>
               if String.eqb key "OBSIDIAN_HOST" then
                 match settings plugin ≫= customHost with
                 | Some host => if String.eqb host "" then None else Some host
                 | None => None
                 end
               else if String.eqb key "OBSIDIAN_API_KEY" then apiKey
               else None
           end)
    ∧ is_Some (build_env plugin apiKey !! "OBSIDIAN_API_KEY").
Proof.
  intros Hmkdir Hwrite Hshape.
  rewrite updateClaudeConfig_written by done.
  eexists _, _, _, _. split; [done|].
  split; [by rewrite lookup_insert_eq|]. split; [by rewrite lookup_insert_eq|].
  split_and!.
  - intros key. split.
    + intros Hsome. destruct (decide (key = "command")) as [|Hcommand]; [by left|].
      destruct (decide (key = "env")) as [|Henv]; [by right|].
      rewrite !lookup_insert_ne, lookup_empty in Hsome by done. by destruct Hsome.
    + intros [-> | ->]; [by rewrite lookup_insert_eq|].
      by rewrite lookup_insert_ne, lookup_insert_eq.
  - rewrite lookup_insert_eq. unfold build_entry, build_command, or_else, field. cbn.
    by destruct (settings plugin ≫= customCommand).
  - by rewrite lookup_insert_ne, lookup_insert_eq.
  - intros key. cbn [env build_entry].
    rewrite lookup_fmap, lookup_omap, build_env_lookup.
    destruct (mbind (A := gmap string string) _ _) as [value|]; [done|].
    destruct (String.eqb key "OBSIDIAN_HOST").
    + destruct (settings plugin ≫= customHost) as [host|]; [|done].
      by destruct (String.eqb host "").
    + by destruct (String.eqb key "OBSIDIAN_API_KEY").
  - apply build_env_has_api_key.
Qed.

(** The example document has an older entry with an [args] array; after
    the upsert with the WSL settings the entry has [command] and [env]
    only, with the custom command, host and variable.  With custom
    variables named [__proto__] and OBSIDIAN_HOST, an empty custom
    command and no API key, on a missing file: the first variable and
    the API key are not written, the second one replaces the custom
    host, and the command is the server path. *)
Lemma upsert_entry_fields_example :
  Config.older_entry
  = JObj {[ "command" := JStr "/old/mcp-server"; "args" := JArr [JStr "--stdio"];
            "env" := JObj {[ "OBSIDIAN_API_KEY" := JStr "old" ]} ]}
  ∧ (∃ members servers fields,
       updateClaudeConfig (example_fs (Document example_document)) wsl_plugin
                          "/bin/mcp-server" (Some "key") = Written (JObj members)
       ∧ members !! "mcpServers" = Some (JObj servers)
       ∧ servers !! SERVER_ID = Some (JObj fields)
       ∧ fields !! "command" = Some (JStr "wsl.exe")
       ∧ fields !! "env" = Some (JObj {[ "OBSIDIAN_API_KEY" := JStr "key";
                                         "OBSIDIAN_HOST" := JStr "127.0.0.1";
                                         "CUSTOM_VAR" := JStr "value" ]})
       ∧ fields !! "args" = None)
  ∧ (∃ members servers fields written_env,
       updateClaudeConfig (example_fs Absent) proto_plugin "/bin/mcp-server" None
       = Written (JObj members)
       ∧ members !! "mcpServers" = Some (JObj servers)
       ∧ servers !! SERVER_ID = Some (JObj fields)
       ∧ fields !! "command" = Some (JStr "/bin/mcp-server")
       ∧ fields !! "env" = Some (JObj written_env)
       ∧ written_env !! "OBSIDIAN_HOST" = Some (JStr "localhost")
       ∧ written_env !! "__proto__" = None
       ∧ written_env !! "OBSIDIAN_API_KEY" = None).
Proof.
  split; [reflexivity|]. split.
  - destruct (upsert_entry_fields (example_fs (Document example_document)) wsl_plugin
                "/bin/mcp-server" (Some "key"))
      as (members & servers & fields & written_env
          & Hwritten & Hs & Hentry & Hfields & Hcommand & Henv & Hvars & _);
      [reflexivity..|].
    exists members, servers, fields. split; [exact Hwritten|]. split; [exact Hs|].
    split; [exact Hentry|]. split; [exact Hcommand|]. split.
    + rewrite Henv. do 2 f_equal. apply map_eq. intros key. rewrite Hvars.
      destruct (decide (key = "CUSTOM_VAR")) as [->|Hcustom]; [done|].
      destruct (decide (key = "OBSIDIAN_HOST")) as [->|Hhost]; [done|].
      destruct (decide (key = "OBSIDIAN_API_KEY")) as [->|Hkey]; [done|].
      rewrite !lookup_insert_ne, lookup_singleton_ne by done. cbn.
      apply String.eqb_neq in Hhost, Hkey. rewrite Hhost, Hkey.
      destruct (String.eqb key "__proto__"); [done|].
      by rewrite lookup_singleton_ne.
    + destruct (fields !! "args") eqn:Hargs; [|done].
      by destruct (proj1 (Hfields "args") ltac:(by eexists)).
  - destruct (upsert_entry_fields (example_fs Absent) proto_plugin "/bin/mcp-server" None)
      as (members & servers & fields & written_env
          & Hwritten & Hs & Hentry & Hfields & Hcommand & Henv & Hvars & _);
      [reflexivity..|].
    exists members, servers, fields, written_env. split; [exact Hwritten|].
    split; [exact Hs|]. split; [exact Hentry|]. split; [exact Hcommand|].
    split; [exact Henv|]. split_and!; by rewrite Hvars.
Defined.

End ConfigFacts.

(** ** The downloader *)

Section DownloadFacts.
Import Settings Download.

(** The recursion never runs out of rounds: [downloadFile] always
    returns. *)
Lemma download_from_total fuel w url redirects st :
  6 - redirects < fuel → is_Some (download_from fuel w url redirects st).
Proof.
  revert url redirects st. induction fuel as [|fuel IH]; intros url redirects st Hfuel;
    [lia|].
  cbn [download_from]. destruct (5 <? redirects) eqn:Hr; [done|].
  apply Nat.ltb_ge in Hr.
  destruct (get w url) as [message|r]; [done|].
  destruct (400 <=? _); [done|]. destruct (_ || _).
  - destruct (truthy (location r)); [|done]. apply IH. lia.
  - destruct (negb _); [done|]. destruct (content_total r); [|done].
    by destruct (createWriteStream w).
Qed.

Lemma downloadFile_total w url redirects st :
  is_Some (downloadFile w url redirects st).
Proof. apply download_from_total. lia. Qed.

(** While [redirects <= 5], one call is one round of the body, and the
    call it makes for a redirect is [downloadFile] again. *)
Lemma downloadFile_unfold w url redirects st :
  redirects ≤ 5 →
  downloadFile w url redirects st
  = let st := add_request url st in
    match get w url with
    | Refused message => Some (snd (fail w (NetworkError message) None st))
    | Response r =>
        let code := default 0 (statusCode r) in
        if 400 <=? code then
          Some (snd (fail w (HttpError code (statusMessage r)) None st))
        else if (code =? 302) || (code =? 301) then
          if truthy (location r)
          then downloadFile w (default "" (location r)) (redirects + 1) st
          else Some (snd (fail w (RedirectWithoutLocation code) None st))
        else if negb (code =? 200) then
          Some (snd (fail w (UnexpectedStatus code) None st))
        else
          match content_total r with
          | None => Some (snd (fail w InvalidContentLength None st))
          | Some total =>
              match createWriteStream w with
              | Throws message =>
                  Some (snd (fail w (WriteStreamFailed message) None st))
              | Opens =>
                  Some (snd (foldl (λ s ev, on_event w total ev s)
                                   (Open, 0, set_file (Some "") st) (events r)))
              | OpenFails =>
                  Some (snd (foldl (λ s ev, on_event w total ev s)
                                   (Unopened, 0, st) (events r)))
              end
          end
    end.
Proof.
  intros Hr. unfold downloadFile. cbn [download_from].
  replace (5 <? redirects) with false by (symmetry; apply Nat.ltb_ge; lia).
  by replace (6 - redirects) with (S (6 - (redirects + 1))) by lia.
Qed.

Lemma downloadFile_too_many w url redirects st :
  5 < redirects →
  downloadFile w url redirects st = Some (notify (Error TooManyRedirects) st).
Proof.
  intros Hr. unfold downloadFile. cbn [download_from].
  by replace (5 <? redirects) with true by (symmetry; apply Nat.ltb_lt; lia).
Qed.

Lemma downloadFile_redirect w url redirects st r code target :
  redirects ≤ 5 → get w url = Response r → statusCode r = Some code →
  code = 301 ∨ code = 302 → location r = Some target → target ≠ "" →
  downloadFile w url redirects st
  = downloadFile w target (redirects + 1) (add_request url st).
Proof.
  intros Hr Hget Hcode Hredirect Hloc Htarget.
  rewrite downloadFile_unfold by done. cbv zeta. rewrite Hget, Hcode, Hloc. cbn [default].
  apply String.eqb_neq in Htarget. unfold truthy. rewrite Htarget.
  by destruct Hredirect as [-> | ->].
Qed.

(** A chain of redirects from [hop i] on, entered with [redirects = i]:
    the URLs up to [hop 5] are requested, and the call for the next
    one fails before any request. *)
Lemma downloadFile_chain w (hop : nat → string) :
  (∀ i, i ≤ 5 → ∃ r code, (code = 301 ∨ code = 302)
                          ∧ get w (hop i) = Response r ∧ statusCode r = Some code
                          ∧ location r = Some (hop (S i))) →
  (∀ i, hop i ≠ "") →
  ∀ n i st, i + n = 6 →
    downloadFile w (hop i) i st
    = Some (notify (Error TooManyRedirects)
                   (foldl (λ s url, add_request url s) st (hop <$> seq i n))).
Proof.
  intros Hchain Hne n. induction n as [|n IH]; intros i st Hi.
  - cbn. apply downloadFile_too_many. lia.
  - destruct (Hchain i ltac:(lia)) as (r & code & Hcode & Hget & Hstatus & Hloc).
    rewrite (downloadFile_redirect w (hop i) i st r code (hop (S i)));
      [|lia|exact Hget|done..].
    replace (i + 1) with (S i) by lia. rewrite IH by lia. done.
Qed.

(** *** What the subscriber and the disk see of a failure *)

Lemma stopped_notify n st :
  stopped st = false →
  notifications (notify n st) = notifications st ++ [n]
  ∧ file (notify n st) = file st ∧ requests (notify n st) = requests st
  ∧ log (notify n st) = log st
  ∧ stopped (notify n st) = match n with Next _ => false | _ => true end.
Proof.
  intros Hlive. unfold notify. rewrite Hlive. cbn. split_and!; try done.
  unfold stopped. cbn. rewrite last_snoc. by destruct n.
Qed.

Lemma notify_stopped n st : stopped st = true → notify n st = st.
Proof. intros Hstopped. unfold notify. by rewrite Hstopped. Qed.

(** [cleanup(err)] and [subscriber.error]: the stream, if there is one,
    is destroyed; the file at the destination path is gone unless the
    unlink fails, and an unlink that fails, also for want of a file, is
    logged; a subscriber that is not stopped gets the error as its last
    notification; nothing is requested. *)
Lemma fail_effect w e fileStream st :
  ∃ st',
    fail w e fileStream st = ((λ _, Destroyed) <$> fileStream, st')
    ∧ file st' = (if unlink_fails w then file st else None)
    ∧ requests st' = requests st
    ∧ (stopped st = false →
       notifications st' = notifications st ++ [Error e] ∧ stopped st' = true)
    ∧ (stopped st = true → notifications st' = notifications st ∧ stopped st' = true)
    ∧ (∀ entry, entry ∈ log st → entry ∈ log st')
    ∧ (unlink_fails w = true ∨ file st = None → CleanupFailed ∈ log st')
    ∧ (unlink_fails w = false → is_Some (file st) → log st' = log st).
Proof.
  unfold fail, cleanup.
  assert (∀ st0, ∃ st',
            notify (Error e) st0 = st'
            ∧ file st' = file st0 ∧ requests st' = requests st0 ∧ log st' = log st0
            ∧ (stopped st0 = false →
               notifications st' = notifications st0 ++ [Error e] ∧ stopped st' = true)
            ∧ (stopped st0 = true → notifications st' = notifications st0 ∧ stopped st' = true))
    as Hnotify.
  { intros st0. eexists. split; [done|]. destruct (stopped st0) eqn:Hstopped.
    - rewrite notify_stopped by done. by split_and!.
    - destruct (stopped_notify (Error e) st0 Hstopped) as (? & ? & ? & ? & ?).
      by split_and!. }
  destruct (file st) as [content|] eqn:Hfile; [destruct (unlink_fails w) eqn:Hunlink|].
  - destruct (Hnotify (add_log CleanupFailed st))
      as (st' & -> & Hf & Hreq & Hlog & Hlive & Hstopped).
    exists st'. rewrite Hf, Hreq, Hlog. cbn. split_and!; try done.
    + intros entry Hin. apply elem_of_app. by left.
    + intros _. apply elem_of_app. right. by left.
  - destruct (Hnotify (set_file None st))
      as (st' & -> & Hf & Hreq & Hlog & Hlive & Hstopped).
    exists st'. rewrite Hf, Hreq, Hlog. cbn. split_and!; try done. by intros [|].
  - destruct (Hnotify (add_log CleanupFailed st))
      as (st' & -> & Hf & Hreq & Hlog & Hlive & Hstopped).
    exists st'. rewrite Hf, Hreq, Hlog. cbn. rewrite Hfile. split_and!; try done.
    + by destruct (unlink_fails w).
    + intros entry Hin. apply elem_of_app. by left.
    + intros _. apply elem_of_app. right. by left.
Qed.

(** C5, counterexample.  The server answers 302 with a Location header
    that is there and empty: the redirect is not followed.  The one
    request is the only one, and the subscriber gets the error of a
    redirect without a location. *)
Lemma empty_location_is_not_followed :
  get empty_location_world "https://host/bin"
  = Response {| statusCode := Some 302; statusMessage := "Found";
                location := Some ""; contentLength := None; events := [] |}
  ∧ downloadFile empty_location_world "https://host/bin" 0 initial
    = Some {| file := None;
              notifications := [Error (RedirectWithoutLocation 302)];
              requests := ["https://host/bin"];
              log := [CleanupFailed] |}.
Proof. split; reflexivity. Qed.

(** C5, as amended.  While the redirect count is at most 5, a 301 or
    302 with a Location that is not empty is answered by exactly the
    download of that location with the count plus one (the request is
    recorded, nothing else happens).  Without a Location, or with an
    empty one, the call fails: nothing more is requested, the cleanup
    unlinks the destination file, and the subscriber, unless it was
    stopped before, gets the redirect error as its last notification.
    A call with a count above 5 fails with "Too many redirects" without
    a request and without touching the file.  So in a chain of
    redirects the first six URLs are requested, the sixth redirect is
    not followed, and the subscriber is told "Too many redirects". *)
Theorem redirects_followed_up_to_five w st :
  (∀ url redirects r code target,
     redirects ≤ 5 → get w url = Response r → statusCode r = Some code →
     code = 301 ∨ code = 302 → location r = Some target → target ≠ "" →
     downloadFile w url redirects st
     = downloadFile w target (redirects + 1) (add_request url st))
  ∧ (∀ url redirects r code,
       redirects ≤ 5 → get w url = Response r → statusCode r = Some code →
       code = 301 ∨ code = 302 → location r = None ∨ location r = Some "" →
       ∃ st', downloadFile w url redirects st = Some st'
              ∧ requests st' = requests st ++ [url]
              ∧ (stopped st = false →
                 notifications st'
                 = notifications st ++ [Error (RedirectWithoutLocation code)])
              ∧ file st' = (if unlink_fails w then file st else None)
              ∧ (unlink_fails w = true ∨ file st = None → CleanupFailed ∈ log st'))
  ∧ (∀ url redirects,
       5 < redirects →
       ∃ st', downloadFile w url redirects st = Some st'
              ∧ requests st' = requests st
              ∧ (stopped st = false →
                 notifications st' = notifications st ++ [Error TooManyRedirects])
              ∧ file st' = file st ∧ log st' = log st)
  ∧ (∀ hop : nat → string,
       (∀ i, i ≤ 5 → ∃ r code, (code = 301 ∨ code = 302)
                               ∧ get w (hop i) = Response r ∧ statusCode r = Some code
                               ∧ location r = Some (hop (S i))) →
       (∀ i, hop i ≠ "") →
       ∃ st', downloadFile w (hop 0) 0 st = Some st'
              ∧ requests st' = requests st ++ (hop <$> [0; 1; 2; 3; 4; 5])
              ∧ (stopped st = false →
                 notifications st' = notifications st ++ [Error TooManyRedirects])
              ∧ file st' = file st).
Proof.
  split_and!.
  - intros. by eapply downloadFile_redirect.
  - intros url redirects r code Hr Hget Hcode Hredirect Hloc.
    rewrite downloadFile_unfold by done. cbv zeta. rewrite Hget, Hcode.
    cbn [default from_option id].
    assert (truthy (location r) = false) as -> by (by destruct Hloc as [-> | ->]).
    destruct (fail_effect w (RedirectWithoutLocation code) None (add_request url st))
      as (st' & Hfail & Hfile & Hreq & Hlive & _ & _ & Hlog & _).
    exists st'. split.
    { destruct Hredirect as [-> | ->]; cbn [Nat.leb Nat.eqb orb]; by rewrite Hfail. }
    split; [done|]. split; [|done]. intros Hst. by apply Hlive.
  - intros url redirects Hr. rewrite downloadFile_too_many by done.
    eexists. split; [done|]. unfold notify. destruct (stopped st) eqn:Hstopped; by cbn.
  - intros hop Hchain Hne. eexists. split; [by apply (downloadFile_chain w hop Hchain Hne 6 0)|].
    cbn [seq fmap list_fmap foldl]. unfold notify.
    destruct (stopped _) eqn:Hstopped; cbn.
    + split; [by rewrite <-!app_assoc|]. split; [|done].
      unfold stopped in *. cbn in Hstopped. by intros Hst; rewrite Hst in Hstopped.
    + split; [by rewrite <-!app_assoc|]. done.
Qed.

(** Six redirects in a row, from a fresh subscriber: six requests, the
    error, no seventh request.  A 301 without a Location header, where
    a binary is installed: one request, the error, and the installed
    binary is unlinked.  A call with a count of 6: no request. *)
Lemma redirect_chain_example :
  (∃ st', downloadFile redirecting_world "https://host/bin" 0 initial = Some st'
          ∧ requests st' = ["https://host/bin"; "https://host/bin/next";
                            "https://host/bin/next/next"; "https://host/bin/next/next/next";
                            "https://host/bin/next/next/next/next";
                            "https://host/bin/next/next/next/next/next"]
          ∧ notifications st' = [Error TooManyRedirects]
          ∧ file st' = None)
  ∧ (∃ st', downloadFile moved_world "https://host/bin" 0 after_install = Some st'
            ∧ requests st' = ["https://host/bin"]
            ∧ notifications st' = [Error (RedirectWithoutLocation 301)]
            ∧ file st' = None)
  ∧ (∃ st', downloadFile redirecting_world "https://host/bin" 6 after_install = Some st'
            ∧ requests st' = []
            ∧ notifications st' = [Error TooManyRedirects]
            ∧ file st' = Some "previous binary").
Proof.
  split_and!.
  - destruct (redirects_followed_up_to_five redirecting_world initial)
      as (_ & _ & _ & Hchain).
    destruct (Hchain (hop_of "https://host/bin")) as (st' & Hrun & Hreq & Hnote & Hfile).
    + intros i _. eexists _, 302. split; [by right|]. split_and!; reflexivity.
    + intros i. destruct i; [done|]. unfold hop_of. rewrite Nat.iter_succ.
      match goal with |- ?u +:+ _ ≠ _ => by destruct u end.
    + exists st'. split; [exact Hrun|]. split; [exact Hreq|]. split; [|exact Hfile].
      by apply Hnote.
  - destruct (redirects_followed_up_to_five moved_world after_install)
      as (_ & Hmissing & _).
    destruct (Hmissing "https://host/bin" 0
                {| statusCode := Some 301; statusMessage := "Moved Permanently";
                   location := None; contentLength := None; events := [] |} 301)
      as (st' & Hrun & Hreq & Hnote & Hfile & _);
      [lia|reflexivity|reflexivity|by left|by left|].
    exists st'. split; [exact Hrun|]. split; [exact Hreq|]. split; [by apply Hnote|].
    exact Hfile.
  - destruct (redirects_followed_up_to_five redirecting_world after_install)
      as (_ & _ & Hmany & _).
    destruct (Hmany "https://host/bin" 6) as (st' & Hrun & Hreq & Hnote & Hfile & _); [lia|].
    exists st'. split; [exact Hrun|]. split; [exact Hreq|]. split; [by apply Hnote|].
    exact Hfile.
Defined.

(** *** Stream failures *)

(** Buffers arriving on an open stream, with a live subscriber: each is
    reported and written. *)
Lemma on_events_buffers w total buffers : ∀ downloaded st content,
  stopped st = false → file st = Some content →
  ∃ downloaded' st',
    foldl (λ s ev, on_event w total ev s) (Open, downloaded, st)
          (Data ∘ Buffer <$> buffers)
    = (Open, downloaded', st')
    ∧ stopped st' = false
    ∧ file st' = Some (foldl String.append content buffers)
    ∧ notifications st' = notifications st ++ progress_of total downloaded buffers
    ∧ requests st' = requests st
    ∧ log st' = log st.
Proof.
  induction buffers as [|data buffers IH]; intros downloaded st content Hlive Hfile.
  - eexists _, _. split; [done|]. by rewrite app_nil_r.
  - cbn [fmap list_fmap foldl compose on_event].
    set (progress := Next {| bytesReceived := downloaded + String.length data;
                             totalBytes := total |}).
    destruct (stopped_notify progress st Hlive) as (Hnote & Hf & Hreq & Hlog & Hstill).
    rewrite Hf, Hfile.
    edestruct (IH (downloaded + String.length data)
                 (set_file (Some (content +:+ data)) (notify progress st)))
      as (downloaded' & st' & Hrun & Hlive' & Hfile' & Hnote' & Hreq' & Hlog');
      [exact Hstill|done|].
    eexists _, _. split; [exact Hrun|]. split; [done|]. split; [done|].
    cbn [progress_of]. cbn in Hnote', Hreq', Hlog'.
    rewrite Hnote', Hnote, Hreq', Hreq, Hlog', Hlog.
    by rewrite <-app_assoc.
Qed.








(** **** A download that succeeds, after two redirects *)

Example download_succeeds :
  downloadFile
    {| get := λ url,
         if String.eqb url "https://host/latest" then
           Response (redirect_to 302 "https://cdn/one")
         else if String.eqb url "https://cdn/one" then
           Response (redirect_to 301 "https://cdn/two")
         else
           Response {| statusCode := Some 200; statusMessage := "OK";
                       location := None; contentLength := Some "4";
                       events := [Data (Buffer "MZ"); Data (Buffer "ok"); Finish] |};
       createWriteStream := Opens; unlink_fails := false; chmod_fails := false |}
    "https://host/latest" 0 initial
  = Some {| file := Some "MZok";
            notifications := [Next {| bytesReceived := 2; totalBytes := Text.Finite false 4 |};
                              Next {| bytesReceived := 4; totalBytes := Text.Finite false 4 |};
                              Complete];
            requests := ["https://host/latest"; "https://cdn/one"; "https://cdn/two"];
            log := [] |}.
Proof. reflexivity. Qed.

(** A 404 is surfaced, and the cleanup of the [catch] block removes the
    file that was at the destination path. *)
Example download_not_found :
  downloadFile
    {| get := λ _, Response {| statusCode := Some 404; statusMessage := "Not Found";
                               location := None; contentLength := None; events := [] |};
       createWriteStream := Opens; unlink_fails := false; chmod_fails := false |}
    "https://host/latest" 0 after_install
  = Some {| file := None;
            notifications := [Error (HttpError 404 "Not Found")];
            requests := ["https://host/latest"];
            log := [] |}.
Proof. reflexivity. Qed.

(** A destination path that is no valid argument: creating the write
    stream throws, the error is surfaced, and the cleanup unlinks what
    is at the path. *)
Example download_without_write_stream :
  downloadFile
    {| get := λ _, Response {| statusCode := Some 200; statusMessage := "OK";
                               location := None; contentLength := None;
                               events := [Data (Buffer "MZ"); Finish] |};
       createWriteStream := Throws "The argument 'path' must be a string";
       unlink_fails := false; chmod_fails := false |}
    "https://host/latest" 0 initial
  = Some {| file := None;
            notifications := [Error (WriteStreamFailed "The argument 'path' must be a string")];
            requests := ["https://host/latest"];
            log := [CleanupFailed] |}.
Proof. reflexivity. Qed.

(** The total that is reported is the double [parseInt] answers: a
    content length of 2^53 + 1 is reported as 2^53. *)
Example download_reports_double :
  downloadFile
    {| get := λ _, Response {| statusCode := Some 200; statusMessage := "OK";
                               location := None;
                               contentLength := Some "9007199254740993";
                               events := [Data (Buffer "MZ")] |};
       createWriteStream := Opens; unlink_fails := false; chmod_fails := false |}
    "https://host/latest" 0 initial
  = Some {| file := Some "MZ";
            notifications := [Next {| bytesReceived := 2;
                                      totalBytes := Text.Finite false 9007199254740992 |}];
            requests := ["https://host/latest"];
            log := [] |}.
Proof. by vm_compute. Qed.

End DownloadFacts.

(** ** The download URL *)

Section DownloadUrlFacts.
Import Platform Install.

Lemma append_inj_l (a x y : string) : a +:+ x = a +:+ y → x = y.
Proof.
  induction a as [|c a IH]; [done|].
  change (String c a +:+ x) with (String c (a +:+ x)).
  change (String c a +:+ y) with (String c (a +:+ y)).
  intros [= H]. by apply IH.
Qed.

(** X1.  Two calls give the same URL exactly when they choose the same
    binary: both "windows", or both "macos" with the same architecture,
    or both anything else, which is served the Linux binary whatever
    the architecture. *)
Theorem getDownloadUrl_same_binary (base p a p' a' : string) :
  getDownloadUrl base p a = getDownloadUrl base p' a'
  ↔ (p = "windows" ∧ p' = "windows")
    ∨ (p = "macos" ∧ p' = "macos" ∧ a = a')
    ∨ (p ≠ "windows" ∧ p ≠ "macos" ∧ p' ≠ "windows" ∧ p' ≠ "macos").
Proof.
  unfold getDownloadUrl.
  destruct (String.eqb_spec p "windows") as [->|Hw],
           (String.eqb_spec p' "windows") as [->|Hw'].
  - split; [by left|done].
  - destruct (String.eqb_spec p' "macos") as [->|Hm'].
    + split; [|by intros [[_ [=]]|[[[=] _]|[? _]]]].
      by intros [=]%append_inj_l.
    + split; [|by intros [[_ ?]|[[[=] _]|[? _]]]]. by intros [=]%append_inj_l.
  - destruct (String.eqb_spec p "macos") as [->|Hm].
    + split; [|by intros [[[=] _]|[(_ & [=] & _)|(_ & _ & ? & _)]]].
      by intros [=]%append_inj_l.
    + split; [|by intros [[? _]|[(_ & [=] & _)|(_ & _ & ? & _)]]].
      by intros [=]%append_inj_l.
  - destruct (String.eqb_spec p "macos") as [->|Hm],
             (String.eqb_spec p' "macos") as [->|Hm'].
    + split.
      * intros [=]%append_inj_l. right. by left.
      * intros [[[=] _]|[(_ & _ & ->)|(_ & ? & _)]]; done.
    + split; [|by intros [[[=] _]|[(_ & ? & _)|(_ & ? & _)]]].
      by intros [=]%append_inj_l.
    + split; [|by intros [[[=] _]|[(? & _)|(_ & _ & _ & ?)]]].
      by intros [=]%append_inj_l.
    + split; [by right; right|done].
Qed.

End DownloadUrlFacts.

(** ** The path of the host's config file *)

Section ConfigPathFacts.
Import Settings PosixPath NormalizePath ConfigPath.

Lemma split_nonempty (s : string) : split s ≠ [].
Proof.
  induction s as [|c s IH]; [done|]. cbn [split].
  destruct (Ascii.eqb c sep); [done|]. by destruct (split s).
Qed.

Lemma split_app (a b : string) :
  split (a +:+ String sep b) = split a ++ split b.
Proof.
  induction a as [|c a IH]; [done|].
  change (String c a +:+ String sep b) with (String c (a +:+ String sep b)).
  cbn [split]. rewrite IH. destruct (Ascii.eqb c sep); [done|].
  pose proof (split_nonempty a). by destruct (split a).
Qed.

Lemma fold_normalize_filter allowAboveRoot l : ∀ acc,
  fold_left (normalize_segment allowAboveRoot) (filter (λ p, p ≠ "") l) acc
  = fold_left (normalize_segment allowAboveRoot) l acc.
Proof.
  induction l as [|x l IH]; intros acc; [done|].
  destruct (decide (x = "")) as [->|Hx].
  - rewrite filter_cons_False by (intros H; by apply H). cbn [fold_left].
    by rewrite IH.
  - rewrite filter_cons_True by done. cbn [fold_left]. by rewrite IH.
Qed.

(** [path.normalize] on an absolute path without a trailing separator
    whose non-empty segments are plain: the segments, one separator
    between them. *)
Lemma normalize_absolute p segs :
  isAbsolute p = true → endsWith_sep p = false →
  filter (λ x, x ≠ "") (split p) = segs → segs ≠ [] →
  forallb is_plain_segment segs = true →
  normalize p = render true segs.
Proof.
  intros Habs Hend Hsplit Hne Hplain. unfold normalize, normalizeString.
  destruct (String.eqb_spec p "") as [->|_]; [done|].
  rewrite Habs, Hend. cbn [negb].
  rewrite <-fold_normalize_filter, Hsplit, fold_normalize_plain by done. cbn [app].
  destruct segs as [|x segs]; [done|].
  assert (x ≠ "") as Hx.
  { cbn [forallb] in Hplain. apply andb_true_iff in Hplain as [Hx _].
    apply is_plain_segment_spec in Hx as [Hx _]. by apply is_segment_spec in Hx as [? _]. }
  pose proof (array_join_nonempty x segs Hx) as Hjoin.
  apply String.eqb_neq in Hjoin. by rewrite Hjoin.
Qed.

(** [path.join(dir, rest)] for a canonical absolute [dir] and a [rest]
    made of plain segments behind a separator or not. *)
Lemma join_canonical (lead : bool) segs more :
  more ≠ [] → forallb is_plain_segment (segs ++ more) = true →
  join [render true segs; render lead more] = render true (segs ++ more).
Proof.
  intros Hmore Hplain.
  pose proof (forallb_plain_is_segment _ Hplain) as Hok.
  rewrite forallb_app in Hok. apply andb_true_iff in Hok as [Hsegs Hok].
  assert (render lead more ≠ "") as Hrest.
  { destruct lead; [done|]. destruct more as [|x more]; [done|].
    apply array_join_nonempty. cbn [forallb] in Hok.
    apply andb_true_iff in Hok as [Hx _]. by apply is_segment_spec in Hx as [? _]. }
  unfold join.
  rewrite filter_cons_True by done.
  rewrite filter_cons_True by done.
  rewrite filter_nil.
  change (array_join [render true segs; render lead more])
    with (render true segs +:+ String sep (render lead more)).
  apply normalize_absolute.
  - done.
  - rewrite endsWith_sep_append by done.
    destruct lead; unfold render.
    + change (String sep (String sep (array_join more)))
        with ("//" +:+ array_join more).
      destruct more as [|x more]; [done|].
      rewrite endsWith_sep_append; [by apply endsWith_sep_array_join|].
      apply array_join_nonempty. cbn [forallb] in Hok.
      apply andb_true_iff in Hok as [Hx _]. by apply is_segment_spec in Hx as [? _].
    + change (String sep (array_join more)) with ("/" +:+ array_join more).
      destruct more as [|x more]; [done|].
      rewrite endsWith_sep_append; [by apply endsWith_sep_array_join|].
      apply array_join_nonempty. cbn [forallb] in Hok.
      apply andb_true_iff in Hok as [Hx _]. by apply is_segment_spec in Hx as [? _].
  - rewrite split_app, filter_app, !split_render by done. done.
  - by destruct segs, more.
  - done.
Qed.

(** X2.  On macOS and on Linux (any platform but Windows), with a canonical
    absolute home directory, the config file is the one below the home
    directory that the constants name. *)
Theorem getConfigPath_below_home (h : Host) (home : list string) :
  os_platform h ≠ "win32" → path_join h = join →
  os_homedir h = render true home → forallb is_plain_segment home = true →
  getConfigPath h
  = render true
      (home ++ if String.eqb (os_platform h) "darwin"
               then ["Library"; "Application Support"; "Claude";
                     "claude_desktop_config.json"]
               else [".config"; "Claude"; "claude_desktop_config.json"]).
Proof.
  intros Hwin Hjoin Hhome Hplain. unfold getConfigPath. cbv zeta.
  apply String.eqb_neq in Hwin. rewrite Hwin, Hjoin, Hhome.
  destruct (String.eqb (os_platform h) "darwin").
  - apply (join_canonical true home
             ["Library"; "Application Support"; "Claude"; "claude_desktop_config.json"]);
      [done|]. by rewrite forallb_app, Hplain.
  - apply (join_canonical true home [".config"; "Claude"; "claude_desktop_config.json"]);
      [done|]. by rewrite forallb_app, Hplain.
Qed.

Lemma getConfigPath_below_home_mac :
  getConfigPath mac_host
  = "/Users/alice/Library/Application Support/Claude/claude_desktop_config.json".
Proof.
  apply (getConfigPath_below_home mac_host ["Users"; "alice"]); done.
Defined.

(** X3.  On Windows the path is the value of APPDATA, inserted as it is,
    followed by the rest of the constant; neither the home directory nor
    [path.join] is used.  When APPDATA is unset or empty the path starts
    with the backslash. *)
Theorem getConfigPath_windows (h : Host) :
  os_platform h = "win32" →
  getConfigPath h
  = or_else (process_env h "APPDATA") "" +:+ "\Claude\claude_desktop_config.json".
Proof. intros Hwin. unfold getConfigPath. rewrite Hwin. reflexivity. Qed.

Lemma getConfigPath_windows_examples :
  getConfigPath (windows_host (Some "C:\Users\alice\AppData\Roaming"))
  = "C:\Users\alice\AppData\Roaming\Claude\claude_desktop_config.json"
  ∧ getConfigPath (windows_host (Some "%TEMP%")) = "%TEMP%\Claude\claude_desktop_config.json"
  ∧ getConfigPath (windows_host None) = "\Claude\claude_desktop_config.json".
Proof.
  split_and!.
  - apply (getConfigPath_windows (windows_host (Some "C:\Users\alice\AppData\Roaming"))).
    reflexivity.
  - apply (getConfigPath_windows (windows_host (Some "%TEMP%"))). reflexivity.
  - apply (getConfigPath_windows (windows_host None)). reflexivity.
Defined.

End ConfigPathFacts.

(** ** Removing the entry, and the two calls together *)

Section ConfigRemovalFacts.
Import Settings Config ConfigRemoval.

Lemma read_back_members_idempotent (members : gmap string json) :
  read_back <$> (read_back <$> members) = read_back <$> members.
Proof.
  rewrite <-map_fmap_compose. apply map_fmap_ext. intros key v _. cbn.
  apply read_back_idempotent.
Qed.

(** What a removal that wrote did: the file held an object whose
    [mcpServers] object had the entry, and the text written is that
    object without the entry, as JSON writes it. *)
Lemma removeFromClaudeConfig_removed fs doc :
  removeFromClaudeConfig fs = Removed doc ↔
  ∃ members servers,
    file fs = Document (JObj members)
    ∧ members !! "mcpServers" = Some (JObj servers)
    ∧ is_Some (servers !! SERVER_ID)
    ∧ writeFile_error fs = None
    ∧ doc = JObj (<["mcpServers" := JObj (delete SERVER_ID (read_back <$> servers))]>
                  (read_back <$> members)).
Proof.
  unfold removeFromClaudeConfig. split.
  - destruct (file fs) as [|code| |config]; try done.
    destruct config as [| | | | |members]; try done. cbn [delete_server_entry].
    destruct (members !! "mcpServers") as [v|] eqn:Hv; [|done].
    destruct v as [|b|x|s|items|servers]; cbn [json_truthy]; try done.
    + by destruct b.
    + by destruct (number_truthy x).
    + by destruct (negb (String.eqb s "")).
    + destruct (servers !! SERVER_ID) as [old|] eqn:Hold; [|done].
      destruct (writeFile_error fs) eqn:Hw; [done|]. intros [= <-].
      exists members, servers. rewrite Hold. split_and!; try done.
      cbn [read_back]. rewrite fmap_insert. cbn [read_back]. by rewrite fmap_delete.
  - intros (members & servers & -> & Hv & [old Hold] & -> & ->).
    cbn [delete_server_entry]. rewrite Hv. cbn [json_truthy]. rewrite Hold.
    cbn [read_back]. rewrite fmap_insert. cbn [read_back]. by rewrite fmap_delete.
Qed.

(** X4.  The file is rewritten exactly when it holds an entry of this plugin
    and the write succeeds. *)
Theorem removal_rewrites_iff_entry fs :
  (∃ doc, removeFromClaudeConfig fs = Removed doc)
  ↔ is_Some (servers_before (file fs) !! SERVER_ID) ∧ writeFile_error fs = None.
Proof.
  split.
  - intros [doc (members & servers & Hfile & Hv & Hold & Hw & _)%removeFromClaudeConfig_removed].
    split; [|done]. unfold servers_before, members_before. by rewrite Hfile, Hv.
  - intros [Hold Hw]. unfold servers_before, members_before in Hold.
    destruct (file fs) as [|code| |config] eqn:Hfile;
      try (rewrite lookup_empty in Hold; by destruct Hold).
    destruct config as [| | | | |members];
      try (rewrite lookup_empty in Hold; by destruct Hold).
    destruct (members !! "mcpServers") as [v|] eqn:Hv;
      [|rewrite lookup_empty in Hold; by destruct Hold].
    destruct v as [| | | | |servers];
      try (rewrite lookup_empty in Hold; by destruct Hold).
    eexists. apply removeFromClaudeConfig_removed. by exists members, servers.
Qed.

(** X5.  A removal that wrote took out the entry of this plugin and
    nothing else.  Every other server and every other top-level member
    of the document is read back as JSON writes it: as it was when all
    its numbers are finite and none is the negative zero, and otherwise
    with [null] for a number that is not finite and 0 for the negative
    zero. *)
Theorem removal_deletes_only_own_entry fs doc :
  removeFromClaudeConfig fs = Removed doc →
  servers_before (Document doc) !! SERVER_ID = None
  ∧ (∀ k, k ≠ SERVER_ID →
       servers_before (Document doc) !! k = read_back <$> servers_before (file fs) !! k)
  ∧ (∀ k, k ≠ "mcpServers" →
       members_before (Document doc) !! k = read_back <$> members_before (file fs) !! k)
  ∧ (∀ k v, k ≠ SERVER_ID → servers_before (file fs) !! k = Some v → writable v = true →
       servers_before (Document doc) !! k = Some v)
  ∧ (∀ k v, k ≠ "mcpServers" → members_before (file fs) !! k = Some v → writable v = true →
       members_before (Document doc) !! k = Some v)
  ∧ ∃ servers, members_before (Document doc) !! "mcpServers" = Some (JObj servers).
Proof.
  intros (members & servers & Hfile & Hv & Hold & Hw & ->)%removeFromClaudeConfig_removed.
  unfold servers_before, members_before. rewrite Hfile, Hv, lookup_insert_eq.
  split_and!.
  - by rewrite lookup_delete_eq.
  - intros k Hk. by rewrite lookup_delete_ne, lookup_fmap.
  - intros k Hk. by rewrite lookup_insert_ne, lookup_fmap.
  - intros k v Hk Hkv Hwritable.
    by rewrite lookup_delete_ne, lookup_fmap, Hkv; [cbn; rewrite read_back_writable|].
  - intros k v Hk Hkv Hwritable.
    by rewrite lookup_insert_ne, lookup_fmap, Hkv; [cbn; rewrite read_back_writable|].
  - by eexists.
Qed.

(** The removal on the document with numbers, after an upsert: the
    other server is still there, 1.5 is as it was, 1e999 is [null]. *)
Lemma removal_deletes_only_own_entry_example :
  ∃ doc,
    removeFromClaudeConfig (example_fs (Document numbers_with_entry)) = Removed doc
    ∧ servers_before (Document doc) !! SERVER_ID = None
    ∧ servers_before (Document doc) !! "other"
      = Some (JObj {[ "command" := JStr "node"; "timeout" := JNull ]})
    ∧ members_before (Document doc) !! "zoom" = Some one_and_a_half
    ∧ members_before (Document doc) !! "limit" = Some JNull
    ∧ members_before (Document doc) !! "offset" = Some zero.
Proof.
  eexists. split; [by vm_compute|].
  edestruct (removal_deletes_only_own_entry (example_fs (Document numbers_with_entry)))
    as (Hgone & Hservers & Hmembers & _ & Hkept & _); [by vm_compute|].
  split; [exact Hgone|]. split_and!.
  - rewrite Hservers; [|discriminate]. by vm_compute.
  - by apply Hkept.
  - rewrite Hmembers; [|discriminate]. by vm_compute.
  - rewrite Hmembers; [|discriminate]. by vm_compute.
Defined.

(** X6.  Install, then uninstall.  The config had no entry of this
    plugin (the file was missing, or an object whose [mcpServers] member
    was missing, falsy or an object without the entry).  After the
    update and the removal the document has the members and the servers
    it had before, as JSON writes them; a config that had its
    [mcpServers] object, and in which all numbers are finite and none is
    the negative zero, is back to what it was. *)
Theorem update_then_remove_restores fs plugin serverPath apiKey :
  has_servers_object (file fs) = true →
  servers_before (file fs) !! SERVER_ID = None →
  mkdir_error fs = None → writeFile_error fs = None →
  ∃ doc,
    updateClaudeConfig fs plugin serverPath apiKey = Written doc
    ∧ removeFromClaudeConfig (after_write fs doc)
      = Removed (JObj (<["mcpServers" := JObj (read_back <$> servers_before (file fs))]>
                       (read_back <$> members_before (file fs))))
    ∧ (∀ members servers,
         file fs = Document (JObj members) →
         members !! "mcpServers" = Some (JObj servers) →
         writable (JObj members) = true →
         removeFromClaudeConfig (after_write fs doc) = Removed (JObj members)).
Proof.
  intros Hobj Hnone Hmk Hw.
  pose proof (updateClaudeConfig_written fs plugin serverPath apiKey Hmk Hw Hobj) as Hdoc.
  eexists. split; [exact Hdoc|].
  assert (removeFromClaudeConfig
            (after_write fs
               (JObj (<["mcpServers" :=
                          JObj (<[SERVER_ID := entry_json (build_entry plugin serverPath apiKey)]>
                                (read_back <$> servers_before (file fs)))]>
                      (read_back <$> members_before (file fs)))))
          = Removed (JObj (<["mcpServers" := JObj (read_back <$> servers_before (file fs))]>
                           (read_back <$> members_before (file fs))))) as Hremove.
  { apply removeFromClaudeConfig_removed. eexists _, _.
    split; [done|]. split; [by rewrite lookup_insert_eq|].
    split; [by rewrite lookup_insert_eq|]. split; [done|].
    rewrite !fmap_insert, insert_insert_eq, delete_insert_eq.
    rewrite !read_back_members_idempotent, delete_id; [done|].
    by rewrite lookup_fmap, Hnone. }
  split; [exact Hremove|].
  intros members servers Hfile Hv Hwritable. rewrite Hremove. do 2 f_equal.
  unfold servers_before, members_before. rewrite Hfile, Hv.
  apply read_back_writable in Hwritable. cbn [read_back] in Hwritable.
  injection Hwritable as Hmembers. rewrite Hmembers. apply insert_id.
  rewrite <-Hmembers at 1. by rewrite lookup_fmap, Hv.
Qed.

Lemma update_then_remove_restores_example :
  ∃ doc,
    updateClaudeConfig (example_fs (Document other_document)) wsl_plugin "/bin/mcp-server"
      (Some "key") = Written doc
    ∧ removeFromClaudeConfig (after_write (example_fs (Document other_document)) doc)
      = Removed (JObj (<["mcpServers" :=
                          JObj (read_back <$> servers_before (Document other_document))]>
                       (read_back <$> members_before (Document other_document))))
    ∧ (∀ members servers,
         Document other_document = Document (JObj members) →
         members !! "mcpServers" = Some (JObj servers) →
         writable (JObj members) = true →
         removeFromClaudeConfig (after_write (example_fs (Document other_document)) doc)
         = Removed (JObj members)).
Proof.
  apply (update_then_remove_restores (example_fs (Document other_document)) wsl_plugin
           "/bin/mcp-server" (Some "key")); vm_compute; reflexivity.
Defined.

(** X7.  A second removal finds nothing to remove and does not write. *)
Theorem removal_twice fs doc :
  removeFromClaudeConfig fs = Removed doc →
  removeFromClaudeConfig (after_write fs doc) = NothingToRemove.
Proof.
  intros (members & servers & Hfile & Hv & Hold & Hw & ->)%removeFromClaudeConfig_removed.
  unfold removeFromClaudeConfig. cbn [after_write file delete_server_entry].
  rewrite lookup_insert_eq. cbn [json_truthy]. by rewrite lookup_delete_eq.
Qed.

Lemma removal_twice_example :
  removeFromClaudeConfig
    (after_write (example_fs (Document example_document)) other_document)
  = NothingToRemove.
Proof.
  apply (removal_twice (example_fs (Document example_document))).
  vm_compute. reflexivity.
Defined.

(** An update of a document that was written gives what it gives on
    that document before it was written. *)
Lemma set_server_entry_read_back config entry doc :
  set_server_entry config entry = Some doc →
  ∃ doc', set_server_entry (read_back config) entry = Some doc'
          ∧ read_back doc' = read_back doc.
Proof.
  assert (∀ (members : gmap string json) v v',
            read_back v' = read_back v →
            read_back (JObj (<["mcpServers" := v']> (read_back <$> members)))
            = read_back (JObj (<["mcpServers" := v]> members))) as Hmembers.
  { intros members v v' Hv. cbn [read_back].
    by rewrite !fmap_insert, read_back_members_idempotent, Hv. }
  assert (∀ servers : gmap string json,
            read_back (JObj (<[SERVER_ID := entry_json entry]> (read_back <$> servers)))
            = read_back (JObj (<[SERVER_ID := entry_json entry]> servers))) as Hservers.
  { intros servers. cbn [read_back].
    by rewrite !fmap_insert, read_back_members_idempotent. }
  destruct config as [| | | |items|members]; try done; cbn [set_server_entry].
  - intros [= <-]. eexists. split; [done|]. exact (read_back_idempotent (JArr items)).
  - cbn [read_back set_server_entry]. rewrite lookup_fmap.
    destruct (members !! "mcpServers") as [v|] eqn:Hv; cbn [fmap option_fmap option_map].
    + destruct v as [|b|x|s|items|servers]; cbn [json_truthy read_back].
      * intros [= <-]. eexists. split; [done|]. by apply Hmembers.
      * destruct b; [done|]. intros [= <-]. eexists. split; [done|]. by apply Hmembers.
      * destruct x as [sign|sign| |sign m e]; cbn [json_truthy number_truthy]; try done;
          intros [= <-]; eexists; (split; [done|]); by apply Hmembers.
      * destruct (negb (String.eqb s "")); [done|].
        intros [= <-]. eexists. split; [done|]. by apply Hmembers.
      * intros [= <-]. eexists. split; [done|]. apply Hmembers.
        apply (read_back_idempotent (JArr items)).
      * intros [= <-]. eexists. split; [done|]. by apply Hmembers.
    + intros [= <-]. eexists. split; [done|]. by apply Hmembers.
Qed.

Lemma set_server_entry_again config entry entry' doc :
  set_server_entry config entry = Some doc →
  set_server_entry doc entry' = set_server_entry config entry'.
Proof.
  destruct config as [| | | |items|members]; try done; cbn [set_server_entry].
  - by intros [= <-].
  - destruct (members !! "mcpServers") as [v|] eqn:Hv.
    + destruct v as [|b|x|s|items|servers]; cbn [json_truthy].
      * intros [= <-]. cbn [set_server_entry]. rewrite lookup_insert_eq. cbn [json_truthy].
        by rewrite !insert_insert_eq.
      * destruct b; [done|]. intros [= <-]. cbn [set_server_entry].
        rewrite lookup_insert_eq. cbn [json_truthy]. by rewrite !insert_insert_eq.
      * destruct (number_truthy x); [done|]. intros [= <-]. cbn [set_server_entry].
        rewrite lookup_insert_eq. cbn [json_truthy]. by rewrite !insert_insert_eq.
      * destruct (negb (String.eqb s "")); [done|]. intros [= <-]. cbn [set_server_entry].
        rewrite lookup_insert_eq. cbn [json_truthy]. by rewrite !insert_insert_eq.
      * intros [= <-]. cbn [set_server_entry]. rewrite lookup_insert_eq. cbn [json_truthy].
        by rewrite !insert_insert_eq.
      * intros [= <-]. cbn [set_server_entry]. rewrite lookup_insert_eq. cbn [json_truthy].
        by rewrite !insert_insert_eq.
    + intros [= <-]. cbn [set_server_entry]. rewrite lookup_insert_eq. cbn [json_truthy].
      by rewrite !insert_insert_eq.
Qed.

(** X8.  The last update wins: an update after an update that wrote gives
    what it gives on the file as it was before; in particular the same
    update again writes the same document. *)
Theorem update_after_update fs plugin serverPath apiKey plugin' serverPath' apiKey' doc :
  updateClaudeConfig fs plugin serverPath apiKey = Written doc →
  updateClaudeConfig (after_write fs doc) plugin' serverPath' apiKey'
  = updateClaudeConfig fs plugin' serverPath' apiKey'
  ∧ updateClaudeConfig (after_write fs doc) plugin serverPath apiKey = Written doc.
Proof.
  assert (∀ plugin' serverPath' apiKey',
            updateClaudeConfig fs plugin serverPath apiKey = Written doc →
            updateClaudeConfig (after_write fs doc) plugin' serverPath' apiKey'
            = updateClaudeConfig fs plugin' serverPath' apiKey') as Hlast.
  { clear. intros plugin' serverPath' apiKey'.
    unfold updateClaudeConfig. cbn [after_write mkdir_error file writeFile_error].
    destruct (mkdir_error fs); [done|].
    assert (∀ config,
              match set_server_entry config (build_entry plugin serverPath apiKey) with
              | Some doc1 =>
                  match writeFile_error fs with
                  | Some message => Failed message
                  | None => Written (read_back doc1)
                  end
              | None => Failed "TypeError"
              end = Written doc →
              match set_server_entry doc (build_entry plugin' serverPath' apiKey') with
              | Some doc2 =>
                  match writeFile_error fs with
                  | Some message => Failed message
                  | None => Written (read_back doc2)
                  end
              | None => Failed "TypeError"
              end
              = match set_server_entry config (build_entry plugin' serverPath' apiKey') with
                | Some doc2 =>
                    match writeFile_error fs with
                    | Some message => Failed message
                    | None => Written (read_back doc2)
                    end
                | None => Failed "TypeError"
                end) as Hconfig.
    { intros config.
      destruct (set_server_entry config _) as [doc1|] eqn:Hdoc1; [|done].
      destruct (writeFile_error fs); [done|]. intros [= <-].
      pose proof (set_server_entry_again _ _ (build_entry plugin' serverPath' apiKey') _ Hdoc1)
        as Hagain.
      destruct (set_server_entry doc1 _) as [doc2|] eqn:Hdoc2.
      - destruct (set_server_entry_read_back _ _ _ Hdoc2) as (doc2' & -> & Hsame).
        by rewrite <-Hagain, Hsame.
      - exfalso. symmetry in Hagain. revert Hdoc1 Hagain. clear.
        destruct config as [| | | |items|members]; cbn [set_server_entry]; try done.
        by destruct (match members !! "mcpServers" with Some _ => _ | None => _ end). }
    destruct (file fs) as [|code| |config]; try done.
    - apply Hconfig.
    - apply Hconfig. }
  intros Hdoc. split; [by apply Hlast|]. by rewrite Hlast.
Qed.

Lemma update_after_update_example :
  updateClaudeConfig
    (after_write (example_fs Absent)
       (JObj {[ "mcpServers" :=
                  JObj {[ SERVER_ID := entry_json (build_entry plain_plugin "/bin/mcp-server"
                                                     (Some "key")) ]} ]}))
    wsl_plugin "/bin/mcp-server" (Some "key")
  = updateClaudeConfig (example_fs Absent) wsl_plugin "/bin/mcp-server" (Some "key")
  ∧ updateClaudeConfig
      (after_write (example_fs Absent)
         (JObj {[ "mcpServers" :=
                    JObj {[ SERVER_ID := entry_json (build_entry plain_plugin "/bin/mcp-server"
                                                       (Some "key")) ]} ]}))
      plain_plugin "/bin/mcp-server" (Some "key")
    = Written (JObj {[ "mcpServers" :=
                         JObj {[ SERVER_ID := entry_json (build_entry plain_plugin
                                                            "/bin/mcp-server" (Some "key")) ]} ]}).
Proof.
  apply (update_after_update (example_fs Absent) plain_plugin "/bin/mcp-server" (Some "key")).
  vm_compute. reflexivity.
Defined.

End ConfigRemovalFacts.

(** ** What the normalizers keep *)

Section NormalizerShape.
Import PosixPath NormalizePath Segments.

(** The parts of a split hold no separator. *)
Lemma split_sep_free (p : string) : Forall (λ x, has_sep x = false) (split p).
Proof.
  induction p as [|c p IH]; [by repeat constructor|]. cbn [split].
  destruct (Ascii.eqb c sep) eqn:Hc; [by constructor|].
  destruct (split p) as [|part parts]; [repeat constructor; cbn; by rewrite Hc|].
  apply Forall_cons in IH as [Hpart Hparts]. constructor; [|done].
  cbn [has_sep]. by rewrite Hc, Hpart.
Qed.

Lemma forallb_is_segment_Forall segs :
  forallb is_segment segs = true ↔ Forall (λ x, x ≠ "" ∧ has_sep x = false) segs.
Proof.
  rewrite forallb_forall, Forall_forall. split.
  - intros H x Hx. apply is_segment_spec, H. by apply list_elem_of_In.
  - intros H x Hx. apply is_segment_spec, H. by apply list_elem_of_In.
Qed.

Lemma no_adjacent_repeat_cons x l :
  l !! 0 ≠ Some x → no_adjacent_repeat l → no_adjacent_repeat (x :: l).
Proof.
  intros Hhead Hl [|i] y; cbn.
  - by intros [= <-].
  - apply Hl.
Qed.

Lemma no_adjacent_repeat_snoc l x :
  last l ≠ Some x → no_adjacent_repeat l → no_adjacent_repeat (l ++ [x]).
Proof.
  intros Hlast Hl i y Hi Hnext.
  pose proof (lookup_lt_Some _ _ _ Hnext) as Hlen. rewrite length_app in Hlen. cbn in Hlen.
  rewrite lookup_app_l in Hi by lia.
  destruct (decide (S i < length l)) as [Hin|Hout].
  - rewrite lookup_app_l in Hnext by done. by apply (Hl i y).
  - rewrite lookup_app_r in Hnext by lia.
    replace (S i - length l) with 0 in Hnext by lia. injection Hnext as ->.
    apply Hlast. rewrite last_lookup. by replace (pred (length l)) with i by lia.
Qed.

Lemma no_adjacent_repeat_tail x l :
  no_adjacent_repeat (x :: l) → no_adjacent_repeat l.
Proof. intros H i y. apply (H (S i) y). Qed.

(** The two ways a scan of [x :: l] starts: [x] is kept, and no block
    at the start is repeated; or the shortest repeated block at the
    start is skipped. *)
Lemma normalize_segments_cases x l :
  (normalize_segments (x :: l) = x :: normalize_segments l
   ∧ ∀ k, 1 ≤ k → repeats_at (x :: l) 0 k = false)
  ∨ (∃ len, 1 ≤ len ∧ len * 2 ≤ length (x :: l)
            ∧ repeats_at (x :: l) 0 len = true
            ∧ normalize_segments (x :: l) = normalize_segments (drop len (x :: l))).
Proof.
  pose proof (find_pattern_exact (x :: l) 0) as Hexact.
  destruct (find_pattern (length (x :: l)) (x :: l) 0 1) as [len|] eqn:Hfind.
  - right. exists len. destruct Hexact as (Hlen & Hrep & _).
    pose proof (repeats_at_bound _ _ _ Hrep).
    split; [done|]. split; [lia|]. split; [done|].
    by apply normalize_segments_skip.
  - left. split; [by apply normalize_segments_keep|done].
Qed.

(** What [normalizeDuplicateSegments] keeps of the segments: a
    subsequence that starts with the first segment and in which no
    segment is followed by itself; it is as long as the input only when
    the input has no repeated block. *)
Lemma normalize_segments_shape n : ∀ parts, length parts ≤ n →
  normalize_segments parts `sublist_of` parts
  ∧ no_adjacent_repeat (normalize_segments parts)
  ∧ normalize_segments parts !! 0 = parts !! 0
  ∧ (length (normalize_segments parts) = length parts → no_repeated_block parts = true).
Proof.
  induction n as [|n IH]; intros parts Hn.
  { destruct parts; [|cbn in Hn; lia]. by split_and!. }
  destruct parts as [|x l]; [by split_and!|]. cbn [length] in Hn.
  destruct (normalize_segments_cases x l) as [[-> Hnone]|(len & Hlen & Hbound & Hrep & ->)].
  - destruct (IH l ltac:(lia)) as (Hsub & Hadj & Hhead & Hfull).
    split_and!.
    + by apply sublist_skip.
    + apply no_adjacent_repeat_cons; [|done]. rewrite Hhead.
      destruct l as [|y l']; [done|]. cbn. intros [= ->].
      specialize (Hnone 1 ltac:(lia)). unfold repeats_at in Hnone. cbn in Hnone.
      by rewrite bool_decide_eq_true_2 in Hnone.
    + done.
    + cbn [length]. intros [= Hl]. apply no_repeated_block_spec.
      intros [|i] k Hk; [apply Hnone; lia|].
      change (repeats_at (x :: l) (S i) k) with (repeats_at ([x] ++ l) (length [x] + i) k).
      rewrite (repeats_at_app_r [x] l i k).
      specialize (Hfull Hl). rewrite no_repeated_block_spec in Hfull. by apply Hfull.
  - cbn [length] in Hbound.
    destruct (IH (drop len (x :: l))) as (Hsub & Hadj & Hhead & Hfull).
    { rewrite length_drop. cbn [length]. lia. }
    split_and!.
    + etrans; [exact Hsub|]. apply sublist_drop.
    + done.
    + rewrite Hhead, lookup_drop, Nat.add_0_r.
      pose proof (repeats_at_lookup (x :: l) 0 len 0 Hrep ltac:(lia)) as Hl.
      rewrite !Nat.add_0_r, !Nat.add_0_l in Hl. done.
    + intros Hsame. apply sublist_length in Hsub.
      rewrite length_drop in Hsub. cbn [length] in *. lia.
Qed.

Lemma normalizeDuplicateSegments_canonical (p : string) :
  normalizeDuplicateSegments p
  = render (isAbsolute p) (normalize_segments (segments_of p))
  ∧ forallb is_segment (normalize_segments (segments_of p)) = true
  ∧ segments_of (normalizeDuplicateSegments p) = normalize_segments (segments_of p)
  ∧ isAbsolute (normalizeDuplicateSegments p) = isAbsolute p.
Proof.
  set (parts := segments_of p).
  destruct (normalize_segments_shape (length parts) parts (le_n _)) as (Hsub & _).
  assert (forallb is_segment (normalize_segments parts) = true) as Hok.
  { apply forallb_forall. intros x Hx%list_elem_of_In.
    apply (elem_of_sublist _ _ _ Hx) in Hsub as Hx'.
    apply list_elem_of_filter in Hx' as [Hne Hin].
    apply is_segment_spec. split; [done|].
    pose proof (split_sep_free p) as Hfree. rewrite Forall_forall in Hfree. by apply Hfree. }
  assert (normalizeDuplicateSegments p = render (isAbsolute p) (normalize_segments parts))
    as Hrender.
  { unfold normalizeDuplicateSegments, render. by destruct (isAbsolute p). }
  split_and!; [done|done| |].
  - rewrite Hrender. by apply split_render.
  - rewrite Hrender. by apply isAbsolute_render.
Qed.

(** X9.  For every path, the result of [normalizeDuplicateSegments] is
    canonical (one separator between its segments, none at the end),
    absolute exactly when the path is, and its segments are a
    subsequence of the path's segments in which no segment is followed
    by itself. *)
Theorem normalizeDuplicateSegments_result (p : string) :
  normalizeDuplicateSegments p
  = render (isAbsolute p) (segments_of (normalizeDuplicateSegments p))
  ∧ isAbsolute (normalizeDuplicateSegments p) = isAbsolute p
  ∧ segments_of (normalizeDuplicateSegments p) `sublist_of` segments_of p
  ∧ no_adjacent_repeat (segments_of (normalizeDuplicateSegments p)).
Proof.
  destruct (normalizeDuplicateSegments_canonical p) as (Hrender & _ & Hsegs & Habs).
  destruct (normalize_segments_shape (length (segments_of p)) (segments_of p) (le_n _))
    as (Hsub & Hadj & _ & _).
  rewrite Hsegs. by split_and!.
Qed.




Lemma slice_last_snoc {A} (l : list A) (x : A) : slice_last (l ++ [x]) 1 = [x].
Proof.
  unfold slice_last. rewrite length_app. cbn [length].
  replace (length l + 1 - 1) with (length l) by lia. by rewrite drop_app_length.
Qed.

(** The loop of the earlier function, from any round on: what it adds
    is a subsequence of the parts still to come, and it never adds a
    part behind an equal one. *)
Lemma remove_loop_shape fuel parts : ∀ i normalized,
  (i = 0 → normalized = []) → no_adjacent_repeat normalized →
  ∃ more, remove_loop fuel parts i normalized = normalized ++ more
          ∧ more `sublist_of` drop i parts
          ∧ no_adjacent_repeat (normalized ++ more).
Proof.
  induction fuel as [|fuel IH]; intros i normalized Hstart Hadj; cbn [remove_loop].
  { exists []. rewrite app_nil_r. split_and!; [done|apply sublist_nil_l|done]. }
  destruct (i <? length parts) eqn:Hlt.
  2:{ exists []. rewrite app_nil_r. split_and!; [done|apply sublist_nil_l|done]. }
  apply Nat.ltb_lt in Hlt.
  destruct (lookup_lt_is_Some_2 parts i Hlt) as [part Hpart]. rewrite Hpart.
  cbn [default from_option id].
  assert (∀ k, drop (i + k) parts `sublist_of` drop i parts) as Hdrop.
  { intros k. rewrite <-drop_drop. apply sublist_drop. }
  destruct (String.eqb part "" && negb (i =? 0)) eqn:Hskip.
  { destruct (IH (i + 1) normalized ltac:(lia) Hadj) as (more & -> & Hsub & Hadj').
    exists more. split_and!; [done| |done]. by etrans. }
  destruct ((0 <? i) && negb (String.eqb part "")) eqn:Hcheck.
  - pose proof (find_duplicate_exact normalized parts i) as Hexact. cbv zeta in Hexact.
    destruct (find_duplicate (length parts) normalized parts i 1 _) as [len|].
    + destruct (IH (i + (len - 1) + 1) normalized ltac:(lia) Hadj)
        as (more & -> & Hsub & Hadj').
      exists more. split_and!; [done| |done].
      etrans; [exact Hsub|]. rewrite <-Nat.add_assoc. apply Hdrop.
    + destruct (IH (i + 1) (normalized ++ [part]) ltac:(lia)) as (more & -> & Hsub & Hadj').
      { apply no_adjacent_repeat_snoc; [|done]. intros Hlast.
        apply last_Some in Hlast as [kept ->].
        specialize (Hexact 1). rewrite length_app in Hexact. cbn [length] in Hexact.
        specialize (Hexact ltac:(lia)). unfold dup_at in Hexact.
        apply bool_decide_eq_false in Hexact. apply Hexact.
        rewrite slice_last_snoc. unfold slice.
        replace (i + 1 - i) with 1 by lia.
        by rewrite (drop_S _ _ _ Hpart). }
      exists (part :: more). rewrite <-app_assoc in *. split_and!; [done| |done].
      rewrite (drop_S _ _ _ Hpart). apply sublist_skip.
      by replace (S i) with (i + 1) by lia.
  - assert (i = 0) as ->.
    { destruct i as [|i]; [done|]. cbn in Hskip, Hcheck.
      destruct (String.eqb part ""); done. }
    rewrite (Hstart eq_refl) in *.
    destruct (IH 1 [part] ltac:(lia)) as (more & Hrun & Hsub & Hadj').
    { intros [|j] y; [|done]. cbn. by intros [= <-]. }
    cbn [app Nat.add]. rewrite Hrun.
    exists (part :: more). split_and!; [done| |done].
    rewrite (drop_S _ _ _ Hpart). by apply sublist_skip.
Qed.

Lemma remove_segments_shape x l :
  ∃ more, remove_segments (x :: l) = x :: more
          ∧ more `sublist_of` l ∧ no_adjacent_repeat (x :: more).
Proof.
  unfold remove_segments. cbn [length]. rewrite remove_loop_first by lia.
  destruct (remove_loop_shape (S (length l)) (x :: l) 1 [x] ltac:(lia))
    as (more & -> & Hsub & Hadj).
  { intros [|j] y; [|done]. cbn. by intros [= <-]. }
  by exists more.
Qed.

(** X11.  For a canonical path of plain segments, the result of the earlier
    [removeDuplicatePathSegments] is canonical, absolute exactly when the
    path is, and its segments are a subsequence of the path's segments
    in which no segment is followed by itself. *)
Theorem removeDuplicatePathSegments_result (absolute : bool) (segs : list string) :
  segs ≠ [] → forallb is_plain_segment segs = true →
  removeDuplicatePathSegments (render absolute segs)
  = render absolute (segments_of (removeDuplicatePathSegments (render absolute segs)))
  ∧ segments_of (removeDuplicatePathSegments (render absolute segs)) `sublist_of` segs
  ∧ no_adjacent_repeat (segments_of (removeDuplicatePathSegments (render absolute segs))).
Proof.
  intros Hne Hplain. pose proof (forallb_plain_is_segment _ Hplain) as Hok.
  assert (∀ kept, kept `sublist_of` segs → forallb is_plain_segment kept = true) as Hkeep.
  { intros kept Hsub. apply forallb_forall. intros y Hy%list_elem_of_In.
    rewrite forallb_forall in Hplain. apply Hplain, list_elem_of_In.
    by eapply elem_of_sublist. }
  assert (∃ kept, removeDuplicatePathSegments (render absolute segs) = render absolute kept
                  ∧ kept `sublist_of` segs ∧ no_adjacent_repeat kept)
    as (kept & Hresult & Hsub & Hadj).
  { unfold removeDuplicatePathSegments. rewrite split_render_parts by done.
    destruct absolute; cbn [app].
    - destruct (remove_segments_shape "" segs) as (more & -> & Hsub & Hadj).
      exists more. split; [|split; [done|by eapply no_adjacent_repeat_tail]].
      destruct more as [|y more]; [done|]. cbn [length Nat.eqb andb].
      change (join ("" :: y :: more)) with (join ([""] ++ y :: more)).
      rewrite (join_render true (y :: more)) by (done || by apply Hkeep).
      rewrite bool_decide_eq_true_2 by done.
      pose proof (isAbsolute_render false (y :: more)
                    (forallb_plain_is_segment _ (Hkeep _ Hsub))) as Hrel.
      unfold render in Hrel. unfold startsWith_sep. by rewrite Hrel.
    - destruct segs as [|x l]; [done|].
      destruct (remove_segments_shape x l) as (more & -> & Hsub & Hadj).
      exists (x :: more). split; [|split; [by apply sublist_skip|done]].
      assert (x ≠ "") as Hx.
      { cbn [forallb] in Hok. apply andb_true_iff in Hok as [Hx _].
        by apply is_segment_spec in Hx as [? _]. }
      cbn [length Nat.eqb].
      rewrite (bool_decide_eq_false_2 ((x :: more) !! 0 = Some ""))
        by (cbn; by intros [= ->]).
      rewrite andb_false_r. cbn [andb].
      apply (join_render false (x :: more)); [done|].
      apply Hkeep. by apply sublist_skip. }
  assert (segments_of (removeDuplicatePathSegments (render absolute segs)) = kept) as ->.
  { rewrite Hresult. apply split_render. by apply forallb_plain_is_segment, Hkeep. }
  done.
Qed.

Lemma removeDuplicatePathSegments_result_example :
  removeDuplicatePathSegments "/data/data/vault"
  = render true (segments_of (removeDuplicatePathSegments "/data/data/vault"))
  ∧ segments_of (removeDuplicatePathSegments "/data/data/vault")
      `sublist_of` ["data"; "data"; "vault"]
  ∧ no_adjacent_repeat (segments_of (removeDuplicatePathSegments "/data/data/vault")).
Proof.
  apply (removeDuplicatePathSegments_result true ["data"; "data"; "vault"]); done.
Defined.

End NormalizerShape.

(** ** The install path *)

Section InstallPathFacts.
Import Settings PosixPath NormalizePath Platform Install Status Config InstallPath.

(** [normalizeString] keeps segments: non-empty, without a separator. *)
Lemma normalize_segment_segments allowAboveRoot res seg :
  forallb is_segment res = true → has_sep seg = false →
  forallb is_segment (normalize_segment allowAboveRoot res seg) = true.
Proof.
  intros Hres Hseg. unfold normalize_segment.
  destruct (String.eqb_spec seg "") as [->|Hne]; [done|].
  destruct (String.eqb seg "."); cbn [orb]; [done|].
  assert (forallb is_segment (res ++ [".."]) = true) as Hup
    by (by rewrite forallb_app, Hres).
  destruct (String.eqb seg "..").
  - destruct (last res) as [l|].
    + destruct (String.eqb l ".."); [by destruct allowAboveRoot|].
      rewrite removelast_firstn_len. apply forallb_is_segment_Forall, Forall_take.
      by apply forallb_is_segment_Forall.
    + by destruct allowAboveRoot.
  - rewrite forallb_app, Hres. cbn [forallb]. rewrite andb_true_r.
    by apply is_segment_spec.
Qed.

Lemma fold_normalize_segments allowAboveRoot l : ∀ res,
  forallb is_segment res = true → Forall (λ x, has_sep x = false) l →
  forallb is_segment (fold_left (normalize_segment allowAboveRoot) l res) = true.
Proof.
  induction l as [|x l IH]; intros res Hres Hl; [done|].
  apply Forall_cons in Hl as [Hx Hl]. cbn [fold_left].
  apply IH; [|done]. by apply normalize_segment_segments.
Qed.

Lemma isAbsolute_append (a b : string) : a ≠ "" → isAbsolute (a +:+ b) = isAbsolute a.
Proof. by destruct a. Qed.

(** [path.normalize] keeps a path absolute or relative, and never
    answers the empty string. *)
Lemma isAbsolute_normalize (p : string) :
  isAbsolute (normalize p) = isAbsolute p ∧ normalize p ≠ "".
Proof.
  unfold normalize. destruct (String.eqb_spec p "") as [->|Hne]; [done|].
  unfold normalizeString.
  pose proof (fold_normalize_segments (negb (isAbsolute p)) (split p) [] eq_refl
                (split_sep_free p)) as Hsegs.
  set (segs := fold_left _ _ _) in *.
  pose proof (isAbsolute_render false segs Hsegs) as Hrel. unfold render in Hrel.
  clearbody segs.
  destruct (String.eqb (array_join segs) "") eqn:Hres.
  - by destruct (isAbsolute p), (endsWith_sep p).
  - apply String.eqb_neq in Hres.
    destruct (isAbsolute p); [by destruct (endsWith_sep p)|].
    destruct (endsWith_sep p).
    + rewrite isAbsolute_append by done. split; [done|]. by destruct (array_join segs).
    + done.
Qed.

(** [path.join] of parts that hold no separator is a relative path. *)
Lemma join_relative (l : list string) :
  Forall (λ x, has_sep x = false) l → isAbsolute (join l) = false ∧ join l ≠ "".
Proof.
  intros Hl. unfold join.
  assert (forallb is_segment (filter (λ a, a ≠ "") l) = true) as Hsegs.
  { apply forallb_is_segment_Forall, Forall_forall.
    intros x [Hx Hin]%list_elem_of_filter. split; [done|].
    rewrite Forall_forall in Hl. by apply Hl. }
  destruct (filter (λ a, a ≠ "") l) as [|x rest] eqn:Hfilter; [done|].
  destruct (isAbsolute_normalize (array_join (x :: rest))) as [-> Hne].
  split; [|done]. by apply (isAbsolute_render false).
Qed.

(** A POSIX absolute path is absolute for [path.win32] too: the branch
    of [resolveSymlinks] that pushes the POSIX root is never taken. *)
Lemma posix_absolute_is_win32_absolute (p : string) :
  isAbsolute p = true → Win32Path.isAbsolute p = true.
Proof.
  destruct p as [|c p]; [done|]. cbn [isAbsolute Win32Path.isAbsolute].
  intros ->%Ascii.eqb_eq. done.
Qed.

Lemma root_parts_sep_free filepath parts :
  Forall (λ x, has_sep x = false) parts →
  Forall (λ x, has_sep x = false) (fst (root_parts filepath parts)).
Proof.
  intros Hparts. unfold root_parts.
  assert (has_sep (default "" (parts !! 0)) = false) as Hfirst.
  { destruct (parts !! 0) as [x|] eqn:Hx; [|done].
    rewrite Forall_lookup in Hparts. by apply (Hparts 0). }
  destruct (Win32Path.isAbsolute filepath) eqn:Hwin.
  - destruct (bool_decide _); by repeat constructor.
  - destruct (isAbsolute filepath) eqn:Habs; [|by repeat constructor].
    apply posix_absolute_is_win32_absolute in Habs. congruence.
Qed.

Lemma resolve_parts_sep_free realpath parts : ∀ resolvedParts,
  Forall (λ x, has_sep x = false) resolvedParts →
  Forall (λ x, has_sep x = false) parts →
  Forall (λ x, has_sep x = false) (foldl (resolve_part realpath) resolvedParts parts).
Proof.
  induction parts as [|part parts IH]; intros resolvedParts Hres Hparts; [done|].
  apply Forall_cons in Hparts as [Hpart Hparts]. cbn [foldl]. apply IH; [|done].
  unfold resolve_part. destruct (realpath _); [apply split_sep_free|..];
    apply Forall_app; by repeat constructor.
Qed.

Lemma resolve_missing_relative realpath filepath :
  isAbsolute (resolve_missing realpath filepath) = false
  ∧ resolve_missing realpath filepath ≠ "".
Proof.
  unfold resolve_missing.
  pose proof (root_parts_sep_free filepath (split (normalize filepath))
                (split_sep_free _)) as Hroot.
  destruct (root_parts filepath (split (normalize filepath))) as [resolvedParts skipCount].
  apply join_relative, resolve_parts_sep_free; [done|].
  apply Forall_drop, split_sep_free.
Qed.

(** What the loop of the earlier function keeps starts with the first
    part. *)
Lemma remove_loop_extends fuel parts : ∀ i normalized,
  ∃ more, remove_loop fuel parts i normalized = normalized ++ more.
Proof.
  induction fuel as [|fuel IH]; intros i normalized; cbn [remove_loop].
  { exists []. by rewrite app_nil_r. }
  destruct (i <? length parts); [|exists []; by rewrite app_nil_r].
  destruct (String.eqb _ "" && negb (i =? 0)); [apply IH|].
  destruct (if (0 <? i) && _ then _ else _); [apply IH|].
  destruct (IH (i + 1) (normalized ++ [default "" (parts !! i)])) as [more ->].
  eexists. by rewrite <-app_assoc.
Qed.

Lemma remove_segments_head x l : ∃ more, remove_segments (x :: l) = x :: more.
Proof.
  unfold remove_segments. cbn [length].
  rewrite remove_loop_first by lia.
  destruct (remove_loop_extends (S (length l)) (x :: l) 1 [x]) as [more ->].
  by exists more.
Qed.

(** The earlier normalizer keeps a non-empty relative path relative. *)
Lemma removeDuplicatePathSegments_relative (p : string) :
  p ≠ "" → isAbsolute p = false →
  isAbsolute (removeDuplicatePathSegments p) = false.
Proof.
  intros Hne Hrel.
  assert (∃ x l, split p = x :: l ∧ x ≠ "") as (x & l & Hsplit & Hx).
  { destruct p as [|c p]; [done|]. cbn [isAbsolute] in Hrel. cbn [split]. rewrite Hrel.
    destruct (split p) as [|part parts]; eexists _, _; by split. }
  unfold removeDuplicatePathSegments. rewrite Hsplit.
  destruct (remove_segments_head x l) as [more Hkept].
  assert (Forall (λ y, has_sep y = false) (remove_segments (x :: l))) as Hfree.
  { apply Forall_forall. intros y Hy.
    pose proof (split_sep_free p) as Hparts. rewrite Hsplit, Forall_forall in Hparts.
    apply Hparts. eapply remove_loop_subset; [|exact Hy]. by intros z Hz%elem_of_nil. }
  rewrite Hkept in *. cbn [length Nat.eqb].
  rewrite (bool_decide_eq_false_2 ((x :: more) !! 0 = Some ""))
    by (cbn; by intros [= ->]).
  rewrite andb_false_r. cbn [andb].
  by apply join_relative.
Qed.

(** X12.  When the path does not exist, the fallback of [resolveSymlinks]
    answers a relative path, whatever the path was and whatever
    [realpath] answers for the partial paths: the resolved parts start
    with an empty part for an absolute path, and [path.join] drops empty
    parts.  This holds for the current function and for the earlier
    one. *)
Theorem missing_path_resolves_relative realpath filepath :
  realpath filepath = ENOENT →
  (∃ r, resolveSymlinks realpath filepath = Resolved r ∧ isAbsolute r = false)
  ∧ (∃ r, V1.resolveSymlinks realpath filepath = Resolved r ∧ isAbsolute r = false).
Proof.
  intros Hmissing. unfold resolveSymlinks, V1.resolveSymlinks. rewrite Hmissing.
  destruct (resolve_missing_relative realpath filepath) as [Hrel Hne].
  split; eexists; (split; [done|]); [done|].
  by apply removeDuplicatePathSegments_relative.
Qed.

Lemma missing_path_resolves_relative_example :
  (∃ r, resolveSymlinks empty_disk alice_bin = Resolved r ∧ isAbsolute r = false)
  ∧ (∃ r, V1.resolveSymlinks empty_disk alice_bin = Resolved r ∧ isAbsolute r = false).
Proof. apply (missing_path_resolves_relative empty_disk alice_bin). reflexivity. Defined.

Example resolveSymlinks_examples :
  resolveSymlinks empty_disk alice_bin
  = Resolved "home/alice/vault/.obsidian/plugins/mcp-tools/bin"
  ∧ resolveSymlinks installed_disk alice_bin = Resolved alice_bin
  ∧ resolveSymlinks (λ _, OtherError "EACCES") alice_bin
    = Rejected "Failed to resolve symlink: /home/alice/vault/.obsidian/plugins/mcp-tools/bin".
Proof. by vm_compute. Qed.

Lemma BINARY_NAME_plain platform name :
  BINARY_NAME platform = Some name → is_plain_segment name = true.
Proof.
  unfold BINARY_NAME.
  destruct (String.eqb platform "windows"); [by intros [= <-]|].
  destruct (String.eqb platform "macos"); [by intros [= <-]|].
  destruct (String.eqb platform "linux"); [by intros [= <-]|done].
Qed.

(** X13.  On a POSIX host.  The directory exists, and its real path is
    canonical (it begins with the slash), of plain segments and without
    a repeated block.  Then [dir] is that real path, [path] is the
    binary of the platform directly below it, and [symlinked] holds the
    configured path exactly when it differs from the real one. *)
Theorem getInstallPath_existing os_platform realpath host plugin base segs binary :
  adapter host = inl base →
  realpath (originalPath base host) = RealPath (render true segs) →
  forallb is_plain_segment segs = true → no_repeated_block segs = true →
  BINARY_NAME (getPlatform os_platform (Some plugin)) = Some binary →
  getInstallPath os_platform realpath host plugin
  = Resolved (inl {| dir := render true segs;
                     path := render true (segs ++ [binary]);
                     name := binary;
                     symlinked := if bool_decide (originalPath base host = render true segs)
                                  then None else Some (originalPath base host) |}).
Proof.
  intros Hadapter Hreal Hplain Hno Hbinary.
  unfold getInstallPath, resolveSymlinks. rewrite Hadapter. cbv zeta.
  rewrite Hreal, Hbinary.
  rewrite normalizeDuplicateSegments_render by (by apply forallb_plain_is_segment).
  rewrite normalize_segments_fixed by done.
  assert (join [render true segs; binary] = render true (segs ++ [binary])) as ->; [|done].
  apply (join_canonical false segs [binary]); [done|].
  rewrite forallb_app, Hplain. cbn [forallb].
  by rewrite (BINARY_NAME_plain _ _ Hbinary).
Qed.

Lemma getInstallPath_existing_example :
  getInstallPath "linux" installed_disk alice_host plain_plugin
  = Resolved (inl {| dir := "/home/alice/vault/.obsidian/plugins/mcp-tools/bin";
                     path := "/home/alice/vault/.obsidian/plugins/mcp-tools/bin/mcp-server";
                     name := "mcp-server";
                     symlinked := None |}).
Proof.
  apply (getInstallPath_existing "linux" installed_disk alice_host plain_plugin
           "/home/alice/vault"
           ["home"; "alice"; "vault"; ".obsidian"; "plugins"; "mcp-tools"; "bin"]
           "mcp-server"); reflexivity.
Defined.

Lemma join_of_relative (l : list string) :
  Forall (λ x, isAbsolute x = false) l → isAbsolute (join l) = false.
Proof.
  intros Hl. unfold join.
  assert (Forall (λ x, isAbsolute x = false) (filter (λ a, a ≠ "") l)) as Hfilter.
  { apply Forall_forall. intros x [_ Hin]%list_elem_of_filter.
    rewrite Forall_forall in Hl. by apply Hl. }
  destruct (filter (λ a, a ≠ "") l) as [|x rest] eqn:Hnonempty; [done|].
  destruct (isAbsolute_normalize (array_join (x :: rest))) as [-> _].
  apply Forall_cons in Hfilter as [Hx _].
  assert (x ≠ "") as Hne.
  { assert (x ∈ filter (λ a, a ≠ "") l) as Hin by (rewrite Hnonempty; left).
    by apply list_elem_of_filter in Hin as [? _]. }
  destruct x as [|c x]; [done|]. by rewrite isAbsolute_array_join.
Qed.

(** X14.  The [bin] directory of the plugin does not exist yet (a first
    installation); the file-system adapter is available and the platform
    has a binary name.  The call resolves, and the directory and the path of
    the binary that it reports are relative paths; an absolute configured
    path is reported as [symlinked]. *)
Theorem getInstallPath_missing_directory os_platform realpath host plugin base binary :
  adapter host = inl base →
  realpath (originalPath base host) = ENOENT →
  BINARY_NAME (getPlatform os_platform (Some plugin)) = Some binary →
  ∃ info,
    getInstallPath os_platform realpath host plugin = Resolved (inl info)
    ∧ isAbsolute (dir info) = false ∧ isAbsolute (path info) = false
    ∧ name info = binary
    ∧ (isAbsolute (originalPath base host) = true →
       symlinked info = Some (originalPath base host)).
Proof.
  intros Hadapter Hmissing Hbinary.
  unfold getInstallPath, resolveSymlinks. rewrite Hadapter. cbv zeta.
  rewrite Hmissing, Hbinary.
  destruct (resolve_missing_relative realpath (originalPath base host)) as [Hrel _].
  destruct (normalizeDuplicateSegments_canonical
              (resolve_missing realpath (originalPath base host))) as (_ & _ & _ & Habs).
  rewrite Hrel in Habs.
  eexists. split; [done|]. cbn [dir path name symlinked]. split_and!.
  - done.
  - apply join_of_relative. repeat constructor; [done|].
    apply BINARY_NAME_plain in Hbinary.
    apply is_plain_segment_spec in Hbinary as [Hseg _].
    by apply (isAbsolute_render false [binary]); cbn; rewrite Hseg.
  - done.
  - intros Horiginal. rewrite bool_decide_eq_false_2; [done|].
    intros Heq. rewrite <-Heq in Habs. congruence.
Qed.

Lemma getInstallPath_missing_directory_example :
  ∃ info,
    getInstallPath "linux" empty_disk alice_host plain_plugin = Resolved (inl info)
    ∧ isAbsolute (dir info) = false ∧ isAbsolute (path info) = false
    ∧ name info = "mcp-server"
    ∧ (isAbsolute (originalPath "/home/alice/vault" alice_host) = true →
       symlinked info = Some (originalPath "/home/alice/vault" alice_host)).
Proof.
  apply (getInstallPath_missing_directory "linux" empty_disk alice_host plain_plugin
           "/home/alice/vault" "mcp-server"); reflexivity.
Defined.

Example getInstallPath_first_installation :
  getInstallPath "linux" empty_disk alice_host plain_plugin
  = Resolved (inl {| dir := "home/alice/vault/.obsidian/plugins/mcp-tools/bin";
                     path := "home/alice/vault/.obsidian/plugins/mcp-tools/bin/mcp-server";
                     name := "mcp-server";
                     symlinked := Some alice_bin |}).
Proof. by vm_compute. Qed.

Lemma BINARY_NAME_unknown custom :
  custom ∉ PLATFORM_TYPES → BINARY_NAME custom = None.
Proof.
  intros Hunknown. unfold BINARY_NAME, PLATFORM_TYPES in *.
  destruct (String.eqb_spec custom "windows") as [->|_]; [destruct Hunknown; by left|].
  destruct (String.eqb_spec custom "macos") as [->|_];
    [destruct Hunknown; right; by left|].
  destruct (String.eqb_spec custom "linux") as [->|_];
    [destruct Hunknown; do 2 right; by left|].
  done.
Qed.

(** X15.  A custom platform that is none of "windows", "macos" and "linux"
    has no binary name: with the file-system adapter available, the call
    rejects instead of answering a path. *)
Theorem getInstallPath_unknown_platform os_platform realpath host plugin base custom :
  adapter host = inl base →
  field customPlatform plugin = Some custom → custom ≠ "" →
  custom ∉ PLATFORM_TYPES →
  ∃ reason, getInstallPath os_platform realpath host plugin = Rejected reason.
Proof.
  intros Hadapter Hcustom Hne Hunknown.
  unfold getInstallPath. rewrite Hadapter. cbv zeta.
  rewrite (getPlatform_override _ _ _ Hcustom Hne), (BINARY_NAME_unknown _ Hunknown).
  unfold resolveSymlinks. destruct (realpath _); by eexists.
Qed.

Lemma getInstallPath_unknown_platform_example :
  ∃ reason, getInstallPath "win32" installed_disk alice_host wsl2_plugin = Rejected reason.
Proof.
  apply (getInstallPath_unknown_platform "win32" installed_disk alice_host wsl2_plugin
           "/home/alice/vault" "wsl"); [reflexivity|reflexivity|done|].
  apply (bool_decide_unpack _). vm_compute. reflexivity.
Defined.

(** X16.  On a POSIX host.  Without a platform override, and for a
    directory that exists under a canonical real path (one that begins
    with the slash) of plain segments without a repeated block, the
    earlier [getInstallPath] and the current one answer the same. *)
Theorem getInstallPath_versions_agree os_platform realpath host plugin base segs :
  adapter host = inl base →
  realpath (originalPath base host) = RealPath (render true segs) →
  segs ≠ [] → forallb is_plain_segment segs = true → no_repeated_block segs = true →
  truthy (field customPlatform plugin) = false →
  V1.getInstallPath os_platform realpath host
  = getInstallPath os_platform realpath host plugin.
Proof.
  intros Hadapter Hreal Hne Hplain Hno Hcustom.
  unfold V1.getInstallPath, getInstallPath, V1.resolveSymlinks, resolveSymlinks.
  rewrite Hadapter. cbv zeta. rewrite Hreal.
  rewrite removeDuplicatePathSegments_fixed by done.
  rewrite normalizeDuplicateSegments_render by (by apply forallb_plain_is_segment).
  rewrite normalize_segments_fixed by done.
  assert (getPlatform os_platform (Some plugin) = getPlatform os_platform None) as ->; [|done].
  unfold getPlatform. cbn [mbind option_bind]. by rewrite Hcustom.
Qed.

Lemma getInstallPath_versions_agree_example :
  V1.getInstallPath "darwin" installed_disk alice_host
  = getInstallPath "darwin" installed_disk alice_host plain_plugin.
Proof.
  apply (getInstallPath_versions_agree "darwin" installed_disk alice_host plain_plugin
           "/home/alice/vault"
           ["home"; "alice"; "vault"; ".obsidian"; "plugins"; "mcp-tools"; "bin"]);
    (reflexivity || done).
Defined.

Lemma resolve_parts_canonical realpath (segs : list string) :
  forallb is_plain_segment segs = true →
  (∀ k, 0 < k ≤ length segs →
     realpath (render false (take k segs)) = RealPath (render true (take k segs))
     ∨ ∀ r, realpath (render false (take k segs)) ≠ RealPath r) →
  ∀ n k, n = length segs - k → k ≤ length segs →
    foldl (resolve_part realpath) ("" :: take k segs) (drop k segs) = "" :: segs.
Proof.
  intros Hplain Hreal n. induction n as [|n IH]; intros k Hn Hk.
  { rewrite drop_ge, take_ge by lia. done. }
  destruct (lookup_lt_is_Some_2 segs k ltac:(lia)) as [x Hx].
  rewrite (drop_S _ _ _ Hx). cbn [foldl].
  assert (forallb is_plain_segment (take (S k) segs) = true) as Hprefix.
  { apply forallb_forall. intros y Hy%list_elem_of_In.
    rewrite forallb_forall in Hplain. apply Hplain, list_elem_of_In.
    by eapply elem_of_sublist; [|apply sublist_take]. }
  assert (take (S k) segs ≠ []) as Hne by (destruct segs; [done|by cbn]).
  assert (resolve_part realpath ("" :: take k segs) x = "" :: take (S k) segs) as ->.
  { unfold resolve_part.
    replace (("" :: take k segs) ++ [x]) with ([""] ++ take (S k) segs)
      by (by rewrite (take_S_r _ _ _ Hx)).
    rewrite (join_render true) by done.
    change (array_join (take (S k) segs)) with (render false (take (S k) segs)).
    destruct (Hreal (S k) ltac:(lia)) as [->|Hfails].
    - by rewrite (split_render_parts true) by (done || by apply forallb_plain_is_segment).
    - destruct (realpath _) as [r| |]; [by destruct (Hfails r)|done|done]. }
  apply (IH (S k)); lia.
Qed.

(** X24.  The fallback, exactly.  The path is canonical and absolute,
    of plain segments, and does not exist; each of its prefixes, asked
    as a relative path, either does not resolve or resolves to that
    prefix below the root (the working directory is the root and there
    is no link).  Then [resolveSymlinks] answers the path without its
    leading separator. *)
Theorem missing_path_made_relative realpath (segs : list string) :
  segs ≠ [] → forallb is_plain_segment segs = true →
  realpath (render true segs) = ENOENT →
  (∀ k, 0 < k ≤ length segs →
     realpath (render false (take k segs)) = RealPath (render true (take k segs))
     ∨ ∀ r, realpath (render false (take k segs)) ≠ RealPath r) →
  resolveSymlinks realpath (render true segs) = Resolved (render false segs).
Proof.
  intros Hne Hplain Hmissing Hreal.
  pose proof (forallb_plain_is_segment _ Hplain) as Hok.
  unfold resolveSymlinks. rewrite Hmissing. f_equal. unfold resolve_missing.
  assert (endsWith_sep (render true segs) = false) as Hend.
  { unfold render. destruct segs as [|x segs]; [done|].
    change (String sep (array_join (x :: segs))) with ("/" +:+ array_join (x :: segs)).
    rewrite endsWith_sep_append; [by apply endsWith_sep_array_join|].
    apply array_join_nonempty. cbn [forallb] in Hok.
    apply andb_true_iff in Hok as [Hx _]. by apply is_segment_spec in Hx as [? _]. }
  rewrite (normalize_absolute (render true segs) segs);
    [|done|done|by apply split_render|done|done].
  rewrite (split_render_parts true) by done. cbn [app].
  unfold root_parts. cbn [render Win32Path.isAbsolute].
  change (Win32Path.isPathSeparator sep) with true.
  cbn [orb lookup list_lookup default from_option id].
  destruct segs as [|x segs'] eqn:Hsegs; [done|]. rewrite <-Hsegs in *.
  assert (x ≠ "") as Hx.
  { rewrite Hsegs in Hok. cbn [forallb] in Hok. apply andb_true_iff in Hok as [Hx _].
    by apply is_segment_spec in Hx as [? _]. }
  rewrite bool_decide_eq_false_2 by (rewrite Hsegs; cbn; by intros [= ->]).
  cbn [drop].
  pose proof (resolve_parts_canonical realpath segs Hplain Hreal (length segs) 0
                ltac:(lia) ltac:(lia)) as Hfold.
  rewrite take_0 in Hfold. rewrite Hfold.
  by apply (join_render true).
Qed.

Lemma missing_path_made_relative_example :
  resolveSymlinks empty_disk alice_bin
  = Resolved "home/alice/vault/.obsidian/plugins/mcp-tools/bin".
Proof.
  apply (missing_path_made_relative empty_disk
           ["home"; "alice"; "vault"; ".obsidian"; "plugins"; "mcp-tools"; "bin"]);
    [done|reflexivity|reflexivity|].
  intros k _. by right.
Defined.

(** X25.  The status query with such a platform.  The manifest
    version is valid, there is an API key and the file-system adapter is
    available, but the settings name a
    custom platform that is none of "windows", "macos" and "linux": the
    status query does not answer a status, it rejects. *)
Theorem status_rejects_unknown_platform version pv apiKey os_platform realpath host plugin
    access run base custom :
  Semver.valid (Semver.clean version) = Some pv → truthy apiKey = true →
  adapter host = inl base →
  field customPlatform plugin = Some custom → custom ≠ "" →
  custom ∉ PLATFORM_TYPES →
  ∃ reason,
    getInstallationStatus
      (status_world version apiKey os_platform realpath host plugin access run)
    = Rejected reason.
Proof.
  intros Hversion Hkey Hadapter Hcustom Hne Hunknown.
  unfold getInstallationStatus, status_world.
  cbn [Status.manifest_version Status.getLocalRestApiKey Status.getInstallPath].
  rewrite Hversion, Hkey. cbn [negb].
  unfold getInstallPath. rewrite Hadapter. cbv zeta.
  rewrite (getPlatform_override _ _ _ Hcustom Hne), (BINARY_NAME_unknown _ Hunknown).
  unfold resolveSymlinks. destruct (realpath _); by eexists.
Qed.

Lemma status_rejects_unknown_platform_example :
  ∃ reason,
    getInstallationStatus
      (status_world "0.2.27" (Some "secret") "win32" installed_disk alice_host wsl2_plugin
         (λ _, true) (λ _, Exits 0 "0.2.27" 20))
    = Rejected reason.
Proof.
  apply (status_rejects_unknown_platform "0.2.27"
           {| Semver.major := 0; Semver.minor := 2; Semver.patch := 27;
              Semver.prerelease := [] |}
           (Some "secret") "win32" installed_disk alice_host wsl2_plugin
           (λ _, true) (λ _, Exits 0 "0.2.27" 20) "/home/alice/vault" "wsl");
    [reflexivity|reflexivity|reflexivity|reflexivity|done|].
  apply (bool_decide_unpack _). vm_compute. reflexivity.
Defined.

End InstallPathFacts.

(** ** Downloads that complete, requests that fail, and the subscriber *)

Section DownloadOutcomeFacts.
Import Settings Download DownloadOutcome.

(** The bytes reported for a run of buffers are the bytes written. *)
Lemma progress_of_last total buffers : ∀ downloaded content p,
  downloaded = String.length content →
  last (progress_of total downloaded buffers) = Some (Next p) →
  bytesReceived p = String.length (foldl String.append content buffers).
Proof.
  induction buffers as [|data buffers IH]; intros downloaded content p Hlen; [done|].
  cbn [progress_of foldl].
  destruct buffers as [|data' buffers].
  - cbn. intros [= <-]. cbn. rewrite Hlen. clear.
    induction content as [|c content IHc]; [done|]. cbn. by rewrite IHc.
  - intros Hlast. apply (IH (downloaded + String.length data)); [|exact Hlast].
    rewrite Hlen. clear. induction content as [|c content IHc]; [done|]. cbn. by rewrite IHc.
Qed.

Lemma downloadFile_completes w url redirects st r total buffers :
  redirects ≤ 5 → stopped st = false →
  get w url = Response r → statusCode r = Some 200 → content_total r = Some total →
  createWriteStream w = Opens →
  events r = (Data ∘ Buffer <$> buffers) ++ [Finish] →
  ∃ st',
    downloadFile w url redirects st = Some st'
    ∧ file st' = Some (written buffers)
    ∧ notifications st' = notifications st ++ progress_of total 0 buffers ++ [Complete]
    ∧ log st' = log st ++ (if chmod_fails w then [ChmodFailed] else []).
Proof.
  intros Hr Hlive Hget Hcode Htotal Hopens Hevents.
  rewrite downloadFile_unfold by done. cbv zeta.
  rewrite Hget, Hcode, Htotal, Hopens, Hevents.
  cbn [default from_option id Nat.leb Nat.eqb orb negb].
  rewrite foldl_app. cbn [foldl].
  destruct (on_events_buffers w total buffers 0 (set_file (Some "") (add_request url st)) "")
    as (downloaded & st1 & -> & Hlive1 & Hfile1 & Hnote1 & _ & Hlog1); [done..|].
  cbn [on_event cleanup fmap option_fmap option_map]. rewrite Hfile1.
  eexists. split; [done|]. cbn [snd default from_option id].
  destruct (chmod_fails w).
  - destruct (stopped_notify Complete (add_log ChmodFailed st1) Hlive1)
      as (Hnote & Hf & _ & Hlog & _).
    rewrite Hnote, Hf, Hlog. cbn. rewrite Hfile1, Hnote1, Hlog1. cbn.
    split_and!; try done. by rewrite <-app_assoc.
  - destruct (stopped_notify Complete st1 Hlive1) as (Hnote & Hf & _ & Hlog & _).
    rewrite Hnote, Hf, Hlog, Hfile1, Hnote1, Hlog1. cbn.
    split_and!; try done.
    + by rewrite <-app_assoc.
    + by rewrite app_nil_r.
Qed.

(** X17.  A download that completes.  The response is a 200 whose
    content length, when it has one that is not empty, begins with a
    number for [parseInt]; the file is opened, the buffers arrive and
    the file stream finishes.  The file at the output path then holds
    exactly the buffers, in order, whatever was there before; the
    subscriber is told the progress of every buffer and then
    [complete]; every progress reports, as the total, the double that
    [parseInt] answers for the content length, and 0 when there is
    none; the last progress reports as many bytes as the file holds; a
    [chmod] that fails is logged and changes nothing else. *)
Theorem download_completes w url redirects st r total buffers :
  redirects ≤ 5 → stopped st = false →
  get w url = Response r → statusCode r = Some 200 → content_total r = Some total →
  createWriteStream w = Opens →
  events r = (Data ∘ Buffer <$> buffers) ++ [Finish] →
  ∃ st',
    downloadFile w url redirects st = Some st'
    ∧ file st' = Some (written buffers)
    ∧ notifications st' = notifications st ++ progress_of total 0 buffers ++ [Complete]
    ∧ total = match contentLength r with
              | Some text => if String.eqb text "" then Text.Finite false 0
                             else Text.parseInt10 text
              | None => Text.Finite false 0
              end
    ∧ total ≠ Text.NaN
    ∧ (∀ p, last (progress_of total 0 buffers) = Some (Next p) →
         bytesReceived p = String.length (written buffers))
    ∧ log st' = log st ++ (if chmod_fails w then [ChmodFailed] else []).
Proof.
  intros Hr Hlive Hget Hcode Htotal Hopens Hevents.
  destruct (downloadFile_completes w url redirects st r total buffers)
    as (st' & Hrun & Hfile & Hnote & Hlog); [done..|].
  exists st'. split_and!; try done.
  - unfold content_total, truthy in Htotal.
    destruct (contentLength r) as [text|]; [|by injection Htotal].
    destruct (String.eqb text ""); cbn [negb default from_option id] in Htotal;
      [by injection Htotal|].
    by destruct (Text.parseInt10 text); [|injection Htotal..].
  - unfold content_total, truthy in Htotal.
    destruct (contentLength r) as [text|]; [|by injection Htotal as <-].
    destruct (String.eqb text ""); cbn [negb default from_option id] in Htotal;
      [by injection Htotal as <-|].
    by destruct (Text.parseInt10 text); [|injection Htotal as <-..].
  - intros p. by apply progress_of_last.
Qed.

(** A binary of four bytes in two buffers, where a binary was
    installed; and a response whose content length is 2^53 + 1, which
    is reported as the double 2^53. *)
Lemma download_completes_example :
  (∃ st',
     downloadFile serving_world "https://host/bin" 0 installed = Some st'
     ∧ file st' = Some "MZok"
     ∧ notifications st'
       = [Next {| bytesReceived := 2; totalBytes := Text.Finite false 4 |};
          Next {| bytesReceived := 4; totalBytes := Text.Finite false 4 |}; Complete]
     ∧ log st' = [])
  ∧ (∃ st',
       downloadFile (sized_world "9007199254740993") "https://host/bin" 0 initial = Some st'
       ∧ file st' = Some "MZ"
       ∧ notifications st'
         = [Next {| bytesReceived := 2; totalBytes := Text.Finite false 9007199254740992 |};
            Complete]).
Proof.
  split.
  - destruct (download_completes serving_world "https://host/bin" 0 installed
                {| statusCode := Some 200; statusMessage := "OK";
                   location := None; contentLength := Some "4";
                   events := [Data (Buffer "MZ"); Data (Buffer "ok"); Finish] |}
                (Text.Finite false 4) ["MZ"; "ok"])
      as (st' & Hrun & Hfile & Hnote & _ & _ & _ & Hlog); [lia|reflexivity..|].
    exists st'. by split_and!.
  - destruct (download_completes (sized_world "9007199254740993") "https://host/bin" 0
                initial
                {| statusCode := Some 200; statusMessage := "OK";
                   location := None; contentLength := Some "9007199254740993";
                   events := [Data (Buffer "MZ"); Finish] |}
                (Text.Finite false 9007199254740992) ["MZ"])
      as (st' & Hrun & Hfile & Hnote & _); [lia|reflexivity|reflexivity|reflexivity|
                                            by vm_compute|reflexivity|reflexivity|].
    exists st'. by split_and!.
Defined.

(** X18.  A request that fails before the file stream is created (no
    connection, a status of 400 or more, a redirect without a location,
    another status than 200, a content length that is no number).
    Nothing was written, and still the cleanup unlinks the output path:
    a file that was there before, such as the binary of an earlier
    installation, is gone afterwards, unless the unlink fails, which is
    logged. *)
Theorem failed_request_unlinks_output w url redirects st e :
  redirects ≤ 5 → stopped st = false → refusal (get w url) = Some e →
  ∃ st',
    downloadFile w url redirects st = Some st'
    ∧ notifications st' = notifications st ++ [Error e]
    ∧ requests st' = requests st ++ [url]
    ∧ file st' = (if unlink_fails w then file st else None)
    ∧ (unlink_fails w = true ∨ file st = None → CleanupFailed ∈ log st').
Proof.
  intros Hr Hlive Hrefusal.
  rewrite downloadFile_unfold by done. cbv zeta.
  assert (∀ st0, stopped st0 = false →
            ∃ st', snd (fail w e None st0) = st'
                   ∧ notifications st' = notifications st0 ++ [Error e]
                   ∧ requests st' = requests st0
                   ∧ file st' = (if unlink_fails w then file st0 else None)
                   ∧ (unlink_fails w = true ∨ file st0 = None → CleanupFailed ∈ log st'))
    as Hfail.
  { intros st0 Hlive0.
    destruct (fail_effect w e None st0)
      as (st' & -> & Hfile & Hreq & Hnote & _ & _ & Hlog & _).
    destruct (Hnote Hlive0) as [Hnote' _]. by exists st'. }
  destruct (Hfail (add_request url st) Hlive) as (st' & Hst' & Hnote & Hreq & Hfile & Hlog).
  exists st'. split; [|done].
  unfold refusal in Hrefusal. destruct (get w url) as [message|r].
  - injection Hrefusal as <-. by rewrite Hst'.
  - cbv zeta in Hrefusal. destruct (400 <=? default 0 (statusCode r)).
    { injection Hrefusal as <-. by rewrite Hst'. }
    destruct ((default 0 (statusCode r) =? 302) || (default 0 (statusCode r) =? 301)).
    { destruct (truthy (location r)); [done|]. injection Hrefusal as <-. by rewrite Hst'. }
    destruct (negb (default 0 (statusCode r) =? 200)).
    { injection Hrefusal as <-. by rewrite Hst'. }
    destruct (content_total r); [done|]. injection Hrefusal as <-. by rewrite Hst'.
Qed.

Lemma failed_request_unlinks_output_example :
  ∃ st',
    downloadFile not_found_world "https://host/bin" 0 installed = Some st'
    ∧ notifications st' = [Error (HttpError 404 "Not Found")]
    ∧ requests st' = ["https://host/bin"]
    ∧ file st' = None
    ∧ (false = true ∨ Some "previous binary" = None → CleanupFailed ∈ log st').
Proof.
  apply (failed_request_unlinks_output not_found_world "https://host/bin" 0 installed
           (HttpError 404 "Not Found")); (lia || reflexivity).
Defined.


Lemma keeps_protocol_refl st : keeps_protocol st st.
Proof. by split. Qed.

Lemma keeps_protocol_trans st1 st2 st3 :
  keeps_protocol st1 st2 → keeps_protocol st2 st3 → keeps_protocol st1 st3.
Proof. intros [Hp1 Hw1] [Hp2 Hw2]. split; [by etrans|]. intros H. by apply Hw2, Hw1. Qed.

Lemma keeps_protocol_same st st' :
  notifications st' = notifications st → keeps_protocol st st'.
Proof. intros Heq. unfold keeps_protocol. by rewrite Heq. Qed.

Lemma keeps_protocol_notify n st : keeps_protocol st (notify n st).
Proof.
  unfold notify. destruct (stopped st) eqn:Hstopped; [apply keeps_protocol_refl|].
  split; cbn; [by apply prefix_app_r|].
  intros Hlast i m Hi Hm.
  destruct (decide (i < length (notifications st))) as [Hin|Hout].
  - rewrite lookup_app_l in Hi by done. exfalso.
    pose proof (Hlast i m Hi Hm) as Hend.
    unfold stopped in Hstopped. rewrite last_lookup in Hstopped.
    replace (pred (length (notifications st))) with i in Hstopped by lia.
    rewrite Hi in Hstopped. by destruct m.
  - apply lookup_lt_Some in Hi. rewrite length_app in *. cbn in *. lia.
Qed.

Lemma keeps_protocol_cleanup w failed fileStream st :
  keeps_protocol st (snd (cleanup w failed fileStream st)).
Proof.
  apply keeps_protocol_same. unfold cleanup.
  destruct failed, (file st), (unlink_fails w), (chmod_fails w); done.
Qed.

Lemma keeps_protocol_fail w e fileStream st :
  keeps_protocol st (snd (fail w e fileStream st)).
Proof.
  unfold fail. pose proof (keeps_protocol_cleanup w true fileStream st) as Hclean.
  destruct (cleanup w true fileStream st) as [fileStream' st1]. cbn [snd] in *.
  eapply keeps_protocol_trans; [exact Hclean|apply keeps_protocol_notify].
Qed.

Lemma keeps_protocol_on_event w total ev fileStream downloaded st :
  keeps_protocol st (snd (on_event w total ev (fileStream, downloaded, st))).
Proof.
  assert (∀ e, keeps_protocol st
                 (snd (let '(fileStream', st') := fail w e (Some fileStream) st in
                       (default fileStream fileStream', downloaded, st')))) as Hfail.
  { intros e. pose proof (keeps_protocol_fail w e (Some fileStream) st) as H.
    by destruct (fail w e (Some fileStream) st). }
  destruct ev as [[data|]|message|message|message|]; cbn [on_event]; try apply Hfail.
  - cbn [snd].
    eapply keeps_protocol_trans; [apply keeps_protocol_notify|].
    apply keeps_protocol_same. destruct fileStream; try done.
    by destruct (file (notify _ st)).
  - pose proof (keeps_protocol_cleanup w false (Some fileStream) st) as Hclean.
    destruct (cleanup w false (Some fileStream) st) as [fileStream' st1]. cbn [snd] in *.
    eapply keeps_protocol_trans; [exact Hclean|apply keeps_protocol_notify].
Qed.

Lemma keeps_protocol_events w total evs : ∀ s,
  keeps_protocol (snd s) (snd (foldl (λ s ev, on_event w total ev s) s evs)).
Proof.
  induction evs as [|ev evs IH]; intros s; [apply keeps_protocol_refl|]. cbn [foldl].
  eapply keeps_protocol_trans; [|apply IH].
  destruct s as [[fileStream downloaded] st]. apply keeps_protocol_on_event.
Qed.

Lemma keeps_protocol_download fuel w : ∀ url redirects st st',
  download_from fuel w url redirects st = Some st' → keeps_protocol st st'.
Proof.
  induction fuel as [|fuel IH]; intros url redirects st st'; cbn [download_from]; [done|].
  destruct (5 <? redirects); [intros [= <-]; apply keeps_protocol_notify|].
  assert (∀ e, keeps_protocol st (snd (fail w e None (add_request url st)))) as Hfail.
  { intros e. eapply keeps_protocol_trans; [|apply keeps_protocol_fail].
    by apply keeps_protocol_same. }
  destruct (get w url) as [message|r]; [intros [= <-]; apply Hfail|].
  destruct (400 <=? _); [intros [= <-]; apply Hfail|].
  destruct ((_ =? 302) || (_ =? 301)).
  { destruct (truthy (location r)); [|intros [= <-]; apply Hfail].
    intros Hrec%IH. eapply keeps_protocol_trans; [|exact Hrec].
    by apply keeps_protocol_same. }
  destruct (negb _); [intros [= <-]; apply Hfail|].
  destruct (content_total r) as [total|]; [|intros [= <-]; apply Hfail].
  destruct (createWriteStream w) as [message| |]; [intros [= <-]; apply Hfail| |].
  - intros [= <-].
    eapply keeps_protocol_trans;
      [|apply (keeps_protocol_events w total (events r)
                 (Open, 0, set_file (Some "") (add_request url st)))].
    by apply keeps_protocol_same.
  - intros [= <-].
    eapply keeps_protocol_trans;
      [|apply (keeps_protocol_events w total (events r)
                 (Unopened, 0, add_request url st))].
    by apply keeps_protocol_same.
Qed.

(** X19.  Whatever the network and the streams do, a download tells the
    subscriber nothing after [error] or [complete], and at most one of
    them: what it had been told before stays, and a terminal
    notification is the last one. *)
Theorem subscriber_told_terminal_last w url redirects st :
  terminal_last (notifications st) →
  ∃ st', downloadFile w url redirects st = Some st'
         ∧ notifications st `prefix_of` notifications st'
         ∧ terminal_last (notifications st').
Proof.
  intros Hlast. destruct (downloadFile_total w url redirects st) as [st' Hrun].
  exists st'. split; [done|].
  destruct (keeps_protocol_download _ _ _ _ _ _ Hrun) as [Hprefix Hkeeps].
  split; [done|by apply Hkeeps].
Qed.

Lemma subscriber_told_terminal_last_example :
  ∃ st', downloadFile (aborting_world false) "https://host/bin" 0 initial = Some st'
         ∧ notifications initial `prefix_of` notifications st'
         ∧ terminal_last (notifications st').
Proof.
  apply (subscriber_told_terminal_last (aborting_world false) "https://host/bin" 0 initial).
  by intros [|i] n.
Defined.

End DownloadOutcomeFacts.

(** ** The installation *)

Section InstallerFacts.
Import Settings Platform Install Status InstallPath DownloadOutcome Installer.

Lemma settle_progress info total buffers : ∀ downloaded rest,
  settle info (Download.progress_of total downloaded buffers ++ rest) = settle info rest.
Proof.
  induction buffers as [|data buffers IH]; intros downloaded rest; [done|].
  cbn [Download.progress_of app settle]. apply IH.
Qed.

(** X20.  An installation that succeeds.  The install path is found, its
    directory is there and writable (or could be made), the URL of the
    platform's binary answers 200 with a content length that, when
    there is one that is not empty, begins with a number for
    [parseInt], the file at the install path is opened, and the buffers
    and the end of the stream arrive.  Then the promise resolves with
    that install path; the file at its [path] holds the buffers; the
    user sees the download notice, the progress of every buffer, with
    the double [parseInt] answers for the content length as its total,
    and the success notice. *)
Theorem installMcpServer_succeeds m plugin info r total buffers :
  getInstallPath (os_platform m) (realpath m) (plugin_host m) plugin = Resolved (inl info) →
  ensureDirectory (directories m) (dir info) = None →
  Download.get (network m)
    (getDownloadUrl (GITHUB_DOWNLOAD_URL m)
       (getPlatform (os_platform m) (Some plugin)) (getArch (os_arch m) (Some plugin)))
  = Download.Response r →
  Download.statusCode r = Some 200 → Download.content_total r = Some total →
  Download.createWriteStream (network m) = Download.Opens →
  Download.events r = (Download.Data ∘ Download.Buffer <$> buffers) ++ [Download.Finish] →
  ∃ st,
    installMcpServer m plugin
    = {| promise_of := Fulfilled info;
         notices := Downloading :: (Download.progress_of total 0 buffers ≫= told)
                    ++ [Hidden; Downloaded];
         download := Some st |}
    ∧ Download.file st = Some (Download.written buffers)
    ∧ Download.notifications st = Download.progress_of total 0 buffers ++ [Download.Complete]
    ∧ total = match Download.contentLength r with
              | Some text => if String.eqb text "" then Text.Finite false 0
                             else Text.parseInt10 text
              | None => Text.Finite false 0
              end.
Proof.
  intros Hpath Hdir Hget Hcode Htotal Hopens Hevents.
  unfold installMcpServer. cbv zeta. rewrite Hpath, Hdir.
  destruct (downloadFile_completes (network m)
              (getDownloadUrl (GITHUB_DOWNLOAD_URL m)
                 (getPlatform (os_platform m) (Some plugin))
                 (getArch (os_arch m) (Some plugin))) 0
              {| Download.file := file_at m (path info); Download.notifications := [];
                 Download.requests := []; Download.log := [] |} r total buffers)
    as (st & Hrun & Hfile & Hnote & _); [lia|done|exact Hget|done..|].
  rewrite Hrun. exists st. cbn [Download.notifications app] in Hnote.
  rewrite Hnote. split; [|split_and!; try done].
  - rewrite settle_progress, bind_app. done.
  - unfold Download.content_total, truthy in Htotal.
    destruct (Download.contentLength r) as [text|]; [|by injection Htotal].
    destruct (String.eqb text ""); cbn [negb default from_option id] in Htotal;
      [by injection Htotal|].
    by destruct (Text.parseInt10 text); [|injection Htotal..].
Qed.

(** Alice installs a binary of four bytes; and one of two bytes from a
    server that names a content length of 2^53 + 1, which the progress
    shows as 2^53. *)
Lemma installMcpServer_succeeds_example :
  (∃ st,
     installMcpServer (alice_machine serving_world) Config.plain_plugin
     = {| promise_of := Fulfilled alice_info;
          notices := [Downloading;
                      Progress {| Download.bytesReceived := 2;
                                  Download.totalBytes := Text.Finite false 4 |};
                      Progress {| Download.bytesReceived := 4;
                                  Download.totalBytes := Text.Finite false 4 |};
                      Hidden; Downloaded];
          download := Some st |}
     ∧ Download.file st = Some "MZok")
  ∧ (∃ st,
       installMcpServer (alice_machine (sized_world "9007199254740993")) Config.plain_plugin
       = {| promise_of := Fulfilled alice_info;
            notices := [Downloading;
                        Progress {| Download.bytesReceived := 2;
                                    Download.totalBytes :=
                                      Text.Finite false 9007199254740992 |};
                        Hidden; Downloaded];
            download := Some st |}
       ∧ Download.file st = Some "MZ").
Proof.
  split.
  - destruct (installMcpServer_succeeds (alice_machine serving_world) Config.plain_plugin
                alice_info
                {| Download.statusCode := Some 200; Download.statusMessage := "OK";
                   Download.location := None; Download.contentLength := Some "4";
                   Download.events := [Download.Data (Download.Buffer "MZ");
                                       Download.Data (Download.Buffer "ok");
                                       Download.Finish] |}
                (Text.Finite false 4) ["MZ"; "ok"])
      as (st & Hrun & Hfile & _); [reflexivity..|].
    exists st. by split.
  - destruct (installMcpServer_succeeds (alice_machine (sized_world "9007199254740993"))
                Config.plain_plugin alice_info
                {| Download.statusCode := Some 200; Download.statusMessage := "OK";
                   Download.location := None;
                   Download.contentLength := Some "9007199254740993";
                   Download.events := [Download.Data (Download.Buffer "MZ");
                                       Download.Finish] |}
                (Text.Finite false 9007199254740992) ["MZ"])
      as (st & Hrun & Hfile & _);
      [reflexivity|reflexivity|reflexivity|reflexivity|by vm_compute|reflexivity|reflexivity|].
    exists st. by split.
Defined.

Lemma settle_broken info ns e :
  settle info ns = Broken (CannotDownload e) → Download.Error e ∈ ns.
Proof.
  induction ns as [|[p|e'|] ns IH]; cbn [settle]; [done| | |done].
  - intros H. right. by apply IH.
  - intros [= ->]. by left.
Qed.

Lemma settle_unsettled info ns n :
  settle info ns = Unsettled → n ∈ ns → ∃ p, n = Download.Next p.
Proof.
  induction ns as [|[p|e'|] ns IH]; cbn [settle]; [by intros _ ?%elem_of_nil| |done|done].
  intros H [->|Hin]%elem_of_cons; [by eexists|by apply IH].
Qed.

(** X21.  How an installation fails.  An error before the download (no
    install path, a directory that cannot be made or written) is shown
    in the notice of the installation, and then nothing was requested
    and nothing else shown.  An error of the download is shown in the
    notice of the download only: the notice of the installation does
    not follow it.  An installation that never settles has shown
    nothing but the download notice and progress. *)
Theorem installMcpServer_failures m plugin :
  (∀ message,
     promise_of (installMcpServer m plugin) = Broken (CannotInstall message) →
     notices (installMcpServer m plugin) = [InstallFailed message]
     ∧ download (installMcpServer m plugin) = None)
  ∧ (∀ e,
       promise_of (installMcpServer m plugin) = Broken (CannotDownload e) →
       DownloadFailed e ∈ notices (installMcpServer m plugin)
       ∧ (∀ message, InstallFailed message ∉ notices (installMcpServer m plugin))
       ∧ is_Some (download (installMcpServer m plugin)))
  ∧ (∀ n,
       promise_of (installMcpServer m plugin) = Unsettled →
       n ∈ notices (installMcpServer m plugin) →
       n = Downloading ∨ ∃ p, n = Progress p).
Proof.
  unfold installMcpServer. cbv zeta.
  destruct (getInstallPath _ _ _ _) as [[info|message]|reason|];
    cbn [promise_of notices download].
  2:{ split_and!; [by intros ? [= <-]|done|done]. }
  2:{ split_and!; [by intros ? [= <-]|done|done]. }
  2:{ split_and!; [done|done|by intros ? _ ?%elem_of_nil]. }
  destruct (ensureDirectory _ _) as [message|]; cbn [promise_of notices download].
  { split_and!; [by intros ? [= <-]|done|done]. }
  match goal with
  | |- context [Download.downloadFile ?w ?url ?n ?s] =>
      destruct (Download.downloadFile w url n s) as [st|];
        cbn [promise_of notices download]
  end.
  2:{ split_and!; [done|done|]. intros n _ ->%list_elem_of_singleton. by left. }
  assert (∀ message, InstallFailed message ∉ Download.notifications st ≫= told) as Hnot.
  { intros message (n & Hin & _)%list_elem_of_bind.
    destruct n; cbn [told] in Hin;
      repeat (apply elem_of_cons in Hin as [Hin|Hin]; [done|]); by apply elem_of_nil in Hin. }
  split_and!.
  - intros message Hbroken. exfalso. clear -Hbroken.
    induction (Download.notifications st) as [|[p|e|] ns IH]; cbn in Hbroken;
      [done|by apply IH|done|done].
  - intros e Hin%settle_broken.
    split_and!; [|intros message [?|?]%elem_of_cons; [done|by eapply Hnot]|done].
    right. apply list_elem_of_bind. exists (Download.Error e). split; [|done].
    right. by left.
  - intros n Hunsettled [->|(n' & Hin & Hn')%list_elem_of_bind]%elem_of_cons; [by left|].
    destruct (settle_unsettled _ _ _ Hunsettled Hn') as [p ->].
    right. exists p. by apply list_elem_of_singleton in Hin.
Qed.

End InstallerFacts.

(** ** The fields of an installation status *)

Section StatusFields.
Import Settings Status.

Ltac status_case :=
  cbn; split_and!;
  first [ done
        | by intros [? [=]]
        | by intros [[=]|[[=]|[=]]]
        | by (split; [intros [? [=]]|intros [[=]|[=]]])
        | idtac ].

(** X22.  Which fields a status carries, by its state.  The server version is
    there exactly in the states "installed" and "outdated"; the install
    path is there in these and in "not installed", and never in "no api
    key"; an error text comes only with the state "error" and without an
    install path; the plugin version is missing only in the state
    "error", when the manifest version is not valid. *)
Theorem status_fields_by_state w st :
  getInstallationStatus w = Resolved st →
  (is_Some (versions_server st) ↔ state_of st = Installed ∨ state_of st = Outdated)
  ∧ (state_of st = NotInstalled ∨ state_of st = Installed ∨ state_of st = Outdated →
     is_Some (install_path st))
  ∧ (state_of st = NoApiKey → install_path st = None ∧ truthy (getLocalRestApiKey w) = false)
  ∧ (is_Some (error st) → state_of st = Error ∧ install_path st = None)
  ∧ (versions_plugin st = None →
     state_of st = Error ∧ Semver.valid (Semver.clean (manifest_version w)) = None).
Proof.
  unfold getInstallationStatus.
  destruct (Semver.valid _) as [pv|] eqn:Hpv; [|intros [= <-]; status_case].
  destruct (truthy (getLocalRestApiKey w)) eqn:Hkey; cbn [negb];
    [|intros [= <-]; status_case].
  destruct (getInstallPath w) as [[info|message]|reason|];
    [|intros [= <-]; status_case|done|done].
  destruct (access_X_OK w (path info)); cbn [negb]; cbv zeta;
    [|intros [= <-]; status_case].
  destruct (execAsync _) as [stdout|reason|]; [|intros [= <-]; status_case|done].
  destruct (Semver.clean (Text.trim stdout)) as [sv|]; [|intros [= <-]; status_case].
  intros [= <-]. destruct (Semver.lt sv pv); status_case.
  - split; [intros _; by right|by eexists].
  - split; [intros _; by left|by eexists].
Qed.

Lemma status_fields_by_state_example :
  (is_Some (Some {| Semver.major := 0; Semver.minor := 2; Semver.patch := 26;
                    Semver.prerelease := [] |})
   ↔ Outdated = Installed ∨ Outdated = Outdated)
  ∧ (Outdated = NotInstalled ∨ Outdated = Installed ∨ Outdated = Outdated →
     is_Some (Some example_info))
  ∧ (Outdated = NoApiKey → Some example_info = None ∧ true = false)
  ∧ (is_Some (@None string) → Outdated = Error ∧ Some example_info = None)
  ∧ (Some {| Semver.major := 0; Semver.minor := 2; Semver.patch := 27;
             Semver.prerelease := [] |} = None →
     Outdated = Error
     ∧ Semver.valid (Semver.clean "0.2.27") = None).
Proof.
  apply (status_fields_by_state (example_world "0.2.27" (Exits 0 "0.2.26" 20))
           {| state_of := Outdated; install_path := Some example_info;
              versions_plugin := Some {| Semver.major := 0; Semver.minor := 2;
                                         Semver.patch := 27; Semver.prerelease := [] |};
              versions_server := Some {| Semver.major := 0; Semver.minor := 2;
                                         Semver.patch := 26; Semver.prerelease := [] |};
              error := None |}).
  reflexivity.
Defined.

End StatusFields.

(** ** Directory arguments of the server *)

Section ServerPathsFacts.
Import PosixPath ServerPaths.

Lemma drop_end_slashes (d : string) :
  ∃ n, d = Text.drop_end (λ c, Ascii.eqb c "/"%char) d +:+ slashes n
       ∧ endsWith_sep (Text.drop_end (λ c, Ascii.eqb c "/"%char) d) = false
       ∧ (Text.drop_end (λ c, Ascii.eqb c "/"%char) d = "" → d = slashes n).
Proof.
  induction d as [|c d (n & Hd & Hend & Hempty)]; [by exists 0|].
  cbn [Text.drop_end].
  destruct (Text.drop_end _ d) as [|k kept] eqn:Hkept.
  - pose proof (Hempty eq_refl) as Hall. clear Hd Hempty.
    destruct (Ascii.eqb c "/"%char) eqn:Hc.
    + apply Ascii.eqb_eq in Hc as ->. exists (S n). cbn. rewrite Hall. by split_and!.
    + exists n. cbn. unfold sep. rewrite Hc, Hall. by split_and!.
  - exists n. split_and!; try done. cbn. by rewrite Hd at 1.
Qed.

(** X23.  The result is the directory without the slashes at its end: the
    directory is the result followed by slashes only, the result does
    not end with a slash, and a second call changes nothing.  Nothing
    else is touched; [undefined] stays [undefined]. *)
Theorem normalizeDirectory_strips (directory : string) :
  ∃ kept n,
    normalizeDirectory (Some directory) = Some kept
    ∧ directory = kept +:+ slashes n
    ∧ endsWith_sep kept = false
    ∧ normalizeDirectory (Some kept) = Some kept
    ∧ normalizeDirectory None = None.
Proof.
  destruct (drop_end_slashes directory) as (n & Hd & Hend & _).
  exists (Text.drop_end (λ c, Ascii.eqb c "/"%char) directory), n.
  split_and!; try done.
  unfold normalizeDirectory. cbn [fmap option_fmap option_map]. f_equal.
  set (kept := Text.drop_end _ directory) in *. clearbody kept. clear Hd.
  induction kept as [|c kept IH]; [done|]. cbn [Text.drop_end].
  destruct kept as [|k kept'].
  - cbn in *. unfold sep in Hend. by rewrite Hend.
  - rewrite IH by done. done.
Qed.

(** The tests of normalizePath.test.ts *)
Example normalizeDirectory_tests :
  normalizeDirectory (Some "DevOps/") = Some "DevOps"
  ∧ normalizeDirectory (Some "DevOps///") = Some "DevOps"
  ∧ normalizeDirectory (Some "DevOps") = Some "DevOps"
  ∧ normalizeDirectory (Some "path/to/dir/") = Some "path/to/dir"
  ∧ normalizeDirectory (Some "") = Some ""
  ∧ normalizeDirectory None = None
  ∧ normalizeDirectory (Some "/") = Some ""
  ∧ normalizeDirectory (Some "///") = Some "".
Proof. by vm_compute. Qed.

End ServerPathsFacts.
